(** * github-global: webhook ingestion, path filter and filename transliteration

    A shallow embedding of
      - src/app/api/webhooks/github/route.ts   (POST, cleanupDeliveryCache,
        filterFilesToTranslate, matchPath),
      - src/lib/translation/filename-translator.ts (FILENAME_MAPPING,
        containsNonAscii, translateFilename, getTranslatedPath),
      - src/lib/github/webhook.ts (verifyWebhookSignature, getWebhookSecret,
        getWebhookUrl, deleteWebhook),
      - src/config/constants.ts (SKIP_DIRECTORIES),
      - src/lib/github/operations.ts and src/lib/github/client.ts (the two
        getFileTree),
      - the repository configuration page (handleFileToggle,
        handleLanguageToggle, getMarkdownFilesInDir, handleDirSelect,
        getDirSelectState, getAllMarkdownFiles),
      - src/app/api/repos/[id]/config/route.ts (PUT),
    followed by the properties of the design document that concern them
    and by further properties of the code.  The digest function and the
    regular-expression constructor of the runtime are parameters.  Calls
    to the database are taken to succeed.

    Strings.  A JavaScript string is a sequence of UTF-16 code units; here it
    is the list of bytes of its UTF-8 encoding.  A code point below U+0080 is
    one code unit below 0x80 and one byte below 0x80; any other code point is
    made of code units that are all at least 0x80 and of bytes that are all
    at least 0x80.  Every operation the code applies (split on '/', search of
    '.', startsWith/endsWith/includes/replace with well-formed needles, the
    classes [^\x00-\x7F]+ and [^/]* ) therefore acts alike on both
    encodings. *)

From Stdlib Require Import ZArith List Ascii String Bool Lia.
From stdpp Require Import base tactics option list gmap strings.
Import ListNotations.

Local Open Scope Z_scope.

Abbreviation jsstring := (list ascii) (only parsing).

(** Literal: the bytes of a string constant. *)
Definition str (s : string) : jsstring := list_ascii_of_string s.
Arguments str : simpl never.

(** ** String primitives of the runtime *)

Module JS.

(** [s.startsWith(p)] *)
Fixpoint startsWith (s p : jsstring) : bool :=
  match p, s with
  | [], _ => true
  | _ :: _, [] => false
  | a :: p', b :: s' => bool_decide (a = b) && startsWith s' p'
  end.

(** [s.endsWith(p)] *)
Definition endsWith (s p : jsstring) : bool :=
  startsWith (reverse s) (reverse p).

(** [s.includes(needle)] *)
Fixpoint includes (s needle : jsstring) : bool :=
  startsWith s needle ||
  match s with
  | [] => false
  | _ :: s' => includes s' needle
  end.

(** [s.replace(needle, repl)] with a string needle: the first occurrence
    only.  The replacement strings of the code contain no [$]. *)
Fixpoint replace (s needle repl : jsstring) : jsstring :=
  if startsWith s needle then repl ++ drop (length needle) s
  else match s with
       | [] => []
       | c :: s' => c :: replace s' needle repl
       end.

(** [s.split(sep)] with a one-character separator; never empty. *)
Fixpoint split (sep : ascii) (s : jsstring) : list jsstring :=
  match s with
  | [] => [[]]
  | c :: s' =>
      if bool_decide (c = sep) then [] :: split sep s'
      else match split sep s' with
           | [] => [[c]]
           | h :: r => (c :: h) :: r
           end
  end.

(** [parts.join(sep)] *)
Fixpoint join (sep : jsstring) (parts : list jsstring) : jsstring :=
  match parts with
  | [] => []
  | [p] => p
  | p :: rest => p ++ sep ++ join sep rest
  end.

(** [s.lastIndexOf(c)]: -1 when [c] does not occur. *)
Fixpoint lastIndexOf (s : jsstring) (c : ascii) : Z :=
  match s with
  | [] => -1
  | a :: s' =>
      let r := lastIndexOf s' c in
      if 0 <=? r then r + 1
      else if bool_decide (a = c) then 0 else -1
  end.

(** [s.substring(i, j)] and [s.substring(i)] for [0 <= i <= j]. *)
Definition substring (s : jsstring) (i j : Z) : jsstring :=
  take (Z.to_nat (j - i)) (drop (Z.to_nat i) s).
Definition substringFrom (s : jsstring) (i : Z) : jsstring :=
  drop (Z.to_nat i) s.

(** Truthiness of a string: [""] is falsy. *)
Definition truthy (s : jsstring) : bool :=
  match s with [] => false | _ => true end.

End JS.

(** ** Regular expressions

    [new RegExp(source)] and [regex.test(subject)] belong to the runtime:
    the code below takes the constructor as a parameter, as it takes the
    digest function.  What this module gives is the reading of a fragment
    of the sources, the one the properties about patterns need: literal
    characters, the escape [\.], the class [[^/]], the postfix [*] and the
    assertions [^] and [$].  [compile] answers [None] on a source outside
    the fragment, which says nothing of what the constructor does with
    it. *)

Module RegExp.

Inductive atom : Type :=
| Lit (c : ascii)       (* a literal character *)
| NotSlash.             (* the class [^/] *)

Inductive token : Type :=
| TAtom (a : atom)
| TStar
| TBol
| TEol.

Inductive item : Type :=
| Once (a : atom)
| Star (a : atom)
| Bol
| Eol.

Definition chr_is (c : ascii) (d : string) : bool := bool_decide ([c] = str d).

(** Characters with a meaning of their own in a pattern, other than the
    ones [lex] handles. *)
Definition unsupported (c : ascii) : bool :=
  chr_is c "\" || chr_is c "." || chr_is c "+" || chr_is c "?" || chr_is c "(" || chr_is c ")"
  || chr_is c "[" || chr_is c "]" || chr_is c "{" || chr_is c "}" || chr_is c "|".

Fixpoint lex (src : jsstring) : option (list token) :=
  match src with
  | [] => Some []
  | c :: r =>
      if chr_is c "\" then
        match r with
        | d :: r' => if chr_is d "." then cons (TAtom (Lit d)) <$> lex r' else None
        | [] => None
        end
      else if chr_is c "[" then
        match r with
        | c1 :: c2 :: c3 :: r' =>
            if chr_is c1 "^" && chr_is c2 "/" && chr_is c3 "]"
            then cons (TAtom NotSlash) <$> lex r' else None
        | _ => None
        end
      else if chr_is c "*" then cons TStar <$> lex r
      else if chr_is c "^" then cons TBol <$> lex r
      else if chr_is c "$" then cons TEol <$> lex r
      else if unsupported c then None
      else cons (TAtom (Lit c)) <$> lex r
  end.

(** A [*] repeats the atom before it; a [*] with nothing to repeat is
    outside the fragment. *)
Fixpoint group (ts : list token) : option (list item) :=
  match ts with
  | [] => Some []
  | TAtom a :: TStar :: r => cons (Star a) <$> group r
  | TAtom a :: r => cons (Once a) <$> group r
  | TStar :: _ => None
  | TBol :: r => cons Bol <$> group r
  | TEol :: r => cons Eol <$> group r
  end.

Definition compile (src : jsstring) : option (list item) :=
  lex src ≫= group.

Definition accepts (a : atom) (c : ascii) : bool :=
  match a with
  | Lit d => bool_decide (c = d)
  | NotSlash => negb (chr_is c "/")
  end.

(** Backtracking match of [items] at the current position; [at_start]
    tells whether the position is the beginning of the subject. *)
Fixpoint run (items : list item) (at_start : bool) (s : jsstring) : bool :=
  match items with
  | [] => true
  | Bol :: r => at_start && run r at_start s
  | Eol :: r => match s with [] => run r at_start s | _ => false end
  | Once a :: r =>
      match s with
      | c :: s' => accepts a c && run r false s'
      | [] => false
      end
  | Star a :: r =>
      (fix loop (at_start : bool) (s : jsstring) {struct s} : bool :=
         run r at_start s ||
         match s with
         | c :: s' => accepts a c && loop false s'
         | [] => false
         end) at_start s
  end.

(** [test] searches a match starting at any position. *)
Fixpoint search (items : list item) (at_start : bool) (s : jsstring) : bool :=
  run items at_start s ||
  match s with
  | [] => false
  | _ :: s' => search items false s'
  end.

(** [new RegExp(source)]: the [test] method of the object built, or [None]
    when the constructor throws a SyntaxError. *)
Definition constructor : Type := jsstring -> option (jsstring -> bool).

(** The items that read alike whether a string is taken as UTF-16 code
    units or as UTF-8 bytes: one literal character, a run of characters
    other than [/], an assertion. *)
Definition plain (i : item) : bool :=
  match i with
  | Once (Lit _) | Star NotSlash | Bol | Eol => true
  | Once NotSlash | Star (Lit _) => false
  end.

(** What is assumed of the constructor in the properties about patterns:
    a source of the fragment made of such items is accepted, and [test]
    searches a match as above. *)
Definition conforms (RegExp_new : constructor) : Prop :=
  forall source items,
    compile source = Some items ->
    forallb plain items = true ->
    exists regex,
      RegExp_new source = Some regex
      /\ forall subject, regex subject = search items true subject.

(** A constructor that knows the fragment and nothing else.  It conforms,
    and serves in the examples, whose patterns all stay in the fragment;
    it is not the constructor of the runtime, which accepts more. *)
Definition reference : constructor :=
  fun source => items ← compile source; Some (search items true).

End RegExp.

(** ** Glob patterns (route.ts, matchPath) *)

(** [pattern.replace(/\*\*/g, '.*')] *)
Fixpoint replace_double_star (p : jsstring) : jsstring :=
  match p with
  | c1 :: ((c2 :: r) as t) =>
      if RegExp.chr_is c1 "*" && RegExp.chr_is c2 "*"
      then str ".*" ++ replace_double_star r
      else c1 :: replace_double_star t
  | _ => p
  end.

(** [.replace(/\*/g, '[^/]*')] *)
Definition replace_star (p : jsstring) : jsstring :=
  flat_map (fun c => if RegExp.chr_is c "*" then str "[^/]*" else [c]) p.

(** [.replace(/\./g, '\\.')] *)
Definition replace_dot (p : jsstring) : jsstring :=
  flat_map (fun c => if RegExp.chr_is c "." then str "\." else [c]) p.

Definition regexPattern (pattern : jsstring) : jsstring :=
  replace_dot (replace_star (replace_double_star pattern)).

(** The source given to [new RegExp]. *)
Definition regexSource (pattern : jsstring) : jsstring :=
  str "^" ++ regexPattern pattern ++ str "$".

Section Glob.

(** [new RegExp] *)
Variable RegExp_new : RegExp.constructor.

(** [None]: the constructor throws. *)
Definition matchPath (path pattern : jsstring) : option bool :=
  regex ← RegExp_new (regexSource pattern);
  Some (regex path).

End Glob.

(** ** Filename transliteration (filename-translator.ts) *)

(** The dictionary, in the order of the object literal (the order
    [Object.entries] enumerates).  Its keys are non-ASCII throughout, and it
    is only consulted with names that contain a non-ASCII character, so no
    inherited property of the object is ever hit. *)
Definition FILENAME_MAPPING : list (jsstring * jsstring) :=
  map (fun kv : string * string => (str kv.1, str kv.2)) [
    ("自述文件", "README");
    ("说明", "README");
    ("介绍", "Introduction");
    ("简介", "Introduction");
    ("概述", "Overview");
    ("概览", "Overview");
    ("入门", "Getting-Started");
    ("快速开始", "Quick-Start");
    ("快速入门", "Quick-Start");
    ("安装", "Installation");
    ("安装指南", "Installation-Guide");
    ("使用", "Usage");
    ("使用指南", "Usage-Guide");
    ("使用说明", "Usage-Guide");
    ("教程", "Tutorial");
    ("指南", "Guide");
    ("配置", "Configuration");
    ("配置说明", "Configuration-Guide");
    ("常见问题", "FAQ");
    ("问题", "FAQ");
    ("更新日志", "CHANGELOG");
    ("变更日志", "CHANGELOG");
    ("变更记录", "CHANGELOG");
    ("贡献", "Contributing");
    ("贡献指南", "Contributing-Guide");
    ("许可证", "LICENSE");
    ("协议", "LICENSE");
    ("作者", "Authors");
    ("维护者", "Maintainers");
    ("致谢", "Acknowledgments");
    ("鸣谢", "Acknowledgments");
    ("参考", "Reference");
    ("参考文档", "Reference");
    ("文档", "Documentation");
    ("接口", "API");
    ("接口文档", "API-Documentation");
    ("开发", "Development");
    ("开发指南", "Development-Guide");
    ("部署", "Deployment");
    ("部署指南", "Deployment-Guide");
    ("架构", "Architecture");
    ("设计", "Design");
    ("设计文档", "Design-Document");
    ("规范", "Specification");
    ("标准", "Standard");
    ("测试", "Testing");
    ("测试指南", "Testing-Guide");
    ("安全", "Security");
    ("安全指南", "Security-Guide");
    ("性能", "Performance");
    ("优化", "Optimization");
    ("示例", "Examples");
    ("案例", "Examples");
    ("样例", "Examples");
    ("附录", "Appendix");
    ("术语表", "Glossary");
    ("词汇表", "Glossary");
    ("索引", "Index");
    ("目录", "Table-of-Contents");
    ("路线图", "Roadmap");
    ("计划", "Roadmap");
    ("版本", "Version");
    ("发布", "Release");
    ("发布说明", "Release-Notes");
    ("备注", "Notes");
    ("笔记", "Notes");
    ("总结", "Summary");
    ("摘要", "Summary");
    ("背景", "Background");
    ("历史", "History");
    ("对比", "Comparison");
    ("比较", "Comparison");
    ("功能", "Features");
    ("特性", "Features");
    ("需求", "Requirements");
    ("依赖", "Dependencies");
    ("兼容性", "Compatibility");
    ("迁移", "Migration");
    ("迁移指南", "Migration-Guide");
    ("升级", "Upgrade");
    ("升级指南", "Upgrade-Guide");
    ("编程", "Programming");
    ("编程导航", "Programming-Navigation");
    ("编程学习", "Programming-Learning");
    ("学习", "Learning");
    ("学习路线", "Learning-Path");
    ("知识", "Knowledge");
    ("知识体系", "Knowledge-System");
    ("知识库", "Knowledge-Base");
    ("资源", "Resources");
    ("资源汇总", "Resource-Collection");
    ("工具", "Tools");
    ("工具推荐", "Recommended-Tools");
    ("框架", "Framework");
    ("库", "Library");
    ("项目", "Project");
    ("项目介绍", "Project-Introduction");
    ("项目说明", "Project-Description")
  ]%string.

(** [FILENAME_MAPPING[name]]: [None] is [undefined]. *)
Definition mapping_get (name : jsstring) : option jsstring :=
  snd <$> List.find (fun kv => bool_decide (kv.1 = name)) FILENAME_MAPPING.

(** A code unit outside [\x00-\x7F]. *)
Definition nonAscii (c : ascii) : bool := (128 <=? N_of_ascii c)%N.

Definition isHyphen (c : ascii) : bool := bool_decide (c = "-"%char).

(** [/[^\x00-\x7F]/.test(str)] *)
Definition containsNonAscii (s : jsstring) : bool := existsb nonAscii s.

(** [s.replace(/C+/g, '-')] for a character class [C]: every maximal run of
    characters of the class becomes one hyphen.  [in_run] tells whether the
    previous character belonged to the run being replaced. *)
Fixpoint squeeze (C : ascii -> bool) (in_run : bool) (s : jsstring) : jsstring :=
  match s with
  | [] => []
  | c :: s' =>
      if C c then
        if in_run then squeeze C true s' else "-"%char :: squeeze C true s'
      else c :: squeeze C false s'
  end.

Fixpoint dropLeading (C : ascii -> bool) (s : jsstring) : jsstring :=
  match s with
  | c :: s' => if C c then dropLeading C s' else s
  | [] => []
  end.

(** [s.replace(/^-+|-+$/g, '')] *)
Definition trimHyphens (s : jsstring) : jsstring :=
  reverse (dropLeading isHyphen (reverse (dropLeading isHyphen s))).

(** [.replace(/[^\x00-\x7F]+/g, '-').replace(/^-+|-+$/g, '').replace(/-+/g, '-')] *)
Definition stripNonAscii (s : jsstring) : jsstring :=
  squeeze isHyphen false (trimHyphens (squeeze nonAscii false s)).

(** [a || b] on strings. *)
Definition orElse (a b : jsstring) : jsstring := if JS.truthy a then a else b.

(** The name and the extension that translateFilename separates. *)
Definition nameWithoutExt (filename : jsstring) : jsstring :=
  let lastDotIndex := JS.lastIndexOf filename "." in
  if 0 <? lastDotIndex then JS.substring filename 0 lastDotIndex else filename.

Definition extension (filename : jsstring) : jsstring :=
  let lastDotIndex := JS.lastIndexOf filename "." in
  if 0 <? lastDotIndex then JS.substringFrom filename lastDotIndex else [].

(** The loop over [Object.entries(FILENAME_MAPPING)]: the first key that
    occurs in the name is substituted, once. *)
Definition partialMatch (name : jsstring) : option jsstring :=
  (fun kv : jsstring * jsstring => JS.replace name kv.1 kv.2)
    <$> List.find (fun kv => JS.includes name kv.1) FILENAME_MAPPING.

(** The fallback of translateFilename: non-ASCII runs become hyphens, and a
    name with nothing left becomes [document]. *)
Definition fallbackName (name : jsstring) : jsstring :=
  let stripped := stripNonAscii name in
  if negb (JS.truthy stripped) || bool_decide (stripped = str "-")
  then str "document" else stripped.

(** The value of [translatedName] when the new path is built. *)
Definition translateName (name : jsstring) : jsstring :=
  let translatedName :=
    match mapping_get name with
    | Some t => if JS.truthy t then Some t else partialMatch name
    | None => partialMatch name
    end in
  match translatedName with
  | Some t =>
      if negb (JS.truthy t) || containsNonAscii t then fallbackName name else t
  | None => fallbackName name
  end.

(** The directory branch of the final [parts.map]. *)
Definition translateDirectory (part : jsstring) : jsstring :=
  if containsNonAscii part then
    orElse
      (match mapping_get part with
       | Some t => orElse t (stripNonAscii part)
       | None => stripNonAscii part
       end)
      (str "folder")
  else part.

Definition translateFilename (originalPath : jsstring) : jsstring :=
  let parts := JS.split "/" originalPath in
  let filename := List.last parts [] in
  if negb (containsNonAscii (nameWithoutExt filename)) then originalPath
  else
    let newFilename := translateName (nameWithoutExt filename) ++ extension filename in
    JS.join (str "/")
      (imap (fun index part =>
               if bool_decide (index = (length parts - 1)%nat) then newFilename
               else translateDirectory part)
            parts).

Definition getTranslatedPath (sourcePath targetLang baseLanguage : jsstring) : jsstring :=
  let translatedPath :=
    if bool_decide (targetLang = baseLanguage) then sourcePath
    else translateFilename sourcePath in
  str "translations/" ++ targetLang ++ str "/" ++ translatedPath.

(** ** Webhook signature (webhook.ts) *)

(** [timingSafeEqual(Buffer.from(a), Buffer.from(b))]: throws ([None]) when
    the byte lengths differ. *)
Definition timingSafeEqual (a b : jsstring) : option bool :=
  if bool_decide (length a = length b) then Some (bool_decide (a = b)) else None.

Section Webhook.

(** [createHmac('sha256', secret).update(payload).digest('hex')] *)
Variable hmac_sha256_hex : jsstring -> jsstring -> jsstring.
(** [process.env.GITHUB_WEBHOOK_SECRET] *)
Variable GITHUB_WEBHOOK_SECRET : option jsstring.

Definition verifyWebhookSignature (payload signature secret : jsstring) : bool :=
  if negb (JS.truthy signature) || negb (JS.startsWith signature (str "sha256="))
  then false
  else
    let digest := str "sha256=" ++ hmac_sha256_hex secret payload in
    match timingSafeEqual signature digest with
    | Some b => b
    | None => false
    end.

(** [None]: the secret is not configured and getWebhookSecret throws. *)
Definition getWebhookSecret : option jsstring :=
  match GITHUB_WEBHOOK_SECRET with
  | Some secret => if JS.truthy secret then Some secret else None
  | None => None
  end.

End Webhook.

(** ** Directories the tree walkers skip (constants.ts) *)

Definition SKIP_DIRECTORIES : list jsstring :=
  map str ["node_modules"; ".git"; ".github"; "dist"; "build"; ".next";
           "vendor"; "__pycache__"; "translations"]%string.

(** ** The path filter (route.ts, filterFilesToTranslate) *)

Section PathFilter.

(** [new RegExp] *)
Variable RegExp_new : RegExp.constructor.

(** [patterns.some(pattern => matchPath(file, pattern))]: stops at the first
    match; [None] when the constructor throws on a pattern met on the
    way. *)
Fixpoint somePattern (file : jsstring) (patterns : list jsstring) : option bool :=
  match patterns with
  | [] => Some false
  | pattern :: rest =>
      b ← matchPath RegExp_new file pattern;
      if b : bool then Some true else somePattern file rest
  end.

(** The predicate passed to [files.filter]. *)
Definition keepFile (includePaths excludePaths : option (list jsstring))
    (file : jsstring) : option bool :=
  if negb (JS.endsWith file (str ".md")) && negb (JS.endsWith file (str ".mdx"))
  then Some false
  else if JS.startsWith file (str "translations/") then Some false
  else
    excluded ← match excludePaths with
               | Some patterns => somePattern file patterns
               | None => Some false
               end;
    if excluded : bool then Some false
    else match includePaths with
         | Some ((_ :: _) as patterns) => somePattern file patterns
         | _ => Some true
         end.

(** [files.filter(...)], threading the exception of the predicate. *)
Fixpoint filterM (keep : jsstring -> option bool) (files : list jsstring)
    : option (list jsstring) :=
  match files with
  | [] => Some []
  | file :: rest =>
      b ← keep file;
      kept ← filterM keep rest;
      Some (if b : bool then file :: kept else kept)
  end.

Definition filterFilesToTranslate (files : list jsstring)
    (includePaths excludePaths : option (list jsstring)) : option (list jsstring) :=
  filterM (keepFile includePaths excludePaths) files.

End PathFilter.

(** ** The webhook handler (route.ts) *)

(** The payload of a push notification.  GitHub sends a message with every
    commit; the handler's interface does not declare it and the handler
    never reads it. *)
Record Commit := {
  commit_id : jsstring;
  commit_message : jsstring;
  added : list jsstring;
  modified : list jsstring;
  removed : list jsstring;
}.

Record HeadCommit := {
  head_id : jsstring;
  head_message : jsstring;
}.

Record Repository := {
  github_id : Z;
  full_name : jsstring;
  default_branch : jsstring;
}.

Record PushEvent := {
  ref : jsstring;
  repository : Repository;
  commits : list Commit;
  head_commit : option HeadCommit;
  sender_login : jsstring;
}.

(** Rows of the task store the handler reads and writes. *)
Record RepoConfig := {
  autoTranslate : bool;
  includePaths : option (list jsstring);
  excludePaths : option (list jsstring);
  targetLanguages : option (list jsstring);
}.

Record RepositoryRow := {
  repo_id : jsstring;
  repo_userId : jsstring;
  config : option RepoConfig;
}.

Inductive TaskType := FULL | INCREMENTAL.

Record TaskRow := {
  task_id : jsstring;
  task_userId : jsstring;
  task_repositoryId : jsstring;
  task_targetLanguages : list jsstring;
  task_type : TaskType;
}.

(** What [translationQueue.add] receives. *)
Record Job := {
  taskId : jsstring;
  userId : jsstring;
  repositoryId : jsstring;
  job_targetLanguages : list jsstring;
  job_type : TaskType;
  changedFiles : list jsstring;
}.

(** A request: the three headers the handler reads, the body, and the two
    readings of [Date.now()] made while it is handled (by
    cleanupDeliveryCache, then when the delivery is recorded). *)
Record Request := {
  x_github_delivery : option jsstring;
  x_hub_signature_256 : option jsstring;
  x_github_event : option jsstring;
  body : jsstring;
  now_cleanup : Z;
  now_record : Z;
}.

Inductive Response :=
| DuplicateDeliveryIgnored
| MissingSignature
| WebhookNotConfigured
| InvalidSignature
| EventIgnored
| NonDefaultBranchIgnored
| SelfCommitIgnored
| RepositoryNotImported
| RepositoryNotConfigured
| AutoTranslateDisabled
| NoTranslatableFilesChanged
| NoTargetLanguagesConfigured
| TranslationTaskCreated (task : jsstring) (files : list jsstring)
| InternalServerError.

(** The HTTP status of each answer ([NextResponse.json] answers 200 unless
    told otherwise). *)
Definition status (r : Response) : Z :=
  match r with
  | MissingSignature | InvalidSignature => 401
  | WebhookNotConfigured | InternalServerError => 500
  | _ => 200
  end.

(** Modelled from the spec: the Job Queue, [translationQueue] of
    [@/lib/queue/local-queue], a module that is not under src/ (the
    handler only calls its [add]).  The design document, 4.5: "add(job)
    enqueues and returns immediately; jobs execute strictly one at a time
    in FIFO submission order".  Submission alone is modelled: the queue is
    the sequence of the jobs submitted so far, in submission order.  The
    dispatch of a job to the processor and its execution are not
    modelled, so this is what has been handed to the queue, not what is
    still waiting in it. *)
Definition JobQueue : Type := list Job.

(** Modelled from the spec: [translationQueue.add(job)], which enqueues
    and returns immediately. *)
Definition translationQueue_add (q : JobQueue) (job : Job) : JobQueue := q ++ [job].

(** The state the handler acts on: the module-level delivery cache, the
    task table and the jobs submitted to the translation queue. *)
Record World := {
  processedDeliveries : gmap jsstring Z;
  tasks : list TaskRow;
  queue : JobQueue;
}.

Definition DELIVERY_CACHE_TTL : Z := 60 * 1000.

(** cleanupDeliveryCache: every entry with [now > expireAt] is deleted. *)
Definition cleanupDeliveryCache (now : Z) (cache : gmap jsstring Z)
    : gmap jsstring Z :=
  filter (fun entry : jsstring * Z => ¬ (now > entry.2)) cache.

(** Step 0 of POST.  [inl cache]: the request is a duplicate and the handler
    returns; [inr cache]: it goes on.  In both cases [cache] is the cache
    left behind. *)
Definition deduplicate (cache : gmap jsstring Z) (req : Request)
    : gmap jsstring Z + gmap jsstring Z :=
  match x_github_delivery req with
  | Some deliveryId =>
      if JS.truthy deliveryId then
        let swept := cleanupDeliveryCache (now_cleanup req) cache in
        match swept !! deliveryId with
        | Some _ => inl swept
        | None => inr (<[deliveryId := now_record req + DELIVERY_CACHE_TTL]> swept)
        end
      else inr cache
  | None => inr cache
  end.

(** A JavaScript [Set] of strings: insertion order, no duplicates. *)
Definition set_add (s : list jsstring) (x : jsstring) : list jsstring :=
  if bool_decide (x ∈ s) then s else s ++ [x].

(** Step 10 of POST. *)
Definition collectChangedFiles (cs : list Commit) : list jsstring :=
  foldl (fun acc commit => foldl set_add (foldl set_add acc (added commit)) (modified commit))
        [] cs.

Definition SELF_COMMIT_MARKER : jsstring := str "[GitHub Global]".

Section Handler.

(** [new RegExp] *)
Variable RegExp_new : RegExp.constructor.
Variable hmac_sha256_hex : jsstring -> jsstring -> jsstring.
Variable GITHUB_WEBHOOK_SECRET : option jsstring.
(** [JSON.parse(payload)] as a push event; [None] when it throws or the
    value has not the shape the handler destructures. *)
Variable JSON_parse : jsstring -> option PushEvent.
(** [prisma.repository.findFirst({ where: { githubRepoId } })] *)
Variable findRepository : Z -> option RepositoryRow.
(** The identifier the store gives to a new task. *)
Variable newTaskId : list TaskRow -> jsstring.

(** Steps 2 to 12: either the answer of an early return, or the
    repository, the files and the languages of the task to create. *)
Definition detect (req : Request)
    : Response + (RepositoryRow * list jsstring * list jsstring) :=
  match x_hub_signature_256 req with
  | None => inl MissingSignature
  | Some signature =>
  if negb (JS.truthy signature) then inl MissingSignature else
  match getWebhookSecret GITHUB_WEBHOOK_SECRET with
  | None => inl WebhookNotConfigured
  | Some secret =>
  if negb (verifyWebhookSignature hmac_sha256_hex (body req) signature secret)
  then inl InvalidSignature else
  if negb (bool_decide (x_github_event req = Some (str "push")))
  then inl EventIgnored else
  match JSON_parse (body req) with
  | None => inl InternalServerError
  | Some data =>
  let branchName := JS.replace (ref data) (str "refs/heads/") [] in
  if negb (bool_decide (branchName = default_branch (repository data)))
  then inl NonDefaultBranchIgnored else
  if match head_commit data with
     | Some head => JS.startsWith (head_message head) SELF_COMMIT_MARKER
     | None => false
     end
  then inl SelfCommitIgnored else
  match findRepository (github_id (repository data)) with
  | None => inl RepositoryNotImported
  | Some repo =>
  match config repo with
  | None => inl RepositoryNotConfigured
  | Some cfg =>
  if negb (autoTranslate cfg) then inl AutoTranslateDisabled else
  let changed := collectChangedFiles (commits data) in
  match filterFilesToTranslate RegExp_new changed (includePaths cfg) (excludePaths cfg) with
  | None => inl InternalServerError
  | Some [] => inl NoTranslatableFilesChanged
  | Some filesToTranslate =>
  match targetLanguages cfg with
  | None | Some [] => inl NoTargetLanguagesConfigured
  | Some languages => inr (repo, filesToTranslate, languages)
  end end end end end end end.

Definition POST (w : World) (req : Request) : Response * World :=
  match deduplicate (processedDeliveries w) req with
  | inl cache =>
      (DuplicateDeliveryIgnored,
       {| processedDeliveries := cache; tasks := tasks w; queue := queue w |})
  | inr cache =>
      match detect req with
      | inl response =>
          (response,
           {| processedDeliveries := cache; tasks := tasks w; queue := queue w |})
      | inr (repo, filesToTranslate, languages) =>
          let task := {| task_id := newTaskId (tasks w);
                         task_userId := repo_userId repo;
                         task_repositoryId := repo_id repo;
                         task_targetLanguages := languages;
                         task_type := INCREMENTAL |} in
          let job := {| taskId := task_id task;
                        userId := repo_userId repo;
                        repositoryId := repo_id repo;
                        job_targetLanguages := languages;
                        job_type := INCREMENTAL;
                        changedFiles := filesToTranslate |} in
          (TranslationTaskCreated (task_id task) filesToTranslate,
           {| processedDeliveries := cache;
              tasks := tasks w ++ [task];
              queue := translationQueue_add (queue w) job |})
      end
  end.

(** A sequence of requests handled one after the other. *)
Definition POST_all (w : World) (reqs : list Request) : World :=
  foldl (fun w req => (POST w req).2) w reqs.

End Handler.

(** ** The file tree (operations.ts, client.ts, the configuration page) *)

(** An entry of a directory listing of the contents API.  A directory
    carries what the request for its own path answers: [Some] listing, or
    [None] when the request fails.  [ItemOther] stands for the entries
    that are neither files nor directories (symbolic links, submodules). *)
Local Unset Elimination Schemes.

Inductive Item :=
| ItemFile (name path : jsstring)
| ItemDir (name path : jsstring) (listing : option (list Item))
| ItemOther (name path : jsstring).

Inductive NodeType := NodeFile | NodeDir.

(** FileTreeNode; [children] and [isMarkdown] are optional. *)
Inductive FileTreeNode :=
| Node (name path : jsstring) (type : NodeType)
       (children : option (list FileTreeNode)) (isMarkdown : option bool).

Local Set Elimination Schemes.

Definition node_name (n : FileTreeNode) : jsstring := let 'Node x _ _ _ _ := n in x.
Definition node_path (n : FileTreeNode) : jsstring := let 'Node _ x _ _ _ := n in x.
Definition node_type (n : FileTreeNode) : NodeType := let 'Node _ _ x _ _ := n in x.
Definition node_children (n : FileTreeNode) : option (list FileTreeNode) :=
  let 'Node _ _ _ x _ := n in x.
Definition node_isMarkdown (n : FileTreeNode) : option bool :=
  let 'Node _ _ _ _ x := n in x.

(** [name.endsWith('.md') || name.endsWith('.mdx')] *)
Definition isMarkdownName (name : jsstring) : bool :=
  JS.endsWith name (str ".md") || JS.endsWith name (str ".mdx").

(** [SKIP_DIRECTORIES.includes(name)] *)
Definition skipped (name : jsstring) : bool := bool_decide (name ∈ SKIP_DIRECTORIES).

(** getFileTree of operations.ts, on the listing of the path asked for. *)
Module OperationsTs.
Section Sorted.

(** [a.localeCompare(b)]: negative, zero or positive; a collation, hence a
    consistent ordering, for which every stable sort gives one result. *)
Variable localeCompare : jsstring -> jsstring -> Z.

(** The comparator given to [result.sort]: directories first, then by
    name. *)
Definition compareNodes (a b : FileTreeNode) : Z :=
  match node_type a, node_type b with
  | NodeDir, NodeFile => -1
  | NodeFile, NodeDir => 1
  | _, _ => localeCompare (node_name a) (node_name b)
  end.

(** [Array.prototype.sort] is stable: an element goes after the elements
    before it that do not compare greater. *)
Fixpoint insertNode (x : FileTreeNode) (sorted : list FileTreeNode) : list FileTreeNode :=
  match sorted with
  | [] => [x]
  | y :: rest =>
      if compareNodes x y <? 0 then x :: sorted else y :: insertNode x rest
  end.

Definition sortNodes (nodes : list FileTreeNode) : list FileTreeNode :=
  foldl (fun sorted x => insertNode x sorted) [] nodes.

Fixpoint nodeOf (item : Item) : FileTreeNode :=
  match item with
  | ItemFile name path => Node name path NodeFile None (Some (isMarkdownName name))
  | ItemOther name path => Node name path NodeFile None None
  | ItemDir name path listing =>
      if skipped name then Node name path NodeDir None None
      else
        Node name path NodeDir
             (Some match listing with
                   | Some items => sortNodes (map nodeOf items)
                   | None => []
                   end)
             None
  end.

Definition getFileTree (items : list Item) : list FileTreeNode :=
  sortNodes (map nodeOf items).

End Sorted.
End OperationsTs.

(** getFileTree of client.ts, with its [markdownOnly] mode. *)
Module ClientTs.

(** The node of an item, or [None] for [null]. *)
Fixpoint nodeOf (markdownOnly : bool) (item : Item) : option FileTreeNode :=
  match item with
  | ItemFile name path =>
      let isMarkdown := isMarkdownName name in
      if markdownOnly && negb isMarkdown then None
      else Some (Node name path NodeFile None (Some isMarkdown))
  | ItemDir name path listing =>
      if skipped name then None
      else
        match listing with
        | Some items =>
            let children := omap (nodeOf markdownOnly) items in
            if markdownOnly && bool_decide (length children = 0%nat) then None
            else Some (Node name path NodeDir (Some children) None)
        | None => None
        end
  | ItemOther _ _ => None
  end.

Definition getFileTree (markdownOnly : bool) (items : list Item) : list FileTreeNode :=
  omap (nodeOf markdownOnly) items.

End ClientTs.

(** The configuration page (RepoConfigPage). *)
Module ConfigPage.

(** getAllMarkdownFiles *)
Fixpoint markdownFilesOf (node : FileTreeNode) : list jsstring :=
  match node with
  | Node _ path NodeFile _ (Some true) => [path]
  | Node _ _ NodeDir (Some children) _ => flat_map markdownFilesOf children
  | _ => []
  end.

Definition getAllMarkdownFiles (nodes : list FileTreeNode) : list jsstring :=
  flat_map markdownFilesOf nodes.

(** handleFileToggle, as the new value of [selectedFiles]. *)
Definition handleFileToggle (selectedFiles : list jsstring) (path : jsstring)
    : list jsstring :=
  if bool_decide (path ∈ selectedFiles)
  then filter (fun file => file <> path) selectedFiles
  else selectedFiles ++ [path].

(** handleLanguageToggle, as the new value of [targetLanguages]. *)
Definition handleLanguageToggle (targetLanguages : list jsstring) (code : jsstring)
    : list jsstring :=
  if bool_decide (code ∈ targetLanguages)
  then filter (fun lang => lang <> code) targetLanguages
  else targetLanguages ++ [code].

(** A loop whose body may return: the value of the first element for
    which it does, or the value after the loop. *)
Fixpoint firstReturn {A B : Type} (body : A -> option B) (after : B) (l : list A) : B :=
  match l with
  | [] => after
  | x :: rest =>
      match body x with
      | Some result => result
      | None => firstReturn body after rest
      end
  end.

(** The body of the loop of getMarkdownFilesInDir: [Some] files when it
    returns at this node, [None] when the loop goes on. *)
Fixpoint markdownFilesInDirAt (dirPath : jsstring) (node : FileTreeNode)
    : option (list jsstring) :=
  match node with
  | Node _ path NodeDir (Some children) _ =>
      if bool_decide (path = dirPath) then Some (getAllMarkdownFiles children)
      else
        let result := firstReturn (markdownFilesInDirAt dirPath) [] children in
        if bool_decide (0 < length result)%nat then Some result else None
  | _ => None
  end.

Definition getMarkdownFilesInDir (nodes : list FileTreeNode) (dirPath : jsstring)
    : list jsstring :=
  firstReturn (markdownFilesInDirAt dirPath) [] nodes.

(** handleDirSelect, as the new value of [selectedFiles]. *)
Definition handleDirSelect (fileTree : list FileTreeNode) (selectedFiles : list jsstring)
    (dirPath : jsstring) : list jsstring :=
  let filesInDir := getMarkdownFilesInDir fileTree dirPath in
  if bool_decide (length filesInDir = 0%nat) then selectedFiles
  else if forallb (fun file => bool_decide (file ∈ selectedFiles)) filesInDir
  then filter (fun file => file ∉ filesInDir) selectedFiles
  else foldl set_add [] (selectedFiles ++ filesInDir).

Inductive SelectState := SelectAll | SelectSome | SelectNone.

(** getDirSelectState *)
Definition getDirSelectState (fileTree : list FileTreeNode) (selectedFiles : list jsstring)
    (dirPath : jsstring) : SelectState :=
  let filesInDir := getMarkdownFilesInDir fileTree dirPath in
  if bool_decide (length filesInDir = 0%nat) then SelectNone
  else
    let selectedCount := length (filter (fun file => file ∈ selectedFiles) filesInDir) in
    if bool_decide (selectedCount = 0%nat) then SelectNone
    else if bool_decide (selectedCount = length filesInDir) then SelectAll
    else SelectSome.

End ConfigPage.

(** ** Webhook management (webhook.ts) *)

(** A promise: resolved with a value, or rejected with an error that may
    carry an HTTP status. *)
Inductive Outcome (A : Type) :=
| Resolved (value : A)
| Rejected (status : option Z) (message : jsstring).
Arguments Resolved {A} value.
Arguments Rejected {A} status message.

(** deleteWebhook, given the answer of [octokit.rest.repos.deleteWebhook]:
    an error with status 404 is swallowed, any other is thrown again. *)
Definition deleteWebhook (answer : Outcome unit) : Outcome unit :=
  match answer with
  | Resolved _ => Resolved tt
  | Rejected status message =>
      if bool_decide (status = Some 404) then Resolved tt
      else Rejected status message
  end.

(** getWebhookUrl, given [process.env.NEXTAUTH_URL]. *)
Definition getWebhookUrl (NEXTAUTH_URL : option jsstring) : jsstring :=
  let baseUrl := match NEXTAUTH_URL with
                 | Some url => if JS.truthy url then url else str "http://localhost:3123"
                 | None => str "http://localhost:3123"
                 end in
  baseUrl ++ str "/api/webhooks/github".

(** ** The configuration route (repos/[id]/config/route.ts, PUT) *)

Module ConfigRoute.

(** A row of the configuration table. *)
Record RepoConfig := {
  baseLanguage : jsstring;
  targetLanguages : list jsstring;
  includePaths : option (list jsstring);
  excludePaths : option (list jsstring);
  aiModel : option jsstring;
  autoTranslate : bool;
  webhookId : option Z;
}.

Record User := {
  installationId : option Z;
  accessToken : option jsstring;
}.

(** A row of the repository table, with its user. *)
Record Repository := {
  userId : jsstring;
  owner : jsstring;
  name : jsstring;
  fullName : jsstring;
  user : User;
}.

(** UpdateRepoConfigRequest: every field is optional ([None]: undefined). *)
Record UpdateRepoConfigRequest := {
  body_baseLanguage : option jsstring;
  body_targetLanguages : option (list jsstring);
  body_includePaths : option (list jsstring);
  body_excludePaths : option (list jsstring);
  body_aiModel : option jsstring;
  body_autoTranslate : option bool;
}.

(** A request: the identifier of the signed-in user, the [id] of the path,
    the parsed body ([None]: [request.json()] throws), and what GitHub
    answers while the request is handled. *)
Record Request := {
  session_user_id : option jsstring;
  id : jsstring;
  json : option UpdateRepoConfigRequest;
  installation_octokit : bool;
  createWebhook_answer : Outcome Z;
  deleteWebhook_answer : Outcome unit;
}.

Inductive Octokit :=
| InstallationOctokit (installation : Z)
| UserOctokit (token : jsstring).

(** The calls made to GitHub.  A webhook is created for the [push] event. *)
Inductive GitHubCall :=
| CreateWebhook (octokit : Octokit) (owner repo url secret : jsstring)
| DeleteWebhook (octokit : Octokit) (owner repo : jsstring) (hook_id : Z).

Inductive Response :=
| Unauthorized
| RepositoryNotFound
| GitHubAuthenticationFailed
| NoGitHubAuthentication
| WebhookAlreadyExists
| FailedToCreateWebhook (message : jsstring)
| Success (config : RepoConfig)
| InternalServerError.

Definition status (r : Response) : Z :=
  match r with
  | Unauthorized | GitHubAuthenticationFailed | NoGitHubAuthentication => 401
  | RepositoryNotFound => 404
  | WebhookAlreadyExists => 422
  | FailedToCreateWebhook _ | InternalServerError => 500
  | Success _ => 200
  end.

(** The configuration table, by repository, and the calls made to GitHub so
    far. *)
Record World := {
  configs : gmap jsstring RepoConfig;
  github : list GitHubCall;
}.

(** Truthiness of an optional string and of an optional number. *)
Definition truthyString (s : option jsstring) : option jsstring :=
  match s with
  | Some value => if JS.truthy value then Some value else None
  | None => None
  end.

Definition truthyNumber (n : option Z) : option Z :=
  match n with
  | Some value => if bool_decide (value = 0) then None else Some value
  | None => None
  end.

(** [repository.config?.autoTranslate ?? false] *)
Definition currentAutoTranslate (config : option RepoConfig) : bool :=
  match config with
  | Some current => autoTranslate current
  | None => false
  end.

Section Route.

Variable NEXTAUTH_URL : option jsstring.
Variable GITHUB_WEBHOOK_SECRET : option jsstring.
(** The repository table, by [id]. *)
Variable repositories : jsstring -> option Repository.
(** [decrypt(accessToken)]; [None] when it throws. *)
Variable decrypt : jsstring -> option jsstring.

(** [prisma.repository.findFirst({ where: { id, userId } })] *)
Definition findRepository (id userId : jsstring) : option Repository :=
  match repositories id with
  | Some repository =>
      if bool_decide (ConfigRoute.userId repository = userId) then Some repository else None
  | None => None
  end.

Definition userOctokit (token : jsstring) : Response + Octokit :=
  match decrypt token with
  | Some accessToken => inr (UserOctokit accessToken)
  | None => inl InternalServerError
  end.

(** The client used to reach GitHub, or the answer returned instead. *)
Definition getOctokit (req : Request) (u : User) : Response + Octokit :=
  match truthyNumber (installationId u) with
  | Some installation =>
      if installation_octokit req then inr (InstallationOctokit installation)
      else match truthyString (accessToken u) with
           | Some token => userOctokit token
           | None => inl GitHubAuthenticationFailed
           end
  | None =>
      match truthyString (accessToken u) with
      | Some token => userOctokit token
      | None => inl NoGitHubAuthentication
      end
  end.

(** The part of PUT that handles a change of the automatic translation
    switch: either the answer returned, or the new value of the variable
    [webhookId]; in both cases with the calls made to GitHub.  The
    variable is [None] when undefined and [Some None] when null. *)
Definition switchWebhook (req : Request) (repository : Repository)
    (config : option RepoConfig) (autoTranslate : bool)
    : (Response + option (option Z)) * list GitHubCall :=
  let webhookId := option_map ConfigRoute.webhookId config in
  let currentAutoTranslate := currentAutoTranslate config in
  match getOctokit req (user repository) with
  | inl response => (inl response, [])
  | inr octokit =>
      if autoTranslate && negb currentAutoTranslate then
        match getWebhookSecret GITHUB_WEBHOOK_SECRET with
        | None =>
            (inl (FailedToCreateWebhook (str "GITHUB_WEBHOOK_SECRET not configured")), [])
        | Some webhookSecret =>
            let call := CreateWebhook octokit (owner repository) (name repository)
                                      (getWebhookUrl NEXTAUTH_URL) webhookSecret in
            match createWebhook_answer req with
            | Resolved hook => (inr (Some (Some hook)), [call])
            | Rejected status message =>
                if bool_decide (status = Some 422) then (inl WebhookAlreadyExists, [call])
                else (inl (FailedToCreateWebhook message), [call])
            end
        end
      else
        match negb autoTranslate && currentAutoTranslate, truthyNumber (mjoin webhookId) with
        | true, Some hook =>
            let call := DeleteWebhook octokit (owner repository) (name repository) hook in
            match deleteWebhook (deleteWebhook_answer req) with
            | Resolved _ => (inr (Some None), [call])
            | Rejected _ _ => (inr webhookId, [call])
            end
        | _, _ => (inr webhookId, [])
        end
  end.

(** [prisma.repoConfig.upsert]: the row updated when there is one, created
    otherwise. *)
Definition upsert (config : option RepoConfig) (body : UpdateRepoConfigRequest)
    (webhookId : option (option Z)) : RepoConfig :=
  match config with
  | Some current =>
      {| baseLanguage := default (baseLanguage current) (truthyString (body_baseLanguage body));
         targetLanguages := default (targetLanguages current) (body_targetLanguages body);
         includePaths := match body_includePaths body with
                         | Some paths => Some paths
                         | None => includePaths current
                         end;
         excludePaths := match body_excludePaths body with
                         | Some paths => Some paths
                         | None => excludePaths current
                         end;
         aiModel := match body_aiModel body with
                    | Some model => Some model
                    | None => aiModel current
                    end;
         autoTranslate := default (autoTranslate current) (body_autoTranslate body);
         webhookId := default (ConfigRoute.webhookId current) webhookId |}
  | None =>
      {| baseLanguage := default (str "zh-CN") (truthyString (body_baseLanguage body));
         targetLanguages := default [str "en"] (body_targetLanguages body);
         includePaths := body_includePaths body;
         excludePaths := body_excludePaths body;
         aiModel := truthyString (body_aiModel body);
         autoTranslate := default false (body_autoTranslate body);
         webhookId := truthyNumber (mjoin webhookId) |}
  end.

Definition PUT (w : World) (req : Request) : Response * World :=
  match truthyString (session_user_id req) with
  | None => (Unauthorized, w)
  | Some sessionUserId =>
  match findRepository (id req) sessionUserId with
  | None => (RepositoryNotFound, w)
  | Some repository =>
  let config := configs w !! id req in
  match json req with
  | None => (InternalServerError, w)
  | Some body =>
  let switched :=
    match body_autoTranslate body with
    | Some autoTranslate => switchWebhook req repository config autoTranslate
    | None => (inr (option_map ConfigRoute.webhookId config), [])
    end in
  match switched with
  | (inl response, calls) =>
      (response, {| configs := configs w; github := github w ++ calls |})
  | (inr webhookId, calls) =>
      let saved := upsert config body webhookId in
      (Success saved,
       {| configs := <[id req := saved]> (configs w); github := github w ++ calls |})
  end end end end.

(** A sequence of requests handled one after the other. *)
Definition PUT_all (w : World) (reqs : list Request) : World :=
  foldl (fun w req => (PUT w req).2) w reqs.

End Route.

End ConfigRoute.

(** ** Concrete deployments used in the examples below *)

Module Scenario.

(** A stand-in for the HMAC: the handler only compares its result with
    the signature header, so any function serves in an example. *)
Definition hmac (secret payload : jsstring) : jsstring :=
  str "6d61633a" ++ secret ++ payload.

Definition secret : jsstring := str "s3cret".

Definition repo_config : RepoConfig :=
  {| autoTranslate := true; includePaths := None; excludePaths := None;
     targetLanguages := Some [str "en"; str "ja"] |}.

Definition find (id : Z) : option RepositoryRow :=
  if bool_decide (id = 42)
  then Some {| repo_id := str "repo-1"; repo_userId := str "user-1";
               config := Some repo_config |}
  else None.

Definition newTaskId (ts : list TaskRow) : jsstring :=
  str "task-" ++ replicate (length ts) "i"%char.

Definition push (cs : list Commit) (head : option HeadCommit) : PushEvent :=
  {| ref := str "refs/heads/main";
     repository := {| github_id := 42; full_name := str "octo/docs";
                      default_branch := str "main" |};
     commits := cs; head_commit := head; sender_login := str "octocat" |}.

(** A push notification, signed or not, received at time [now]. *)
Definition request (delivery : string) (signed : bool) (payload : string) (now : Z)
    : Request :=
  {| x_github_delivery := Some (str delivery);
     x_hub_signature_256 :=
       if signed then Some (str "sha256=" ++ hmac secret (str payload)) else None;
     x_github_event := Some (str "push");
     body := str payload;
     now_cleanup := now; now_record := now |}.

Definition empty : World :=
  {| processedDeliveries := ∅; tasks := []; queue := [] |}.

(** Scenario A: one commit adds a document and a file of node_modules. *)
Definition pushA : PushEvent :=
  push [ {| commit_id := str "c1"; commit_message := str "Add docs";
            added := [str "docs/介绍.md"; str "node_modules/x.md"];
            modified := []; removed := [] |} ]
       (Some {| head_id := str "c1"; head_message := str "Add docs" |}).

(** A push whose first commit carries the marker and whose head commit
    does not. *)
Definition pushM : PushEvent :=
  push [ {| commit_id := str "c1";
            commit_message := str "[GitHub Global] Add translations";
            added := [str "docs/a.md"]; modified := []; removed := [] |};
         {| commit_id := str "c2"; commit_message := str "Fix typo";
            added := []; modified := [str "README.md"]; removed := [] |} ]
       (Some {| head_id := str "c2"; head_message := str "Fix typo" |}).

(** A push whose head commit carries the marker. *)
Definition pushS : PushEvent :=
  push [ {| commit_id := str "c1"; commit_message := str "Fix typo";
            added := [str "docs/a.md"]; modified := []; removed := [] |};
         {| commit_id := str "c2";
            commit_message := str "[GitHub Global] Add translations";
            added := []; modified := [str "README.md"]; removed := [] |} ]
       (Some {| head_id := str "c2";
                head_message := str "[GitHub Global] Add translations" |}).

Definition parse (payload : jsstring) : option PushEvent :=
  if bool_decide (payload = str "payload A") then Some pushA
  else if bool_decide (payload = str "payload M") then Some pushM
  else if bool_decide (payload = str "payload S") then Some pushS
  else None.

(** The listing of a repository: a document at the root, a manifest, a
    dependency directory, a documentation directory with an image
    directory inside, a directory whose listing fails, and a symbolic
    link. *)
Definition listing : list Item :=
  [ItemFile (str "README.md") (str "README.md");
   ItemFile (str "package.json") (str "package.json");
   ItemDir (str "node_modules") (str "node_modules")
           (Some [ItemFile (str "x.md") (str "node_modules/x.md")]);
   ItemDir (str "docs") (str "docs")
           (Some [ItemFile (str "setup.md") (str "docs/setup.md");
                  ItemFile (str "guide.mdx") (str "docs/guide.mdx");
                  ItemFile (str "logo.png") (str "docs/logo.png");
                  ItemDir (str "img") (str "docs/img")
                          (Some [ItemFile (str "a.png") (str "docs/img/a.png")])]);
   ItemDir (str "private") (str "private") None;
   ItemOther (str "latest") (str "latest")].

(** The repository table of the configuration route, and a request that
    saves the selection of the configuration page. *)
Definition repositories (id : jsstring) : option ConfigRoute.Repository :=
  if bool_decide (id = str "repo-1")
  then Some {| ConfigRoute.userId := str "user-1";
               ConfigRoute.owner := str "octo";
               ConfigRoute.name := str "docs";
               ConfigRoute.fullName := str "octo/docs";
               ConfigRoute.user := {| ConfigRoute.installationId := Some 7;
                                      ConfigRoute.accessToken := None |} |}
  else None.

Definition save (autoTranslate : bool) : ConfigRoute.Request :=
  {| ConfigRoute.session_user_id := Some (str "user-1");
     ConfigRoute.id := str "repo-1";
     ConfigRoute.json :=
       Some {| ConfigRoute.body_baseLanguage := Some (str "zh-CN");
               ConfigRoute.body_targetLanguages := Some [str "en"; str "ja"];
               ConfigRoute.body_includePaths := Some [str "README.md"; str "docs/setup.md"];
               ConfigRoute.body_excludePaths := None;
               ConfigRoute.body_aiModel := Some (str "gpt-4o");
               ConfigRoute.body_autoTranslate := Some autoTranslate |};
     ConfigRoute.installation_octokit := true;
     ConfigRoute.createWebhook_answer := Resolved 1001;
     ConfigRoute.deleteWebhook_answer := Rejected (Some 500) (str "Server Error") |}.

Definition put : ConfigRoute.World -> ConfigRoute.Request
                 -> ConfigRoute.Response * ConfigRoute.World :=
  ConfigRoute.PUT None (Some secret) repositories Some.

Definition unconfigured : ConfigRoute.World :=
  {| ConfigRoute.configs := ∅; ConfigRoute.github := [] |}.

Definition handle : World -> Request -> Response * World :=
  POST RegExp.reference hmac (Some secret) parse find newTaskId.

Definition handle_all : World -> list Request -> World :=
  POST_all RegExp.reference hmac (Some secret) parse find newTaskId.

End Scenario.

(** ** Vocabulary of the properties *)


(** The answers given before the check of the head commit, and that of the
    check itself. *)
Definition answersUpToSelfCommit : list Response :=
  [DuplicateDeliveryIgnored; MissingSignature; WebhookNotConfigured;
   InvalidSignature; EventIgnored; NonDefaultBranchIgnored; SelfCommitIgnored].

(** The patterns of an optional list. *)
Definition patternsOf (paths : option (list jsstring)) : list jsstring :=
  default [] paths.

(** Every pattern of the list is one whose source [new RegExp] accepts. *)
Definition compilable (RegExp_new : RegExp.constructor) (patterns : list jsstring) : Prop :=
  forall pattern, pattern ∈ patterns -> is_Some (RegExp_new (regexSource pattern)).

(** A push with other messages on its commits; the head commit is a field
    of its own and keeps its message. *)
Definition withCommitMessages (messages : Commit -> jsstring) (data : PushEvent)
    : PushEvent :=
  {| ref := ref data;
     repository := repository data;
     commits := map (fun commit => {| commit_id := commit_id commit;
                                      commit_message := messages commit;
                                      added := added commit;
                                      modified := modified commit;
                                      removed := removed commit |})
                    (commits data);
     head_commit := head_commit data;
     sender_login := sender_login data |}.

(** The characters of a glob pattern that matchPath turns into a source of
    the fragment of the module RegExp: all but the ones that stay
    regular-expression syntax after its three replacements. *)
Definition plainChar (c : ascii) : bool :=
  negb (RegExp.chr_is c "\" || RegExp.chr_is c "+" || RegExp.chr_is c "?"
        || RegExp.chr_is c "(" || RegExp.chr_is c ")" || RegExp.chr_is c "["
        || RegExp.chr_is c "]" || RegExp.chr_is c "{" || RegExp.chr_is c "}"
        || RegExp.chr_is c "|").

(** A character that may appear in a path segment made by the
    transliteration: ASCII, and not the separator. *)
Definition segmentChar (c : ascii) : Prop := nonAscii c = false /\ c <> "/"%char.

(** The tokens of the source matchPath builds for one character of a glob
    pattern (after [**] has been replaced). *)
Definition globTokens (c : ascii) : list RegExp.token :=
  if RegExp.chr_is c "*" then [RegExp.TAtom RegExp.NotSlash; RegExp.TStar]
  else if RegExp.chr_is c "^" then [RegExp.TBol]
  else if RegExp.chr_is c "$" then [RegExp.TEol]
  else [RegExp.TAtom (RegExp.Lit c)].

(** The characters of a glob pattern that stand for themselves or are the
    wildcard: [plainChar] without the two assertions. *)
Definition globChar (c : ascii) : bool :=
  plainChar c && negb (RegExp.chr_is c "^") && negb (RegExp.chr_is c "$").

(** The characters that stand for themselves. *)
Definition literalChar (c : ascii) : bool :=
  globChar c && negb (RegExp.chr_is c "*").

(** What a pattern made of such characters matches, as matchPath has it: a
    character matches itself; a lone [*] matches any run of characters
    other than [/]; a pair [**] matches a dot followed by such a run
    (stars pair up from the left). *)
Inductive globMatches : jsstring -> jsstring -> Prop :=
| glob_nil : globMatches [] []
| glob_char (c : ascii) (pattern path : jsstring) :
    c <> "*"%char ->
    globMatches pattern path ->
    globMatches (c :: pattern) (c :: path)
| glob_star (pattern segment path : jsstring) :
    head pattern <> Some "*"%char ->
    "/"%char ∉ segment ->
    globMatches pattern path ->
    globMatches ("*"%char :: pattern) (segment ++ path)
| glob_double_star (pattern segment path : jsstring) :
    "/"%char ∉ segment ->
    globMatches pattern path ->
    globMatches ("*"%char :: "*"%char :: pattern) ("."%char :: segment ++ path).

(** The nodes of a tree, at every depth. *)
Fixpoint nodesOf (node : FileTreeNode) : list FileTreeNode :=
  node :: match node with
          | Node _ _ _ (Some children) _ => flat_map nodesOf children
          | _ => []
          end.

Definition allNodes (nodes : list FileTreeNode) : list FileTreeNode :=
  flat_map nodesOf nodes.

(** The compiled form of those tokens. *)
Definition globItems (c : ascii) : list RegExp.item :=
  if RegExp.chr_is c "*" then [RegExp.Star RegExp.NotSlash]
  else if RegExp.chr_is c "^" then [RegExp.Bol]
  else if RegExp.chr_is c "$" then [RegExp.Eol]
  else [RegExp.Once (RegExp.Lit c)].

(** The number of path separators in a string. *)
Definition separators (s : jsstring) : nat :=
  length (filter (fun c => c = "/"%char) s).

(** A stored configuration with automatic translation switched on records
    the webhook that delivers the pushes. *)
Definition webhookRecorded (config : ConfigRoute.RepoConfig) : Prop :=
  ConfigRoute.autoTranslate config = true -> is_Some (ConfigRoute.webhookId config).

(** * Properties *)

(** ** The path filter: C1 and C8 *)

Lemma startsWith_prefix (p s : jsstring) :
  JS.startsWith s p = true <-> p `prefix_of` s.
Proof.
  revert s. induction p as [|a p IH]; intros [|b s]; simpl.
  - split; [intros _; apply prefix_nil|reflexivity].
  - split; [intros _; apply prefix_nil|reflexivity].
  - split; [discriminate|]. intros H. destruct (prefix_nil_not _ _ H).
  - rewrite andb_true_iff, bool_decide_eq_true, IH. split.
    + intros [-> H]. apply prefix_cons. assumption.
    + intros H. split; [eapply prefix_cons_inv_1|eapply prefix_cons_inv_2]; eassumption.
Qed.

Lemma endsWith_suffix (p s : jsstring) :
  JS.endsWith s p = true <-> p `suffix_of` s.
Proof.
  unfold JS.endsWith. rewrite startsWith_prefix. symmetry.
  apply suffix_prefix_reverse.
Qed.

Lemma filterM_filter (keep : jsstring -> option bool) (P : jsstring -> Prop)
    `{!forall file, Decision (P file)} (files : list jsstring) :
  (forall file, keep file = Some (bool_decide (P file))) ->
  filterM keep files = Some (filter P files).
Proof.
  intros Hkeep. induction files as [|file files IH]; simpl; [reflexivity|].
  rewrite Hkeep, IH. simpl. f_equal. case_bool_decide.
  - rewrite filter_cons_True by assumption. reflexivity.
  - rewrite filter_cons_False by assumption. reflexivity.
Qed.

Section Accepted.

Variable RegExp_new : RegExp.constructor.

Lemma matchPath_accepted (file pattern : jsstring) :
  is_Some (RegExp_new (regexSource pattern)) ->
  exists b, matchPath RegExp_new file pattern = Some b.
Proof. unfold matchPath. intros [regex ->]. simpl. eauto. Qed.

(** [some] over patterns that are all accepted. *)
Lemma somePattern_decide (file : jsstring) (patterns : list jsstring) :
  compilable RegExp_new patterns ->
  somePattern RegExp_new file patterns
  = Some (bool_decide
            (Exists (fun pattern => matchPath RegExp_new file pattern = Some true) patterns)).
Proof.
  induction patterns as [|pattern rest IH]; intros Hcomp; simpl.
  - reflexivity.
  - destruct (matchPath_accepted file pattern) as [b Hb]; [apply Hcomp; left|].
    rewrite Hb. simpl. destruct b.
    + f_equal. symmetry. apply bool_decide_eq_true_2. left. assumption.
    + rewrite IH by (intros ? ?; apply Hcomp; right; assumption).
      f_equal. apply bool_decide_ext. rewrite Exists_cons.
      split; [auto|]. intros [?|?]; [congruence|assumption].
Qed.

(** The predicate of the filter, over patterns that are all accepted. *)
Lemma keepFile_decide (includePaths excludePaths : option (list jsstring)) (file : jsstring) :
  compilable RegExp_new (patternsOf includePaths ++ patternsOf excludePaths) ->
  keepFile RegExp_new includePaths excludePaths file
  = Some (bool_decide
            ((str ".md" `suffix_of` file \/ str ".mdx" `suffix_of` file)
             /\ ¬ str "translations/" `prefix_of` file
             /\ ¬ Exists (fun pattern => matchPath RegExp_new file pattern = Some true)
                         (patternsOf excludePaths)
             /\ (patternsOf includePaths = []
                 \/ Exists (fun pattern => matchPath RegExp_new file pattern = Some true)
                           (patternsOf includePaths)))).
Proof.
  intros Hcomp. unfold keepFile.
  assert (Hexc : match excludePaths with
                 | Some patterns => somePattern RegExp_new file patterns
                 | None => Some false
                 end
                 = Some (bool_decide
                           (Exists (fun pattern =>
                                      matchPath RegExp_new file pattern = Some true)
                                   (patternsOf excludePaths)))).
  { destruct excludePaths as [patterns|]; simpl.
    - apply somePattern_decide. intros ? ?. apply Hcomp, elem_of_app. right. assumption.
    - reflexivity. }
  assert (Hinc : match includePaths with
                 | Some ((_ :: _) as patterns) => somePattern RegExp_new file patterns
                 | _ => Some true
                 end
                 = Some (bool_decide
                           (patternsOf includePaths = []
                            \/ Exists (fun pattern =>
                                         matchPath RegExp_new file pattern = Some true)
                                      (patternsOf includePaths)))).
  { destruct includePaths as [[|pattern rest]|]; simpl.
    - reflexivity.
    - change (matchPath RegExp_new file pattern
                ≫= (fun b : bool => if b then Some true
                                    else somePattern RegExp_new file rest))
        with (somePattern RegExp_new file (pattern :: rest)).
      rewrite somePattern_decide
        by (intros ? ?; apply Hcomp, elem_of_app; left; assumption).
      f_equal. apply bool_decide_ext. split; [auto|]. intros [?|?]; [discriminate|assumption].
    - reflexivity. }
  rewrite Hexc, Hinc. clear Hexc Hinc.
  destruct (JS.endsWith file (str ".md")) eqn:Hmd;
    destruct (JS.endsWith file (str ".mdx")) eqn:Hmdx;
    destruct (JS.startsWith file (str "translations/")) eqn:Htr; simpl;
    rewrite <- ?not_true_iff_false in *;
    rewrite ?endsWith_suffix, ?startsWith_prefix in *;
    try (f_equal; symmetry; apply bool_decide_eq_false_2; tauto).
  all: case_bool_decide as Hex; simpl;
    [f_equal; symmetry; apply bool_decide_eq_false_2; tauto|].
  all: f_equal; apply bool_decide_ext; tauto.
Qed.

End Accepted.

(** *** Patterns that compile *)

Lemma chr_is_true (c : ascii) (d : string) (x : ascii) :
  str d = [x] -> RegExp.chr_is c d = true -> c = x.
Proof.
  unfold RegExp.chr_is. intros ->. rewrite bool_decide_eq_true. congruence.
Qed.

Lemma replace_double_star_plain (pattern : jsstring) :
  Forall (fun c => plainChar c = true) pattern ->
  Forall (fun c => plainChar c = true) (replace_double_star pattern).
Proof.
  enough (H : (Forall (fun c => plainChar c = true) pattern ->
               Forall (fun c => plainChar c = true) (replace_double_star pattern))
              /\ forall c, Forall (fun c => plainChar c = true) (c :: pattern) ->
                    Forall (fun c => plainChar c = true)
                           (replace_double_star (c :: pattern)))
    by apply H.
  induction pattern as [|c2 r [IH1 IH2]].
  - split; [intros _; constructor|]. intros c H. exact H.
  - split; [apply IH2|]. intros c1 H. simpl.
    inversion H as [|? ? H1 H2]; subst.
    destruct (RegExp.chr_is c1 "*" && RegExp.chr_is c2 "*").
    + inversion H2; subst.
      constructor; [reflexivity|constructor; [reflexivity|apply IH1; assumption]].
    + constructor; [assumption|]. apply IH2. assumption.
Qed.

Lemma replace_star_cons (c : ascii) (q : jsstring) :
  replace_star (c :: q)
    = (if RegExp.chr_is c "*" then str "[^/]*" else [c]) ++ replace_star q.
Proof. reflexivity. Qed.

Lemma replace_dot_app (a b : jsstring) :
  replace_dot (a ++ b) = replace_dot a ++ replace_dot b.
Proof. apply flat_map_app. Qed.

Lemma replace_dot_single (c : ascii) :
  replace_dot [c] = if RegExp.chr_is c "." then str "\." else [c].
Proof. unfold replace_dot. simpl. apply app_nil_r. Qed.

Lemma lex_class (x : jsstring) :
  RegExp.lex (str "[^/]*" ++ x)
    = cons (RegExp.TAtom RegExp.NotSlash) <$> (cons RegExp.TStar <$> RegExp.lex x).
Proof. reflexivity. Qed.

Lemma lex_escaped_dot (x : jsstring) :
  RegExp.lex (str "\." ++ x) = cons (RegExp.TAtom (RegExp.Lit "."%char)) <$> RegExp.lex x.
Proof. reflexivity. Qed.

Lemma lex_plain (c : ascii) (x : jsstring) :
  plainChar c = true ->
  RegExp.chr_is c "*" = false -> RegExp.chr_is c "." = false ->
  RegExp.lex (c :: x) = app (globTokens c) <$> RegExp.lex x.
Proof.
  intros Hc Hstar Hdot.
  unfold plainChar in Hc. rewrite negb_true_iff, !orb_false_iff in Hc.
  destruct Hc as [[[[[[[[[Hc1 Hc2] Hc3] Hc4] Hc5] Hc6] Hc7] Hc8] Hc9] Hc10].
  unfold globTokens. simpl. rewrite Hc1, Hc6, Hstar.
  destruct (RegExp.chr_is c "^"); [destruct (RegExp.lex x); reflexivity|].
  destruct (RegExp.chr_is c "$"); [destruct (RegExp.lex x); reflexivity|].
  unfold RegExp.unsupported.
  rewrite Hc1, Hdot, Hc2, Hc3, Hc4, Hc5, Hc6, Hc7, Hc8, Hc9, Hc10. simpl.
  destruct (RegExp.lex x); reflexivity.
Qed.

Lemma lex_translated (q rest : jsstring) (ts : list RegExp.token) :
  Forall (fun c => plainChar c = true) q ->
  RegExp.lex rest = Some ts ->
  RegExp.lex (replace_dot (replace_star q) ++ rest)
    = Some (flat_map globTokens q ++ ts).
Proof.
  intros Hq Hrest. induction Hq as [|c q Hc Hq IH]; [exact Hrest|].
  rewrite replace_star_cons, replace_dot_app, <- app_assoc.
  change (flat_map globTokens (c :: q)) with (globTokens c ++ flat_map globTokens q).
  rewrite <- app_assoc.
  destruct (RegExp.chr_is c "*") eqn:Hstar.
  - change (replace_dot (str "[^/]*")) with (str "[^/]*").
    rewrite lex_class, IH. unfold globTokens. rewrite Hstar. reflexivity.
  - rewrite replace_dot_single. destruct (RegExp.chr_is c ".") eqn:Hdot.
    + apply (chr_is_true c "." "."%char eq_refl) in Hdot. subst c.
      rewrite lex_escaped_dot, IH. reflexivity.
    + change ([c] ++ ?x) with (c :: x).
      rewrite (lex_plain c _ Hc Hstar Hdot), IH. reflexivity.
Qed.

Lemma group_atom (a : RegExp.atom) (ts : list RegExp.token) :
  head ts <> Some RegExp.TStar ->
  RegExp.group (RegExp.TAtom a :: ts) = cons (RegExp.Once a) <$> RegExp.group ts.
Proof. destruct ts as [|[| | |] ts]; try reflexivity. intros H. destruct H. reflexivity. Qed.

Lemma group_translated (q : jsstring) (ts : list RegExp.token) (items : list RegExp.item) :
  head ts <> Some RegExp.TStar ->
  RegExp.group ts = Some items ->
  head (flat_map globTokens q ++ ts) <> Some RegExp.TStar
  /\ RegExp.group (flat_map globTokens q ++ ts) = Some (flat_map globItems q ++ items).
Proof.
  intros Hhead Hts. induction q as [|c q [IHhead IH]]; [split; assumption|].
  change (flat_map globTokens (c :: q)) with (globTokens c ++ flat_map globTokens q).
  change (flat_map globItems (c :: q)) with (globItems c ++ flat_map globItems q).
  rewrite <- !app_assoc. unfold globTokens at 1 3, globItems at 1.
  destruct (RegExp.chr_is c "*"); [|destruct (RegExp.chr_is c "^");
                                     [|destruct (RegExp.chr_is c "$")]];
    (split; [discriminate|]).
  - simpl. rewrite IH. reflexivity.
  - simpl. rewrite IH. reflexivity.
  - simpl. rewrite IH. reflexivity.
  - change ([RegExp.TAtom (RegExp.Lit c)] ++ ?x) with (RegExp.TAtom (RegExp.Lit c) :: x).
    rewrite (group_atom _ _ IHhead), IH. reflexivity.
Qed.

(** What matchPath compiles a pattern to, when the pattern is written
    without any of [\ + ? ( ) [ ] { } |]. *)
Lemma compile_plain_glob (pattern : jsstring) :
  Forall (fun c => plainChar c = true) pattern ->
  RegExp.compile (regexSource pattern)
    = Some (RegExp.Bol :: flat_map globItems (replace_double_star pattern)
                            ++ [RegExp.Eol]).
Proof.
  intros Hplain. apply replace_double_star_plain in Hplain.
  unfold RegExp.compile, regexSource, regexPattern.
  change (RegExp.lex (str "^" ++ ?x)) with (cons RegExp.TBol <$> RegExp.lex x).
  rewrite (lex_translated _ (str "$") [RegExp.TEol] Hplain eq_refl). simpl.
  destruct (group_translated (replace_double_star pattern) [RegExp.TEol] [RegExp.Eol])
    as [_ ->]; [discriminate|reflexivity|reflexivity].
Qed.

Lemma globItems_plain (q : jsstring) :
  forallb RegExp.plain (flat_map globItems q) = true.
Proof.
  induction q as [|c q IH]; [reflexivity|].
  change (flat_map globItems (c :: q)) with (globItems c ++ flat_map globItems q).
  rewrite forallb_app, IH, andb_true_r. unfold globItems.
  repeat case_match; reflexivity.
Qed.

Lemma reference_conforms : RegExp.conforms RegExp.reference.
Proof.
  intros source items Hitems _. unfold RegExp.reference. rewrite Hitems. simpl. eauto.
Qed.

(** *** No wildcard of a compiled pattern matches a separator *)

Lemma separators_cons (c : ascii) (s : jsstring) :
  separators (c :: s) = ((if bool_decide (c = "/"%char) then 1 else 0) + separators s)%nat.
Proof.
  unfold separators. rewrite filter_cons. case_decide.
  - rewrite bool_decide_eq_true_2 by assumption. reflexivity.
  - rewrite bool_decide_eq_false_2 by assumption. reflexivity.
Qed.

Lemma separators_app (s1 s2 : jsstring) :
  separators (s1 ++ s2) = (separators s1 + separators s2)%nat.
Proof. unfold separators. rewrite filter_app, length_app. reflexivity. Qed.

Lemma separators_none (s : jsstring) :
  Forall (fun c => RegExp.accepts RegExp.NotSlash c = true) s -> separators s = 0%nat.
Proof.
  induction 1 as [|c s Hc Hs IH]; [reflexivity|].
  rewrite separators_cons, IH. simpl in Hc. unfold RegExp.chr_is in Hc.
  apply negb_true_iff, bool_decide_eq_false in Hc.
  rewrite bool_decide_eq_false_2; [reflexivity|]. intros ->. apply Hc. reflexivity.
Qed.

Lemma replace_double_star_pair (c1 c2 : ascii) (r : jsstring) :
  replace_double_star (c1 :: c2 :: r)
    = if RegExp.chr_is c1 "*" && RegExp.chr_is c2 "*"
      then str ".*" ++ replace_double_star r
      else c1 :: replace_double_star (c2 :: r).
Proof. reflexivity. Qed.

Lemma separators_replace_double_star (pattern : jsstring) :
  separators (replace_double_star pattern) = separators pattern.
Proof.
  enough (H : separators (replace_double_star pattern) = separators pattern
              /\ forall c, separators (replace_double_star (c :: pattern))
                            = separators (c :: pattern))
    by apply H.
  induction pattern as [|c2 r [IH1 IH2]].
  - split; [reflexivity|]. intros c. reflexivity.
  - split; [apply IH2|]. intros c1. rewrite replace_double_star_pair.
    destruct (RegExp.chr_is c1 "*" && RegExp.chr_is c2 "*") eqn:H.
    + apply andb_true_iff in H as [H1 H2].
      apply (chr_is_true _ "*" "*"%char eq_refl) in H1, H2. subst c1 c2.
      rewrite separators_app, IH1, !separators_cons. reflexivity.
    + rewrite separators_cons, IH2, <- separators_cons. reflexivity.
Qed.

Lemma run_star (a : RegExp.atom) (r : list RegExp.item) (at_start : bool) (s : jsstring) :
  RegExp.run (RegExp.Star a :: r) at_start s
    = RegExp.run r at_start s
      || match s with
         | c :: s' => RegExp.accepts a c && RegExp.run (RegExp.Star a :: r) false s'
         | [] => false
         end.
Proof. destruct s; reflexivity. Qed.

(** A starred atom consumes characters it accepts, and the rest of the
    pattern matches what follows. *)
Lemma run_star_inv (a : RegExp.atom) (r : list RegExp.item) (s : jsstring) :
  forall at_start,
    RegExp.run (RegExp.Star a :: r) at_start s = true ->
    exists s1 s2 at_start',
      s = s1 ++ s2 /\ Forall (fun c => RegExp.accepts a c = true) s1
      /\ RegExp.run r at_start' s2 = true.
Proof.
  induction s as [|c s IH]; intros at_start; rewrite run_star, orb_true_iff.
  - intros [H|H]; [|discriminate]. exists [], [], at_start. repeat split; [constructor|exact H].
  - rewrite andb_true_iff. intros [H|[Hc H]].
    + exists [], (c :: s), at_start. repeat split; [constructor|exact H].
    + apply IH in H as (s1 & s2 & at_start' & -> & Hs1 & Hrun).
      exists (c :: s1), s2, at_start'. repeat split; [constructor; assumption|exact Hrun].
Qed.

Lemma run_glob_separators (q : jsstring) :
  forall at_start s,
    RegExp.run (flat_map globItems q ++ [RegExp.Eol]) at_start s = true ->
    separators s = separators q.
Proof.
  induction q as [|c q IH]; intros at_start s.
  - simpl. destruct s; [reflexivity|discriminate].
  - change (flat_map globItems (c :: q)) with (globItems c ++ flat_map globItems q).
    rewrite <- app_assoc, separators_cons. unfold globItems at 1.
    destruct (RegExp.chr_is c "*") eqn:Hstar;
      [|destruct (RegExp.chr_is c "^") eqn:Hbol;
        [|destruct (RegExp.chr_is c "$") eqn:Heol]].
    + apply (chr_is_true _ "*" "*"%char eq_refl) in Hstar. subst c.
      intros H. apply run_star_inv in H as (s1 & s2 & at_start' & -> & Hs1 & Hrun).
      rewrite separators_app, (separators_none _ Hs1), (IH _ _ Hrun). reflexivity.
    + apply (chr_is_true _ "^" "^"%char eq_refl) in Hbol. subst c.
      simpl. rewrite andb_true_iff. intros [_ Hrun]. apply (IH _ _ Hrun).
    + apply (chr_is_true _ "$" "$"%char eq_refl) in Heol. subst c.
      simpl. destruct s; [|discriminate]. intros Hrun. apply (IH _ _ Hrun).
    + simpl. destruct s as [|c' s]; [discriminate|].
      rewrite andb_true_iff, bool_decide_eq_true. intros [-> Hrun].
      rewrite separators_cons, (IH _ _ Hrun). reflexivity.
Qed.

Lemma search_anchored (r : list RegExp.item) (s : jsstring) :
  RegExp.search (RegExp.Bol :: r) true s = RegExp.run r true s.
Proof.
  assert (H : forall s', RegExp.search (RegExp.Bol :: r) false s' = false)
    by (induction s' as [|? ? IH]; [reflexivity|exact IH]).
  destruct s; simpl; [apply orb_false_r|]. rewrite H. apply orb_false_r.
Qed.

(** *** Patterns of the fragment, for a constructor that conforms *)

Section Conforming.

Variable RegExp_new : RegExp.constructor.
Hypothesis RegExp_conforms : RegExp.conforms RegExp_new.

(** What matchPath answers for a pattern written without any of
    [\ + ? ( ) [ ] { } |]. *)
Lemma matchPath_plain (path pattern : jsstring) :
  Forall (fun c => plainChar c = true) pattern ->
  matchPath RegExp_new path pattern
  = Some (RegExp.run (flat_map globItems (replace_double_star pattern) ++ [RegExp.Eol])
                     true path).
Proof.
  intros Hplain.
  destruct (RegExp_conforms _ _ (compile_plain_glob _ Hplain)) as (regex & Hregex & Htest).
  { change (forallb RegExp.plain
              (flat_map globItems (replace_double_star pattern) ++ [RegExp.Eol]) = true).
    rewrite forallb_app, globItems_plain. reflexivity. }
  unfold matchPath. rewrite Hregex. simpl. rewrite Htest, search_anchored. reflexivity.
Qed.

Lemma plain_glob_compilable (patterns : list jsstring) :
  Forall (Forall (fun c => plainChar c = true)) patterns ->
  compilable RegExp_new patterns.
Proof.
  intros Hplain pattern Hin. rewrite Forall_forall in Hplain.
  pose proof (matchPath_plain [] pattern (Hplain _ Hin)) as H.
  unfold matchPath in H. destruct (RegExp_new (regexSource pattern)); [eauto|discriminate].
Qed.

End Conforming.

(** On such patterns every constructor that conforms answers as the
    reference one, which can be run. *)
Lemma matchPath_reference (RegExp_new : RegExp.constructor) (path pattern : jsstring) :
  RegExp.conforms RegExp_new ->
  Forall (fun c => plainChar c = true) pattern ->
  matchPath RegExp_new path pattern = matchPath RegExp.reference path pattern.
Proof.
  intros Hconforms Hplain.
  rewrite (matchPath_plain _ Hconforms _ _ Hplain).
  rewrite (matchPath_plain _ reference_conforms _ _ Hplain). reflexivity.
Qed.

Lemma somePattern_reference (RegExp_new : RegExp.constructor)
    (file : jsstring) (patterns : list jsstring) :
  RegExp.conforms RegExp_new ->
  Forall (Forall (fun c => plainChar c = true)) patterns ->
  somePattern RegExp_new file patterns = somePattern RegExp.reference file patterns.
Proof.
  intros Hconforms. induction 1 as [|pattern rest Hplain _ IH]; simpl; [reflexivity|].
  rewrite (matchPath_reference _ _ _ Hconforms Hplain), IH. reflexivity.
Qed.

Lemma filterFilesToTranslate_reference (RegExp_new : RegExp.constructor)
    (files : list jsstring) (includePaths excludePaths : option (list jsstring)) :
  RegExp.conforms RegExp_new ->
  Forall (Forall (fun c => plainChar c = true))
         (patternsOf includePaths ++ patternsOf excludePaths) ->
  filterFilesToTranslate RegExp_new files includePaths excludePaths
  = filterFilesToTranslate RegExp.reference files includePaths excludePaths.
Proof.
  intros Hconforms Hplain. apply Forall_app in Hplain as [Hinc Hexc].
  unfold filterFilesToTranslate.
  induction files as [|file files IH]; simpl; [reflexivity|].
  rewrite IH. f_equal. unfold keepFile.
  destruct excludePaths as [exc|], includePaths as [[|pattern inc]|];
    simpl in Hinc, Hexc;
    rewrite ?(somePattern_reference _ file _ Hconforms Hexc);
    try reflexivity.
  all: change (matchPath ?new file pattern
                 ≫= (fun b : bool => if b then Some true else somePattern ?new file inc))
         with (somePattern new file (pattern :: inc));
    rewrite (somePattern_reference _ file _ Hconforms Hinc); reflexivity.
Qed.

Lemma plain_literal (s : string) :
  forallb plainChar (str s) = true -> Forall (fun c => plainChar c = true) (str s).
Proof. intros H. apply Forall_forall. intros c Hc. rewrite forallb_forall in H. apply H, list_elem_of_In, Hc. Qed.

(** A single [*] stays within a segment, and a dot is literal. *)
Lemma matchPath_single_star (RegExp_new : RegExp.constructor) :
  RegExp.conforms RegExp_new ->
  matchPath RegExp_new (str "docs/setup.md") (str "docs/*.md") = Some true
  /\ matchPath RegExp_new (str "docs/a/setup.md") (str "docs/*.md") = Some false
  /\ matchPath RegExp_new (str "docs/setupXmd") (str "docs/*.md") = Some false.
Proof.
  intros Hconforms.
  rewrite !(matchPath_reference _ _ _ Hconforms (plain_literal "docs/*.md" eq_refl)).
  repeat split; vm_compute; reflexivity.
Qed.

(** *** C1: the glob translation of matchPath *)

(** C1.  The three replacements of matchPath are applied one after the
    other to the same string, so the [*] of the [.*] that replaces [**] is
    itself replaced by [[^/]*] and its dot is then escaped: [docs/**]
    becomes [docs/\.[^/]*].  A [**] thus matches a literal dot followed
    by characters other than [/], not any run of characters, and with
    [includePaths = ["docs/**"]] neither [guide.md] nor [docs/setup.md]
    survives filtering.  In general, for a pattern written without any of
    [\ + ? ( ) [ ] { } |], a path that matches has exactly as many
    separators as the pattern: no wildcard matches across a separator.
    This holds for every regular-expression constructor that reads the
    sources of the fragment as the module RegExp does. *)
Theorem matchPath_double_star_misses_subdirectory (RegExp_new : RegExp.constructor) :
  RegExp.conforms RegExp_new ->
  regexPattern (str "docs/**") = str "docs/\.[^/]*"
  /\ matchPath RegExp_new (str "docs/setup.md") (str "docs/**") = Some false
  /\ matchPath RegExp_new (str "docs/.setup") (str "docs/**") = Some true
  /\ matchPath RegExp_new (str "docs/a/b.md") (str "docs/**") = Some false
  /\ filterFilesToTranslate RegExp_new [str "guide.md"; str "docs/setup.md"]
       (Some [str "docs/**"]) None = Some []
  /\ (forall path pattern,
        Forall (fun c => plainChar c = true) pattern ->
        matchPath RegExp_new path pattern = Some true ->
        separators path = separators pattern).
Proof.
  intros Hconforms.
  pose proof (plain_literal "docs/**" eq_refl) as Hplain.
  rewrite !(matchPath_reference _ _ _ Hconforms Hplain).
  rewrite (filterFilesToTranslate_reference _ _ _ _ Hconforms)
    by (repeat constructor; exact Hplain).
  repeat split; try (vm_compute; reflexivity).
  intros path pattern Hpattern. rewrite (matchPath_plain _ Hconforms _ _ Hpattern).
  intros [= Hrun]. apply run_glob_separators in Hrun.
  rewrite Hrun. apply separators_replace_double_star.
Qed.

Lemma matchPath_double_star_misses_subdirectory_witness :
  matchPath RegExp.reference (str "docs/setup.md") (str "docs/**") = Some false
  /\ separators (str "docs/.setup") = separators (str "docs/**").
Proof.
  destruct (matchPath_double_star_misses_subdirectory RegExp.reference reference_conforms)
    as (_ & Hmiss & Hdot & _ & _ & H).
  split; [exact Hmiss|]. apply H; [|exact Hdot].
  apply (plain_literal "docs/**" eq_refl).
Defined.

(** *** C8: what the filter returns *)

(** C8, as stated, fails: the files returned are not a strict subset of
    the files given when every file passes. *)
Lemma filterFilesToTranslate_may_keep_everything :
  (forall RegExp_new : RegExp.constructor,
      filterFilesToTranslate RegExp_new [str "README.md"; str "docs/guide.mdx"] None None
      = Some [str "README.md"; str "docs/guide.mdx"])
  /\ ¬ ([str "README.md"; str "docs/guide.mdx"]
          ⊂ [str "README.md"; str "docs/guide.mdx"]).
Proof.
  split; [intros RegExp_new; vm_compute; reflexivity|]. intros [_ H]. apply H. reflexivity.
Qed.

(** C8, amended.  When every include and exclude pattern is one the
    regular-expression constructor accepts, whatever that constructor is,
    the filter returns the files of its input, in the order of the input
    and each as often as it occurs there (possibly all of them), that end
    in [.md] or [.mdx], do not begin with [translations/], match no
    exclude pattern, and match some include pattern when the include list
    is neither absent nor empty.  A file that matches an exclude pattern
    is thus dropped whatever the include patterns. *)
Theorem filterFilesToTranslate_spec
    (RegExp_new : RegExp.constructor)
    (files : list jsstring) (includePaths excludePaths : option (list jsstring)) :
  compilable RegExp_new (patternsOf includePaths ++ patternsOf excludePaths) ->
  filterFilesToTranslate RegExp_new files includePaths excludePaths
  = Some (filter
            (fun file =>
               (str ".md" `suffix_of` file \/ str ".mdx" `suffix_of` file)
               /\ ¬ str "translations/" `prefix_of` file
               /\ ¬ Exists (fun pattern => matchPath RegExp_new file pattern = Some true)
                           (patternsOf excludePaths)
               /\ (patternsOf includePaths = []
                   \/ Exists (fun pattern => matchPath RegExp_new file pattern = Some true)
                             (patternsOf includePaths)))
            files).
Proof.
  intros Hcomp. unfold filterFilesToTranslate.
  apply filterM_filter. intros file. apply keepFile_decide, Hcomp.
Qed.

Lemma filterFilesToTranslate_spec_witness :
  filterFilesToTranslate RegExp.reference
    [str "guide.md"; str "docs/setup.md"; str "docs/internal/notes.md";
     str "docs/logo.png"; str "docs/setup.md"; str "translations/en/docs/setup.md"]
    (Some [str "docs/*"; str "docs/*/*"]) (Some [str "docs/internal/*"])
  = Some [str "docs/setup.md"; str "docs/setup.md"].
Proof.
  rewrite filterFilesToTranslate_spec.
  - vm_compute. reflexivity.
  - apply (plain_glob_compilable _ reference_conforms).
    repeat constructor; apply plain_literal; reflexivity.
Defined.

(** The same answer for every constructor that conforms. *)
Lemma filterFilesToTranslate_example (RegExp_new : RegExp.constructor) :
  RegExp.conforms RegExp_new ->
  filterFilesToTranslate RegExp_new
    [str "guide.md"; str "docs/setup.md"; str "docs/internal/notes.md";
     str "docs/logo.png"; str "translations/en/docs/setup.md"]
    (Some [str "docs/*"; str "docs/*/*"]) (Some [str "docs/internal/*"])
  = Some [str "docs/setup.md"].
Proof.
  intros Hconforms. rewrite (filterFilesToTranslate_reference _ _ _ _ Hconforms).
  - vm_compute. reflexivity.
  - repeat constructor; apply plain_literal; reflexivity.
Qed.

(** ** The filename transliterator: C3, C4 and C9 *)

Example translateFilename_dictionary :
  translateFilename (str "docs/介绍.md") = str "docs/Introduction.md".
Proof. vm_compute. reflexivity. Qed.

(** The first key found in the name is [说明]; what is left is not ASCII and
    the fallback applies to the whole name. *)
Example translateFilename_partial_then_fallback :
  partialMatch (str "项目介绍说明") = Some (str "项目介绍README")
  /\ translateFilename (str "项目介绍说明.md") = str "document.md".
Proof. split; vm_compute; reflexivity. Qed.

Example translateFilename_partial :
  translateFilename (str "guide-介绍.md") = str "guide-Introduction.md".
Proof. vm_compute. reflexivity. Qed.

Example translateFilename_fallback :
  translateFilename (str "你好/a你好b--世界c.tar.gz") = str "folder/a-b-c.tar.gz".
Proof. vm_compute. reflexivity. Qed.

(** The extension is copied as it is, ASCII or not. *)
Example translateFilename_extension :
  translateFilename (str "文档.中文") = str "Documentation.中文".
Proof. vm_compute. reflexivity. Qed.

(** *** split and join *)

Lemma split_not_nil (sep : ascii) (s : jsstring) : JS.split sep s <> [].
Proof.
  destruct s as [|c s]; simpl; [discriminate|].
  case_bool_decide; [discriminate|]. destruct (JS.split sep s); discriminate.
Qed.

Lemma split_snoc (sep : ascii) (s : jsstring) :
  exists dirs filename, JS.split sep s = dirs ++ [filename].
Proof.
  destruct (exists_last (split_not_nil sep s)) as (dirs & filename & H). eauto.
Qed.

Lemma split_Forall (P : ascii -> Prop) (sep : ascii) (s : jsstring) :
  Forall P s -> Forall (Forall P) (JS.split sep s).
Proof.
  induction 1 as [|c s Hc Hs IH]; simpl; [repeat constructor|].
  case_bool_decide; [constructor; [constructor|assumption]|].
  destruct (JS.split sep s) as [|h r]; [repeat constructor; assumption|].
  inversion IH; subst. constructor; [constructor|]; assumption.
Qed.

Lemma split_no_separator (sep : ascii) (s : jsstring) :
  Forall (fun part => sep ∉ part) (JS.split sep s).
Proof.
  induction s as [|c s IH]; simpl; [repeat constructor; apply not_elem_of_nil|].
  case_bool_decide as Hc; [constructor; [apply not_elem_of_nil|assumption]|].
  destruct (JS.split sep s) as [|h r].
  - repeat constructor. rewrite elem_of_cons. intros [->|H]; [congruence|inversion H].
  - inversion IH; subst. constructor; [|assumption].
    rewrite elem_of_cons. intros [->|?]; [congruence|contradiction].
Qed.

Lemma split_whole (sep : ascii) (part : jsstring) :
  sep ∉ part -> JS.split sep part = [part].
Proof.
  induction part as [|c part IH]; simpl; [reflexivity|].
  rewrite not_elem_of_cons. intros [Hc Hpart].
  rewrite bool_decide_eq_false_2 by congruence. rewrite IH by assumption. reflexivity.
Qed.

Lemma split_app_separator (sep : ascii) (part rest : jsstring) :
  sep ∉ part -> JS.split sep (part ++ sep :: rest) = part :: JS.split sep rest.
Proof.
  induction part as [|c part IH]; simpl.
  - intros _. rewrite bool_decide_eq_true_2; reflexivity.
  - rewrite not_elem_of_cons. intros [Hc Hpart].
    rewrite bool_decide_eq_false_2 by congruence. rewrite IH by assumption. reflexivity.
Qed.

Lemma split_join (sep : ascii) (parts : list jsstring) :
  parts <> [] ->
  Forall (fun part => sep ∉ part) parts ->
  JS.split sep (JS.join [sep] parts) = parts.
Proof.
  induction parts as [|part rest IH]; [congruence|]. intros _ Hparts.
  inversion Hparts as [|? ? Hpart Hrest]; subst.
  destruct rest as [|next rest]; simpl.
  - apply split_whole. assumption.
  - change (JS.split sep (part ++ sep :: JS.join [sep] (next :: rest))
            = part :: next :: rest).
    rewrite split_app_separator by assumption. rewrite IH; [reflexivity|discriminate|assumption].
Qed.

(** *** lastIndexOf, the name and the extension *)

Lemma lastIndexOf_ge (s : jsstring) (c : ascii) : -1 <= JS.lastIndexOf s c.
Proof.
  induction s as [|a s IH]; simpl; [lia|].
  destruct (Z.leb_spec 0 (JS.lastIndexOf s c)); [lia|]. case_bool_decide; lia.
Qed.

Lemma lastIndexOf_absent (s : jsstring) (c : ascii) :
  c ∉ s -> JS.lastIndexOf s c = -1.
Proof.
  induction s as [|a s IH]; simpl; [reflexivity|].
  rewrite not_elem_of_cons. intros [Hc Hs]. rewrite IH by assumption. simpl.
  rewrite bool_decide_eq_false_2 by congruence. reflexivity.
Qed.

Lemma lastIndexOf_app (pre post : jsstring) (c : ascii) :
  c ∉ post -> JS.lastIndexOf (pre ++ c :: post) c = Z.of_nat (length pre).
Proof.
  intros Hpost. induction pre as [|a pre IH]; simpl.
  - rewrite lastIndexOf_absent by assumption. simpl.
    rewrite bool_decide_eq_true_2; reflexivity.
  - rewrite IH. destruct (Z.leb_spec 0 (Z.of_nat (length pre))); lia.
Qed.

Lemma lastIndexOf_present (s : jsstring) (c : ascii) :
  c ∈ s -> 0 <= JS.lastIndexOf s c.
Proof.
  induction s as [|a s IH]; simpl; [intros H; inversion H|].
  rewrite elem_of_cons. intros Hin.
  destruct (Z.leb_spec 0 (JS.lastIndexOf s c)); [lia|].
  case_bool_decide as Ha; [lia|].
  destruct Hin as [->|Hin]; [congruence|]. apply IH in Hin. lia.
Qed.

Lemma lastIndexOf_found (s : jsstring) (c : ascii) :
  0 <= JS.lastIndexOf s c ->
  exists pre post, s = pre ++ c :: post /\ (c ∉ post)
                   /\ JS.lastIndexOf s c = Z.of_nat (length pre).
Proof.
  induction s as [|a s IH]; simpl; [lia|].
  destruct (Z.leb_spec 0 (JS.lastIndexOf s c)) as [Hpos|Hneg].
  - intros _. destruct IH as (pre & post & -> & Hpost & Hidx); [lia|].
    exists (a :: pre), post. repeat split; [assumption|]. simpl. lia.
  - case_bool_decide as Ha; [|lia]. intros _. subst a.
    exists [], s. repeat split.
    intros Hin. apply lastIndexOf_present in Hin. lia.
Qed.

(** The two shapes of a file name: no extension, or a non-empty name, a
    dot and a suffix without dots. *)
Lemma name_and_extension (filename : jsstring) :
  (nameWithoutExt filename = filename /\ extension filename = [])
  \/ exists name suffix,
       filename = name ++ "."%char :: suffix /\ name <> [] /\ ("."%char ∉ suffix)
       /\ nameWithoutExt filename = name
       /\ extension filename = "."%char :: suffix.
Proof.
  unfold nameWithoutExt, extension.
  destruct (Z.ltb_spec 0 (JS.lastIndexOf filename ".")) as [Hdot|Hdot];
    [right|left; split; reflexivity].
  destruct (lastIndexOf_found filename ".") as (name & suffix & Hf & Hsuffix & Hidx); [lia|].
  exists name, suffix. rewrite Hidx in *. clear Hidx.
  unfold JS.substring, JS.substringFrom. rewrite Z.sub_0_r, Nat2Z.id.
  subst filename. change (Z.to_nat 0) with 0%nat.
  rewrite drop_0, take_app_length, drop_app_length.
  repeat split; try assumption. intros ->. simpl in Hdot. lia.
Qed.

Lemma nameWithoutExt_app (name suffix : jsstring) :
  name <> [] -> "."%char ∉ suffix ->
  nameWithoutExt (name ++ "."%char :: suffix) = name.
Proof.
  intros Hname Hsuffix. unfold nameWithoutExt.
  rewrite lastIndexOf_app by assumption.
  destruct (Z.ltb_spec 0 (Z.of_nat (length name))) as [_|H];
    [|destruct name; [congruence|simpl in H; lia]].
  unfold JS.substring. rewrite Z.sub_0_r, Nat2Z.id.
  change (Z.to_nat 0) with 0%nat. rewrite drop_0. apply take_app_length.
Qed.

Lemma nameWithoutExt_Forall (P : ascii -> Prop) (filename : jsstring) :
  Forall P filename -> Forall P (nameWithoutExt filename).
Proof.
  intros H. destruct (name_and_extension filename)
    as [[-> _]|(name & suffix & Hf & _ & _ & -> & _)]; [assumption|].
  rewrite Hf in H. apply Forall_app in H as [? _]. assumption.
Qed.

(** *** What the transliteration produces *)

Lemma containsNonAscii_false (s : jsstring) :
  containsNonAscii s = false <-> Forall (fun c => nonAscii c = false) s.
Proof.
  unfold containsNonAscii. induction s as [|c s IH]; simpl.
  - split; [constructor|reflexivity].
  - rewrite orb_false_iff, IH, Forall_cons. reflexivity.
Qed.

Lemma squeeze_Forall (P : ascii -> Prop) (C : ascii -> bool) (in_run : bool) (s : jsstring) :
  P "-"%char ->
  Forall (fun c => C c = false -> P c) s ->
  Forall P (squeeze C in_run s).
Proof.
  intros Hhyphen Hs. revert in_run.
  induction Hs as [|c s Hc Hs IH]; intros in_run; simpl; [constructor|].
  destruct (C c) eqn:HC.
  - destruct in_run; [apply IH|constructor; [assumption|apply IH]].
  - constructor; [apply Hc; reflexivity|apply IH].
Qed.

Lemma dropLeading_Forall (P : ascii -> Prop) (C : ascii -> bool) (s : jsstring) :
  Forall P s -> Forall P (dropLeading C s).
Proof.
  induction 1 as [|c s Hc Hs IH]; simpl; [constructor|].
  destruct (C c); [assumption|constructor; assumption].
Qed.

Lemma stripNonAscii_Forall (P : ascii -> Prop) (s : jsstring) :
  P "-"%char ->
  Forall (fun c => nonAscii c = false -> P c) s ->
  Forall P (stripNonAscii s).
Proof.
  intros Hhyphen Hs. unfold stripNonAscii, trimHyphens.
  apply squeeze_Forall; [assumption|].
  eapply Forall_impl; [|intros c Hc _; exact Hc].
  apply Forall_reverse, dropLeading_Forall, Forall_reverse, dropLeading_Forall.
  apply squeeze_Forall; assumption.
Qed.

Lemma fallbackName_Forall (P : ascii -> Prop) (name : jsstring) :
  P "-"%char -> Forall P (str "document") ->
  Forall (fun c => nonAscii c = false -> P c) name ->
  Forall P (fallbackName name).
Proof.
  intros Hhyphen Hdocument Hname. unfold fallbackName.
  destruct (_ || _); [assumption|]. apply stripNonAscii_Forall; assumption.
Qed.

Lemma fallbackName_truthy (name : jsstring) : JS.truthy (fallbackName name) = true.
Proof.
  unfold fallbackName. destruct (JS.truthy (stripNonAscii name)) eqn:H; simpl.
  - case_bool_decide; [reflexivity|assumption].
  - reflexivity.
Qed.

Lemma replace_unfold (s needle repl : jsstring) :
  JS.replace s needle repl
    = if JS.startsWith s needle then repl ++ drop (length needle) s
      else match s with
           | [] => []
           | c :: s' => c :: JS.replace s' needle repl
           end.
Proof. destruct s; reflexivity. Qed.

Lemma replace_Forall (P : ascii -> Prop) (s needle repl : jsstring) :
  Forall P s -> Forall P repl -> Forall P (JS.replace s needle repl).
Proof.
  intros Hs Hrepl. induction Hs as [|c s Hc Hs IH]; rewrite replace_unfold.
  - destruct (JS.startsWith [] needle); [|constructor].
    apply Forall_app. split; [assumption|]. rewrite drop_nil. constructor.
  - destruct (JS.startsWith (c :: s) needle).
    + apply Forall_app. split; [assumption|].
      apply Forall_drop. constructor; assumption.
    + constructor; assumption.
Qed.

(** The values of the dictionary are non-empty ASCII words without [/]. *)
Lemma mapping_values (k v : jsstring) :
  (k, v) ∈ FILENAME_MAPPING -> JS.truthy v = true /\ Forall segmentChar v.
Proof.
  assert (H : forallb (fun kv : jsstring * jsstring =>
                         JS.truthy kv.2
                         && forallb (fun c => negb (nonAscii c)
                                              && negb (bool_decide (c = "/"%char))) kv.2)
                      FILENAME_MAPPING = true) by (vm_compute; reflexivity).
  rewrite forallb_forall in H. intros Hin.
  apply list_elem_of_In, H in Hin. simpl in Hin.
  apply andb_true_iff in Hin as [Htruthy Hchars]. split; [assumption|].
  rewrite forallb_forall in Hchars. apply Forall_forall. intros c Hc.
  apply list_elem_of_In, Hchars, andb_true_iff in Hc as [Ha Hs].
  apply negb_true_iff in Ha, Hs. apply bool_decide_eq_false in Hs.
  split; assumption.
Qed.

Lemma mapping_get_Some (name t : jsstring) :
  mapping_get name = Some t -> exists k, (k, t) ∈ FILENAME_MAPPING.
Proof.
  unfold mapping_get.
  destruct (find _ FILENAME_MAPPING) as [[k v]|] eqn:H; [|discriminate].
  intros [= <-]. apply find_some in H as [H _]. exists k. apply list_elem_of_In. exact H.
Qed.

Lemma partialMatch_Some (name t : jsstring) :
  partialMatch name = Some t ->
  exists k v, (k, v) ∈ FILENAME_MAPPING /\ t = JS.replace name k v.
Proof.
  unfold partialMatch.
  destruct (find _ FILENAME_MAPPING) as [[k v]|] eqn:H; [|discriminate].
  intros [= <-]. apply find_some in H as [H _]. exists k, v.
  split; [apply list_elem_of_In; exact H|reflexivity].
Qed.

Lemma segmentChar_hyphen : segmentChar "-"%char.
Proof. split; [reflexivity|discriminate]. Qed.

Lemma segmentChar_literal (word : string) :
  forallb (fun c => negb (nonAscii c) && negb (bool_decide (c = "/"%char))) (str word) = true ->
  Forall segmentChar (str word).
Proof.
  rewrite forallb_forall. intros H. apply Forall_forall. intros c Hc.
  apply list_elem_of_In, H, andb_true_iff in Hc as [Ha Hs].
  apply negb_true_iff in Ha, Hs. apply bool_decide_eq_false in Hs. split; assumption.
Qed.

Lemma no_separator_segmentChar (s : jsstring) :
  "/"%char ∉ s -> Forall (fun c => nonAscii c = false -> segmentChar c) s.
Proof.
  intros Hs. apply Forall_forall. intros c Hc Hascii. split; [assumption|].
  intros ->. contradiction.
Qed.

Lemma segmentChar_no_separator (s : jsstring) :
  Forall segmentChar s -> "/"%char ∉ s.
Proof.
  intros H Hin. rewrite Forall_forall in H. destruct (H _ Hin) as [_ Hne]. congruence.
Qed.

Lemma segmentChar_ascii (s : jsstring) :
  Forall segmentChar s -> containsNonAscii s = false.
Proof.
  intros H. apply containsNonAscii_false. eapply Forall_impl; [exact H|].
  intros c [? _]. assumption.
Qed.

(** The new name of a file is a non-empty ASCII word without [/]. *)
Lemma translateName_segment (name : jsstring) :
  "/"%char ∉ name ->
  JS.truthy (translateName name) = true /\ Forall segmentChar (translateName name).
Proof.
  intros Hname.
  assert (Hfallback : JS.truthy (fallbackName name) = true
                      /\ Forall segmentChar (fallbackName name)).
  { split; [apply fallbackName_truthy|].
    apply fallbackName_Forall;
      [apply segmentChar_hyphen
      |apply segmentChar_literal; vm_compute; reflexivity
      |apply no_separator_segmentChar; assumption]. }
  assert (Hcandidate : forall t,
             (exists k v, (k, v) ∈ FILENAME_MAPPING
                          /\ (t = v \/ t = JS.replace name k v)) ->
             JS.truthy (if negb (JS.truthy t) || containsNonAscii t
                        then fallbackName name else t) = true
             /\ Forall segmentChar (if negb (JS.truthy t) || containsNonAscii t
                                    then fallbackName name else t)).
  { intros t (k & v & Hin & Ht).
    destruct (JS.truthy t) eqn:Htruthy; simpl; [|assumption].
    destruct (containsNonAscii t) eqn:Hascii; [assumption|].
    split; [assumption|].
    apply containsNonAscii_false in Hascii.
    apply Forall_forall. intros c Hc. split.
    - rewrite Forall_forall in Hascii. apply Hascii. assumption.
    - intros ->. revert Hc. destruct (mapping_values k v Hin) as [_ Hv].
      destruct Ht as [->| ->].
      + apply segmentChar_no_separator. assumption.
      + assert (H : Forall (fun c => c <> "/"%char) (JS.replace name k v)).
        { apply replace_Forall.
          - apply Forall_forall. intros c Hc ->. contradiction.
          - eapply Forall_impl; [exact Hv|]. intros c [_ ?]. assumption. }
        rewrite Forall_forall in H. intros Hc. apply (H _ Hc). reflexivity. }
  unfold translateName.
  destruct (mapping_get name) as [t|] eqn:Hget.
  - destruct (JS.truthy t) eqn:Htruthy.
    + apply mapping_get_Some in Hget as (k & Hin).
      apply Hcandidate. exists k, t. auto.
    + destruct (partialMatch name) as [t'|] eqn:Hpartial; [|assumption].
      apply partialMatch_Some in Hpartial as (k & v & Hin & ->).
      apply Hcandidate. exists k, v. auto.
  - destruct (partialMatch name) as [t'|] eqn:Hpartial; [|assumption].
    apply partialMatch_Some in Hpartial as (k & v & Hin & ->).
    apply Hcandidate. exists k, v. auto.
Qed.

(** The new name of a directory has no [/]. *)
Lemma translateDirectory_no_separator (part : jsstring) :
  "/"%char ∉ part -> "/"%char ∉ translateDirectory part.
Proof.
  intros Hpart. unfold translateDirectory.
  destruct (containsNonAscii part); [|assumption].
  assert (Hstrip : Forall segmentChar (stripNonAscii part))
    by (apply stripNonAscii_Forall;
        [apply segmentChar_hyphen|apply no_separator_segmentChar; assumption]).
  assert (Hfolder : Forall segmentChar (str "folder"))
    by (apply segmentChar_literal; vm_compute; reflexivity).
  apply segmentChar_no_separator. unfold orElse.
  destruct (mapping_get part) as [t|] eqn:Hget.
  - apply mapping_get_Some in Hget as (k & Hin).
    destruct (mapping_values k t Hin) as [_ Ht].
    repeat (match goal with |- context [if ?b then _ else _] => destruct b end);
      assumption.
  - destruct (JS.truthy (stripNonAscii part)); assumption.
Qed.

Lemma extension_Forall (P : ascii -> Prop) (filename : jsstring) :
  Forall P filename -> Forall P (extension filename).
Proof.
  intros H. destruct (name_and_extension filename)
    as [[_ ->]|(name & suffix & Hf & _ & _ & _ & ->)]; [constructor|].
  rewrite Hf in H. apply Forall_app in H as [_ ?]. assumption.
Qed.

(** *** The path translateFilename builds *)

Lemma translateFilename_parts (originalPath : jsstring) (dirs : list jsstring)
    (filename : jsstring) :
  JS.split "/" originalPath = dirs ++ [filename] ->
  translateFilename originalPath
    = if negb (containsNonAscii (nameWithoutExt filename)) then originalPath
      else JS.join (str "/")
             ((translateDirectory <$> dirs)
                ++ [translateName (nameWithoutExt filename) ++ extension filename]).
Proof.
  intros Hsplit. unfold translateFilename. rewrite Hsplit, last_last.
  destruct (negb _); [reflexivity|]. f_equal.
  rewrite imap_app. f_equal.
  - rewrite <- imap_const. apply imap_ext. intros i part Hi. simpl.
    apply lookup_lt_Some in Hi. rewrite length_app. simpl.
    rewrite bool_decide_eq_false_2; [reflexivity|lia].
  - simpl. rewrite length_app. simpl.
    rewrite bool_decide_eq_true_2; [reflexivity|lia].
Qed.

(** The last segment of a path made by translateFilename has an ASCII
    name: on that path the function returns at its first test. *)
Lemma translateFilename_output (originalPath : jsstring) :
  exists dirs filename,
    JS.split "/" (translateFilename originalPath) = dirs ++ [filename]
    /\ containsNonAscii (nameWithoutExt filename) = false.
Proof.
  destruct (split_snoc "/" originalPath) as (dirs & filename & Hsplit).
  rewrite (translateFilename_parts _ _ _ Hsplit).
  destruct (containsNonAscii (nameWithoutExt filename)) eqn:Hname; simpl;
    [|exists dirs, filename; split; assumption].
  pose proof (split_no_separator "/" originalPath) as Hparts.
  rewrite Hsplit in Hparts. apply Forall_app in Hparts as [Hdirs Hfile].
  rewrite Forall_singleton in Hfile.
  assert (Hchars : Forall (fun c => c <> "/"%char) filename)
    by (apply Forall_forall; intros c Hc ->; contradiction).
  assert (Hstem : "/"%char ∉ nameWithoutExt filename).
  { intros Hin. pose proof (nameWithoutExt_Forall _ _ Hchars) as H.
    rewrite Forall_forall in H. apply (H _ Hin). reflexivity. }
  destruct (translateName_segment _ Hstem) as [Htruthy Hsegment].
  set (translated := translateName (nameWithoutExt filename)) in *.
  exists (translateDirectory <$> dirs), (translated ++ extension filename).
  split.
  - change (str "/") with ["/"%char]. apply split_join.
    + intros H. apply app_eq_nil in H as [_ H]. discriminate.
    + apply Forall_app. split.
      * apply Forall_fmap. eapply Forall_impl; [exact Hdirs|].
        intros part. apply translateDirectory_no_separator.
      * apply Forall_singleton. rewrite elem_of_app. intros [Hin|Hin].
        -- revert Hin. apply segmentChar_no_separator. assumption.
        -- pose proof (extension_Forall _ _ Hchars) as H.
           rewrite Forall_forall in H. apply (H _ Hin). reflexivity.
  - destruct (name_and_extension filename)
      as [[_ ->]|(name & suffix & _ & _ & Hsuffix & _ & ->)].
    + rewrite app_nil_r. apply containsNonAscii_false, nameWithoutExt_Forall.
      apply containsNonAscii_false, segmentChar_ascii. assumption.
    + rewrite nameWithoutExt_app; [apply segmentChar_ascii; assumption| |assumption].
      intros H. rewrite H in Htruthy. discriminate.
Qed.

(** *** C9: translateFilename applied twice *)

(** C9.  translateFilename applied to its own output returns that output:
    the file name of the output, without its extension, is ASCII, so the
    second application returns at its first test and the transliteration
    is not entered again.  Applied to a path that is ASCII throughout it
    returns the path. *)
Theorem translateFilename_idempotent (originalPath : jsstring) :
  translateFilename (translateFilename originalPath) = translateFilename originalPath
  /\ containsNonAscii
       (nameWithoutExt (List.last (JS.split "/" (translateFilename originalPath)) []))
     = false
  /\ (containsNonAscii originalPath = false -> translateFilename originalPath = originalPath).
Proof.
  destruct (translateFilename_output originalPath) as (dirs & filename & Hsplit & Hname).
  repeat split.
  - rewrite (translateFilename_parts _ _ _ Hsplit), Hname. reflexivity.
  - rewrite Hsplit, last_last. assumption.
  - intros Hascii. apply containsNonAscii_false in Hascii.
    destruct (split_snoc "/" originalPath) as (dirs' & filename' & Hsplit').
    rewrite (translateFilename_parts _ _ _ Hsplit').
    pose proof (split_Forall _ "/" _ Hascii) as Hparts.
    rewrite Hsplit' in Hparts. apply Forall_app in Hparts as [_ Hfile].
    rewrite Forall_singleton in Hfile.
    apply (nameWithoutExt_Forall _ _) in Hfile.
    apply containsNonAscii_false in Hfile. rewrite Hfile. reflexivity.
Qed.

Lemma translateFilename_idempotent_witness :
  translateFilename (translateFilename (str "文档/项目介绍.md"))
    = translateFilename (str "文档/项目介绍.md")
  /\ translateFilename (str "docs/setup.md") = str "docs/setup.md".
Proof.
  destruct (translateFilename_idempotent (str "文档/项目介绍.md")) as (Htwice & _ & _).
  destruct (translateFilename_idempotent (str "docs/setup.md")) as (_ & _ & Hascii).
  split; [exact Htwice|]. apply Hascii. vm_compute. reflexivity.
Defined.

(** *** C4: directory names under an ASCII file name *)

(** C4.  translateFilename returns the original path as soon as the file
    name without its extension is ASCII, before any directory name is
    looked at: whatever the directories of the path, they are kept.  The
    directory [文档] is kept under [readme.md], while under a non-ASCII
    file name the same directory becomes [Documentation]. *)
Theorem translateFilename_keeps_directory_of_ascii_file :
  (forall originalPath dirs filename,
      JS.split "/" originalPath = dirs ++ [filename] ->
      containsNonAscii (nameWithoutExt filename) = false ->
      translateFilename originalPath = originalPath)
  /\ translateFilename (str "文档/readme.md") = str "文档/readme.md"
  /\ containsNonAscii (str "文档") = true
  /\ translateFilename (str "文档/介绍.md") = str "Documentation/Introduction.md".
Proof.
  repeat split; try (vm_compute; reflexivity).
  intros originalPath dirs filename Hsplit Hname.
  rewrite (translateFilename_parts _ _ _ Hsplit), Hname. reflexivity.
Qed.

Lemma translateFilename_keeps_directory_of_ascii_file_witness :
  translateFilename (str "文档/使用指南/setup.v2.md") = str "文档/使用指南/setup.v2.md".
Proof.
  destruct translateFilename_keeps_directory_of_ascii_file as (H & _).
  apply (H _ [str "文档"; str "使用指南"] (str "setup.v2.md")); vm_compute; reflexivity.
Defined.

(** *** C3: the output path for the base language *)

(** C3, as stated, fails: for the base language the source path is not
    returned as it is. *)
Lemma base_language_path_is_prefixed :
  getTranslatedPath (str "README.md") (str "en") (str "en")
    = str "translations/en/README.md"
  /\ getTranslatedPath (str "README.md") (str "en") (str "en") <> str "README.md".
Proof. split; [vm_compute; reflexivity | vm_compute; discriminate]. Qed.

(** C3, amended.  When the target language equals the base language, the
    path returned is the source path, not transliterated, joined under the
    prefix [translations/<targetLang>/]. *)
Theorem getTranslatedPath_base_language (sourcePath targetLang baseLanguage : jsstring) :
  targetLang = baseLanguage ->
  getTranslatedPath sourcePath targetLang baseLanguage
    = str "translations/" ++ targetLang ++ str "/" ++ sourcePath.
Proof.
  intros ->. unfold getTranslatedPath.
  rewrite bool_decide_eq_true_2; reflexivity.
Qed.

Lemma getTranslatedPath_base_language_witness :
  getTranslatedPath (str "文档/介绍.md") (str "zh-CN") (str "zh-CN")
    = str "translations/" ++ str "zh-CN" ++ str "/" ++ str "文档/介绍.md".
Proof. apply getTranslatedPath_base_language. reflexivity. Defined.

(** ** The webhook handler: C2, C5, C6, C7 and C10 *)

Section HandlerFacts.

Variable RegExp_new : RegExp.constructor.
Variable hmac_sha256_hex : jsstring -> jsstring -> jsstring.
Variable GITHUB_WEBHOOK_SECRET : option jsstring.
Variable JSON_parse : jsstring -> option PushEvent.
Variable findRepository : Z -> option RepositoryRow.
Variable newTaskId : list TaskRow -> jsstring.

Local Abbreviation post :=
  (POST RegExp_new hmac_sha256_hex GITHUB_WEBHOOK_SECRET JSON_parse findRepository newTaskId).
Local Abbreviation post_all :=
  (POST_all RegExp_new hmac_sha256_hex GITHUB_WEBHOOK_SECRET JSON_parse findRepository newTaskId).
Local Abbreviation detect' :=
  (detect RegExp_new hmac_sha256_hex GITHUB_WEBHOOK_SECRET JSON_parse findRepository).

(** The cache left by a request is the one step 0 computes. *)
Lemma POST_cache (w : World) (req : Request) :
  processedDeliveries (post w req).2
    = match deduplicate (processedDeliveries w) req with
      | inl cache | inr cache => cache
      end.
Proof.
  unfold POST.
  destruct (deduplicate _ _); [reflexivity|].
  destruct (detect' req) as [?|[[? ?] ?]]; reflexivity.
Qed.

Lemma POST_duplicate (w : World) (req : Request) cache :
  deduplicate (processedDeliveries w) req = inl cache ->
  post w req
    = (DuplicateDeliveryIgnored,
       {| processedDeliveries := cache; tasks := tasks w; queue := queue w |}).
Proof. unfold POST. intros ->. reflexivity. Qed.

Lemma POST_early_return (w : World) (req : Request) cache response :
  deduplicate (processedDeliveries w) req = inr cache ->
  detect' req = inl response ->
  post w req
    = (response,
       {| processedDeliveries := cache; tasks := tasks w; queue := queue w |}).
Proof. unfold POST. intros -> ->. reflexivity. Qed.

(** Only the last answer comes with a task. *)
Lemma POST_no_task (w : World) (req : Request) :
  (forall task files, (post w req).1 <> TranslationTaskCreated task files) ->
  tasks (post w req).2 = tasks w /\ queue (post w req).2 = queue w.
Proof.
  unfold POST.
  destruct (deduplicate _ _); [split; reflexivity|].
  destruct (detect' req) as [?|[[? ?] ?]]; [split; reflexivity|].
  simpl. intros H. exfalso. eapply H. reflexivity.
Qed.

Lemma detect_answers (req : Request) response :
  detect' req = inl response ->
  forall task files, response <> TranslationTaskCreated task files.
Proof.
  unfold detect. intros H task files ->.
  repeat (match type of H with
          | context [match ?x with _ => _ end] => destruct x
          end; try discriminate).
Qed.



Lemma detect_head_self_commit (req : Request) (data : PushEvent) (head : HeadCommit) :
  JSON_parse (body req) = Some data ->
  head_commit data = Some head ->
  JS.startsWith (head_message head) SELF_COMMIT_MARKER = true ->
  exists response, detect' req = inl response /\ response ∈ answersUpToSelfCommit.
Proof.
  unfold detect, answersUpToSelfCommit. intros -> -> ->.
  repeat (match goal with
          | |- context [match ?x with _ => _ end] => destruct x
          end;
          try (eexists; split; [reflexivity|]; set_solver)).
Qed.

(** *** The delivery cache *)

Lemma cleanup_lookup (now : Z) (cache : gmap jsstring Z) (id : jsstring) (e : Z) :
  cleanupDeliveryCache now cache !! id = Some e <-> cache !! id = Some e /\ now <= e.
Proof.
  unfold cleanupDeliveryCache. rewrite map_lookup_filter_Some. simpl.
  split; intros [? ?]; split; auto; lia.
Qed.

Lemma deduplicate_identified (cache : gmap jsstring Z) (req : Request) (id : jsstring) :
  x_github_delivery req = Some id -> id <> [] ->
  deduplicate cache req
    = let swept := cleanupDeliveryCache (now_cleanup req) cache in
      match swept !! id with
      | Some _ => inl swept
      | None => inr (<[id := now_record req + DELIVERY_CACHE_TTL]> swept)
      end.
Proof.
  unfold deduplicate. intros -> Hid. destruct id; [congruence|reflexivity].
Qed.

(** An entry that has not expired when a request arrives is still there
    when the request has been handled. *)
Lemma POST_keeps_entry (w : World) (req : Request) (id : jsstring) (e : Z) :
  processedDeliveries w !! id = Some e -> now_cleanup req <= e ->
  processedDeliveries (post w req).2 !! id = Some e.
Proof.
  intros Hid Hnow. rewrite POST_cache. unfold deduplicate.
  destruct (x_github_delivery req) as [d|]; [|assumption].
  destruct (JS.truthy d); [|assumption].
  assert (Hswept : cleanupDeliveryCache (now_cleanup req) (processedDeliveries w) !! id
                   = Some e) by (apply cleanup_lookup; auto).
  destruct (cleanupDeliveryCache _ _ !! d) eqn:Hd; [assumption|].
  rewrite lookup_insert_ne; [assumption|]. intros ->. congruence.
Qed.

Lemma POST_all_keeps_entry (reqs : list Request) (w : World) (id : jsstring) (e : Z) :
  processedDeliveries w !! id = Some e ->
  Forall (fun r => now_cleanup r <= e) reqs ->
  processedDeliveries (post_all w reqs) !! id = Some e.
Proof.
  revert w. induction reqs as [|req reqs IH]; intros w Hid Hall; [assumption|].
  inversion Hall; subst. simpl. apply IH; [|assumption].
  apply POST_keeps_entry; assumption.
Qed.

(** A request whose identifier is recorded and not expired is a duplicate. *)
Lemma POST_recorded (w : World) (req : Request) (id : jsstring) (e : Z) :
  x_github_delivery req = Some id -> id <> [] ->
  processedDeliveries w !! id = Some e -> now_cleanup req <= e ->
  (post w req).1 = DuplicateDeliveryIgnored
  /\ tasks (post w req).2 = tasks w /\ queue (post w req).2 = queue w.
Proof.
  intros Hreq Hne Hid Hnow.
  erewrite POST_duplicate; [repeat split|].
  rewrite (deduplicate_identified _ _ _ Hreq Hne). simpl.
  assert (Hswept : cleanupDeliveryCache (now_cleanup req) (processedDeliveries w) !! id
                   = Some e) by (apply cleanup_lookup; auto).
  rewrite Hswept. reflexivity.
Qed.

(** A request whose identifier is unknown, or recorded and expired, is not
    a duplicate, and records the identifier. *)
Lemma POST_first_sight (w : World) (req : Request) (id : jsstring) :
  x_github_delivery req = Some id -> id <> [] ->
  (forall e, processedDeliveries w !! id = Some e -> now_cleanup req > e) ->
  (post w req).1 <> DuplicateDeliveryIgnored
  /\ processedDeliveries (post w req).2 !! id
       = Some (now_record req + DELIVERY_CACHE_TTL).
Proof.
  intros Hreq Hne Hfresh.
  assert (Hswept : cleanupDeliveryCache (now_cleanup req) (processedDeliveries w) !! id
                   = None).
  { destruct (cleanupDeliveryCache _ _ !! id) as [e|] eqn:He; [|reflexivity].
    apply cleanup_lookup in He as [He ?]. apply Hfresh in He. lia. }
  split.
  - unfold POST. rewrite (deduplicate_identified _ _ _ Hreq Hne). simpl.
    rewrite Hswept.
    destruct (detect' req) as [response|[[? ?] ?]] eqn:Hdetect; simpl; [|discriminate].
    intros ->. revert Hdetect. unfold detect.
    repeat (match goal with
            | |- context [match ?x with _ => _ end] => destruct x
            end; try discriminate).
  - rewrite POST_cache, (deduplicate_identified _ _ _ Hreq Hne). simpl.
    rewrite Hswept. apply lookup_insert_eq.
Qed.

(** Whatever is in the cache after a request that carries an identifier had
    not expired when the request arrived, or is the entry just recorded. *)
Lemma POST_evicts (w : World) (req : Request) (id : jsstring) :
  x_github_delivery req = Some id -> id <> [] ->
  forall id' e,
    processedDeliveries (post w req).2 !! id' = Some e ->
    now_cleanup req <= e
    \/ (id' = id /\ e = now_record req + DELIVERY_CACHE_TTL
        /\ (post w req).1 <> DuplicateDeliveryIgnored).
Proof.
  intros Hreq Hne id' e. rewrite POST_cache.
  unfold POST. rewrite (deduplicate_identified _ _ _ Hreq Hne). simpl.
  destruct (cleanupDeliveryCache _ _ !! id) eqn:Hid.
  - intros He. apply cleanup_lookup in He as [_ ?]. left. assumption.
  - rewrite lookup_insert. case_decide as Heq.
    + intros [= <-]. right. repeat split; [congruence|].
      destruct (detect' req) as [response|[[? ?] ?]] eqn:Hdetect; simpl; [|discriminate].
      intros ->. revert Hdetect. unfold detect.
      repeat (match goal with
              | |- context [match ?x with _ => _ end] => destruct x
              end; try discriminate).
    + intros He. apply cleanup_lookup in He as [_ ?]. left. assumption.
Qed.

End HandlerFacts.

(** *** C2: scenario A *)

(** C2.  In scenario A both files are queued: the handler applies nothing
    but filterFilesToTranslate to the changed files, and that filter knows
    one directory only, [translations/]; [node_modules], a member of
    SKIP_DIRECTORIES, is not skipped. *)
Theorem scenario_A_queues_node_modules :
  let result := Scenario.handle Scenario.empty
                  (Scenario.request "delivery-1" true "payload A" 1000) in
  result.1 = TranslationTaskCreated (str "task-")
               [str "docs/介绍.md"; str "node_modules/x.md"]
  /\ map changedFiles (queue result.2)
       = [[str "docs/介绍.md"; str "node_modules/x.md"]]
  /\ str "node_modules" ∈ SKIP_DIRECTORIES.
Proof.
  repeat split; try (vm_compute; reflexivity).
  unfold SKIP_DIRECTORIES. simpl. apply list_elem_of_here.
Qed.

(** *** C5, C6, C7 and C10: what the handler answers *)

(** C5, as stated, fails: a commit that carries the marker does not stop
    the push when it is not the head commit. *)
Lemma marked_commit_before_head_creates_task :
  (exists c, c ∈ commits Scenario.pushM
             /\ JS.startsWith (commit_message c) SELF_COMMIT_MARKER = true)
  /\ (Scenario.handle Scenario.empty
        (Scenario.request "delivery-2" true "payload M" 1000)).1
     = TranslationTaskCreated (str "task-") [str "docs/a.md"; str "README.md"]
  /\ length (tasks (Scenario.handle Scenario.empty
                      (Scenario.request "delivery-2" true "payload M" 1000)).2) = 1%nat.
Proof.
  split; [|split; vm_compute; reflexivity].
  eexists. split; [apply list_elem_of_here|]. vm_compute. reflexivity.
Qed.


Section HandlerClaims.

Variable RegExp_new : RegExp.constructor.
Variable hmac_sha256_hex : jsstring -> jsstring -> jsstring.
Variable GITHUB_WEBHOOK_SECRET : option jsstring.
Variable JSON_parse : jsstring -> option PushEvent.
Variable findRepository : Z -> option RepositoryRow.
Variable newTaskId : list TaskRow -> jsstring.

Local Abbreviation post :=
  (POST RegExp_new hmac_sha256_hex GITHUB_WEBHOOK_SECRET JSON_parse findRepository newTaskId).
Local Abbreviation post_all :=
  (POST_all RegExp_new hmac_sha256_hex GITHUB_WEBHOOK_SECRET JSON_parse findRepository newTaskId).

(** The files of a push do not depend on the messages of its commits. *)
Lemma collectChangedFiles_messages (messages : Commit -> jsstring) (cs : list Commit) :
  collectChangedFiles
    (map (fun commit => {| commit_id := commit_id commit;
                           commit_message := messages commit;
                           added := added commit;
                           modified := modified commit;
                           removed := removed commit |}) cs)
  = collectChangedFiles cs.
Proof.
  unfold collectChangedFiles. generalize (@nil jsstring).
  induction cs as [|c cs IH]; intros acc; [reflexivity|]. simpl. apply IH.
Qed.

Lemma detect_messages (messages : Commit -> jsstring) (req : Request) :
  detect RegExp_new hmac_sha256_hex GITHUB_WEBHOOK_SECRET
         (fun payload => withCommitMessages messages <$> JSON_parse payload)
         findRepository req
  = detect RegExp_new hmac_sha256_hex GITHUB_WEBHOOK_SECRET JSON_parse findRepository req.
Proof.
  unfold detect.
  destruct (x_hub_signature_256 req) as [signature|]; [|reflexivity].
  destruct (negb (JS.truthy signature)); [reflexivity|].
  destruct (getWebhookSecret GITHUB_WEBHOOK_SECRET) as [secret|]; [|reflexivity].
  destruct (negb (verifyWebhookSignature _ _ _ _)); [reflexivity|].
  destruct (negb (bool_decide _)); [reflexivity|].
  destruct (JSON_parse (body req)) as [data|]; [|reflexivity].
  change (withCommitMessages messages <$> Some data)
    with (Some (withCommitMessages messages data)).
  cbv beta iota zeta.
  change (ref (withCommitMessages messages data)) with (ref data).
  change (repository (withCommitMessages messages data)) with (repository data).
  change (head_commit (withCommitMessages messages data)) with (head_commit data).
  unfold withCommitMessages at 1. cbn [commits].
  rewrite collectChangedFiles_messages. reflexivity.
Qed.

(** C5, amended.  For every push whose head commit's message starts with
    [[GitHub Global]], whatever its branch and whatever files its commits
    add or modify, the handler creates no task and enqueues no job: it
    answers with one of the early returns, the last of which is
    "Self-commit ignored".  The messages of the commits of the push are
    not looked at: with any other messages on them, marker or not, the
    handler gives the same answer and leaves the same cache, tasks and
    queue. *)
Theorem head_self_commit_creates_no_task :
  (forall (w : World) (req : Request) (data : PushEvent) (head : HeadCommit),
      JSON_parse (body req) = Some data ->
      head_commit data = Some head ->
      JS.startsWith (head_message head) SELF_COMMIT_MARKER = true ->
      tasks (post w req).2 = tasks w
      /\ queue (post w req).2 = queue w
      /\ (post w req).1 ∈ answersUpToSelfCommit)
  /\ (forall (messages : Commit -> jsstring) (w : World) (req : Request),
        POST RegExp_new hmac_sha256_hex GITHUB_WEBHOOK_SECRET
             (fun payload => withCommitMessages messages <$> JSON_parse payload)
             findRepository newTaskId w req
        = post w req).
Proof.
  split.
  - intros w req data head Hparse Hhead Hmarker.
    destruct (deduplicate (processedDeliveries w) req) as [cache|cache] eqn:Hdedup.
    + rewrite (POST_duplicate _ _ _ _ _ _ _ _ _ Hdedup). simpl.
      repeat split. apply list_elem_of_here.
    + destruct (detect_head_self_commit RegExp_new hmac_sha256_hex GITHUB_WEBHOOK_SECRET
                  JSON_parse findRepository req data head Hparse Hhead Hmarker)
        as (response & Hdetect & Hin).
      rewrite (POST_early_return _ _ _ _ _ _ _ _ _ _ Hdedup Hdetect). simpl.
      repeat split. assumption.
  - intros messages w req. unfold POST. rewrite detect_messages. reflexivity.
Qed.


(** C6.  Let a request carry a delivery identifier that is unknown, or
    recorded and expired, when it arrives.  It is not answered as a
    duplicate.  Any request with the same identifier that arrives no later
    than 60 seconds after the first was recorded, whatever requests were
    handled in between, gets the duplicate answer and creates no task.  In
    both calls the expired entries are removed from the cache before the
    identifier is looked up: nothing that had expired is left. *)
Theorem duplicate_delivery_within_ttl
    (w : World) (first second : Request) (between : list Request) (id : jsstring) :
  x_github_delivery first = Some id ->
  x_github_delivery second = Some id ->
  id <> [] ->
  (forall e, processedDeliveries w !! id = Some e -> now_cleanup first > e) ->
  Forall (fun r => now_cleanup r <= now_record first + DELIVERY_CACHE_TTL)
         (between ++ [second]) ->
  let w1 := (post w first).2 in
  let w2 := post_all w1 between in
  (post w first).1 <> DuplicateDeliveryIgnored
  /\ (post w2 second).1 = DuplicateDeliveryIgnored
  /\ tasks (post w2 second).2 = tasks w2
  /\ queue (post w2 second).2 = queue w2
  /\ (forall id' e, processedDeliveries w1 !! id' = Some e ->
        now_cleanup first <= e
        \/ (id' = id /\ e = now_record first + DELIVERY_CACHE_TTL))
  /\ (forall id' e, processedDeliveries (post w2 second).2 !! id' = Some e ->
        now_cleanup second <= e).
Proof.
  intros Hfirst Hsecond Hne Hfresh Hwindow w1 w2.
  apply Forall_app in Hwindow as [Hbetween Hlast].
  rewrite Forall_singleton in Hlast.
  destruct (POST_first_sight RegExp_new hmac_sha256_hex GITHUB_WEBHOOK_SECRET JSON_parse
              findRepository newTaskId w first id Hfirst Hne Hfresh)
    as [Hproceeds Hrecorded].
  assert (Hkept : processedDeliveries w2 !! id
                  = Some (now_record first + DELIVERY_CACHE_TTL))
    by (apply POST_all_keeps_entry; assumption).
  destruct (POST_recorded RegExp_new hmac_sha256_hex GITHUB_WEBHOOK_SECRET JSON_parse
              findRepository newTaskId w2 second id _ Hsecond Hne Hkept Hlast)
    as (Hdup & Htasks & Hqueue).
  repeat split; try assumption.
  - intros id' e He.
    destruct (POST_evicts RegExp_new hmac_sha256_hex GITHUB_WEBHOOK_SECRET JSON_parse
                findRepository newTaskId w first id Hfirst Hne id' e He)
      as [?|(? & ? & _)]; auto.
  - intros id' e He.
    destruct (POST_evicts RegExp_new hmac_sha256_hex GITHUB_WEBHOOK_SECRET JSON_parse
                findRepository newTaskId w2 second id Hsecond Hne id' e He)
      as [?|(_ & _ & Hnot)]; [assumption|]. contradiction.
Qed.

(** C10.  The delivery identifier is recorded before the signature is
    looked at: when a request is answered with status 401, any request
    with the same identifier that arrives no later than 60 seconds after
    it was recorded, validly signed or not and whatever requests were
    handled in between, gets the duplicate answer and creates no task. *)
Theorem rejected_delivery_blocks_retry
    (w : World) (first second : Request) (between : list Request) (id : jsstring) :
  x_github_delivery first = Some id ->
  x_github_delivery second = Some id ->
  id <> [] ->
  status (post w first).1 = 401 ->
  Forall (fun r => now_cleanup r <= now_record first + DELIVERY_CACHE_TTL)
         (between ++ [second]) ->
  let w1 := (post w first).2 in
  let w2 := post_all w1 between in
  processedDeliveries w1 !! id = Some (now_record first + DELIVERY_CACHE_TTL)
  /\ (post w2 second).1 = DuplicateDeliveryIgnored
  /\ tasks (post w2 second).2 = tasks w2
  /\ queue (post w2 second).2 = queue w2.
Proof.
  intros Hfirst Hsecond Hne Hstatus Hwindow w1 w2.
  apply Forall_app in Hwindow as [Hbetween Hlast].
  rewrite Forall_singleton in Hlast.
  assert (Hrecorded : processedDeliveries w1 !! id
                      = Some (now_record first + DELIVERY_CACHE_TTL)).
  { subst w1. rewrite POST_cache.
    revert Hstatus. unfold POST.
    rewrite (deduplicate_identified _ _ _ Hfirst Hne). simpl.
    destruct (cleanupDeliveryCache _ _ !! id); [discriminate|].
    intros _. apply lookup_insert_eq. }
  assert (Hkept : processedDeliveries w2 !! id
                  = Some (now_record first + DELIVERY_CACHE_TTL))
    by (apply POST_all_keeps_entry; assumption).
  split; [assumption|].
  exact (POST_recorded RegExp_new hmac_sha256_hex GITHUB_WEBHOOK_SECRET JSON_parse
           findRepository newTaskId w2 second id _ Hsecond Hne Hkept Hlast).
Qed.

End HandlerClaims.

Lemma head_self_commit_creates_no_task_witness :
  let req := Scenario.request "delivery-4" true "payload S" 1000 in
  tasks (Scenario.handle Scenario.empty req).2 = []
  /\ queue (Scenario.handle Scenario.empty req).2 = []
  /\ (Scenario.handle Scenario.empty req).1 ∈ answersUpToSelfCommit.
Proof.
  intros req.
  apply (proj1 (head_self_commit_creates_no_task RegExp.reference Scenario.hmac
                  (Some Scenario.secret) Scenario.parse Scenario.find Scenario.newTaskId)
               Scenario.empty req Scenario.pushS
               {| head_id := str "c2";
                  head_message := str "[GitHub Global] Add translations" |});
    vm_compute; reflexivity.
Defined.

(** The answer in that example is the one of the self-commit check. *)
Example head_self_commit_answer :
  (Scenario.handle Scenario.empty
     (Scenario.request "delivery-4" true "payload S" 1000)).1 = SelfCommitIgnored.
Proof. vm_compute. reflexivity. Qed.


Lemma duplicate_delivery_within_ttl_witness :
  let first := Scenario.request "delivery-1" true "payload A" 1000 in
  let between := [Scenario.request "delivery-9" true "payload M" 30000] in
  let second := Scenario.request "delivery-1" true "payload A" 61000 in
  (Scenario.handle Scenario.empty first).1 <> DuplicateDeliveryIgnored
  /\ (Scenario.handle
        (Scenario.handle_all (Scenario.handle Scenario.empty first).2 between)
        second).1 = DuplicateDeliveryIgnored.
Proof.
  intros first between second.
  destruct (duplicate_delivery_within_ttl RegExp.reference Scenario.hmac (Some Scenario.secret)
              Scenario.parse Scenario.find Scenario.newTaskId Scenario.empty
              first second between (str "delivery-1"))
    as (Hfirst & Hsecond & _).
  - reflexivity.
  - reflexivity.
  - discriminate.
  - intros e He. vm_compute in He. discriminate.
  - repeat constructor; vm_compute; discriminate.
  - split; assumption.
Defined.

Lemma rejected_delivery_blocks_retry_witness :
  let first := Scenario.request "delivery-1" false "payload A" 1000 in
  let second := Scenario.request "delivery-1" true "payload A" 50000 in
  (Scenario.handle (Scenario.handle Scenario.empty first).2 second).1
    = DuplicateDeliveryIgnored.
Proof.
  intros first second.
  destruct (rejected_delivery_blocks_retry RegExp.reference Scenario.hmac (Some Scenario.secret)
              Scenario.parse Scenario.find Scenario.newTaskId Scenario.empty
              first second [] (str "delivery-1"))
    as (_ & Hsecond & _).
  - reflexivity.
  - reflexivity.
  - discriminate.
  - vm_compute. reflexivity.
  - repeat constructor; vm_compute; discriminate.
  - assumption.
Defined.

(** * Further properties of the code *)

(** ** The signature check *)

Lemma verifyWebhookSignature_signed
    (hmac_sha256_hex : jsstring -> jsstring -> jsstring)
    (payload signature secret : jsstring) :
  verifyWebhookSignature hmac_sha256_hex payload signature secret = true ->
  signature = str "sha256=" ++ hmac_sha256_hex secret payload.
Proof.
  unfold verifyWebhookSignature, timingSafeEqual.
  destruct (_ || _); [discriminate|].
  case_bool_decide; [|discriminate]. apply bool_decide_eq_true.
Qed.

(** X1.  verifyWebhookSignature accepts a signature exactly when it is
    [sha256=] followed by the digest of the payload under the secret; on
    any other string, of whatever length, it answers false and does not
    throw. *)
Theorem verifyWebhookSignature_iff
    (hmac_sha256_hex : jsstring -> jsstring -> jsstring)
    (payload signature secret : jsstring) :
  verifyWebhookSignature hmac_sha256_hex payload signature secret = true
  <-> signature = str "sha256=" ++ hmac_sha256_hex secret payload.
Proof.
  split.
  - apply verifyWebhookSignature_signed.
  - intros ->. unfold verifyWebhookSignature, timingSafeEqual.
    assert (Hprefix : JS.startsWith (str "sha256=" ++ hmac_sha256_hex secret payload)
                        (str "sha256=") = true)
      by (apply startsWith_prefix; eexists; reflexivity).
    rewrite Hprefix.
    change (JS.truthy (str "sha256=" ++ hmac_sha256_hex secret payload)) with true.
    simpl. rewrite bool_decide_eq_true_2 by reflexivity.
    apply bool_decide_eq_true_2. reflexivity.
Qed.

(** ** The files of a push *)

Lemma set_add_spec (s : list jsstring) (x : jsstring) :
  NoDup s ->
  NoDup (set_add s x) /\ (forall f, f ∈ set_add s x <-> f ∈ s \/ f = x).
Proof.
  intros Hs. unfold set_add. case_bool_decide as Hx.
  - split; [assumption|]. intros f. split; [auto|]. intros [?| ->]; assumption.
  - split.
    + apply NoDup_app. split; [assumption|]. split.
      * intros y Hy Hin. apply list_elem_of_singleton in Hin. subst y. contradiction.
      * apply NoDup_singleton.
    + intros f. rewrite elem_of_app, list_elem_of_singleton. reflexivity.
Qed.

Lemma foldl_set_add_spec (xs acc : list jsstring) :
  NoDup acc ->
  NoDup (foldl set_add acc xs)
  /\ (forall f, f ∈ foldl set_add acc xs <-> f ∈ acc \/ f ∈ xs).
Proof.
  revert acc. induction xs as [|x xs IH]; intros acc Hacc; simpl.
  - split; [assumption|]. intros f. split; [auto|]. intros [?|H]; [assumption|inversion H].
  - destruct (set_add_spec acc x Hacc) as [Hnodup Hmem].
    destruct (IH _ Hnodup) as [Hnodup' Hmem']. split; [assumption|].
    intros f. rewrite Hmem', Hmem, elem_of_cons. tauto.
Qed.

Lemma collect_from_spec (cs : list Commit) (acc : list jsstring) :
  NoDup acc ->
  let result :=
    foldl (fun acc commit =>
             foldl set_add (foldl set_add acc (added commit)) (modified commit))
          acc cs in
  NoDup result
  /\ (forall f, f ∈ result <->
        f ∈ acc \/ exists commit, commit ∈ cs /\ (f ∈ added commit \/ f ∈ modified commit)).
Proof.
  revert acc. induction cs as [|c cs IH]; intros acc Hacc; simpl.
  - split; [assumption|]. intros f. split; [auto|].
    intros [?|(? & H & _)]; [assumption|inversion H].
  - destruct (foldl_set_add_spec (added c) acc Hacc) as [H1 M1].
    destruct (foldl_set_add_spec (modified c) _ H1) as [H2 M2].
    destruct (IH _ H2) as [H3 M3]. split; [exact H3|].
    intros f. rewrite M3, M2, M1. split.
    + intros [[[?|?]|?]|(commit & Hin & Hf)]; auto.
      * right. exists c. split; [left|auto].
      * right. exists c. split; [left|auto].
      * right. exists commit. split; [right; assumption|assumption].
    + intros [?|(commit & Hin & Hf)]; [auto|].
      apply elem_of_cons in Hin as [->|Hin]; [tauto|].
      right. exists commit. split; assumption.
Qed.

(** X2.  The changed files of a push are the paths that some commit adds
    or modifies, each listed once, however often it recurs in the
    commits; a path that commits only remove is not among them. *)
Theorem collectChangedFiles_spec (cs : list Commit) :
  NoDup (collectChangedFiles cs)
  /\ (forall f, f ∈ collectChangedFiles cs <->
        exists commit, commit ∈ cs /\ (f ∈ added commit \/ f ∈ modified commit)).
Proof.
  destruct (collect_from_spec cs [] (NoDup_nil_2)) as [Hnodup Hmem].
  split; [exact Hnodup|]. intros f. rewrite (Hmem f). split.
  - intros [H|H]; [inversion H|exact H].
  - auto.
Qed.


(** ** What the filter returns, whatever the patterns *)

Lemma keepFile_true (RegExp_new : RegExp.constructor)
    (includePaths excludePaths : option (list jsstring)) (file : jsstring) :
  keepFile RegExp_new includePaths excludePaths file = Some true ->
  (str ".md" `suffix_of` file \/ str ".mdx" `suffix_of` file)
  /\ ¬ str "translations/" `prefix_of` file.
Proof.
  unfold keepFile. rewrite <- !endsWith_suffix, <- startsWith_prefix.
  destruct (JS.endsWith file (str ".md")); destruct (JS.endsWith file (str ".mdx"));
    simpl; try discriminate;
    (destruct (JS.startsWith file (str "translations/")); [discriminate|]);
    intros _; (split; [auto|discriminate]).
Qed.

Lemma filterM_Some (keep : jsstring -> option bool) (files : list jsstring) :
  forall kept,
    filterM keep files = Some kept ->
    kept `sublist_of` files
    /\ (forall file, file ∈ kept <-> file ∈ files /\ keep file = Some true).
Proof.
  induction files as [|f files IH]; intros kept; simpl.
  - intros [= <-]. split; [constructor|].
    intros file. split; [intros H|intros [H _]]; inversion H.
  - destruct (keep f) as [b|] eqn:Hb; [|discriminate]. simpl.
    destruct (filterM keep files) as [kept'|]; [|discriminate]. simpl.
    destruct (IH kept' eq_refl) as [Hsub Hmem].
    intros [= <-]. destruct b.
    + split; [constructor; assumption|].
      intros file. rewrite !elem_of_cons, Hmem. split.
      * intros [->|[? ?]]; auto.
      * intros [[->|?] ?]; auto.
    + split; [constructor; assumption|].
      intros file. rewrite elem_of_cons, Hmem. split.
      * intros [? ?]; auto.
      * intros [[->|?] ?]; [congruence|auto].
Qed.

Lemma filterM_all_kept (keep : jsstring -> option bool) (files : list jsstring) :
  Forall (fun file => keep file = Some true) files ->
  filterM keep files = Some files.
Proof.
  induction 1 as [|f files Hf Hfiles IH]; simpl; [reflexivity|].
  rewrite Hf, IH. reflexivity.
Qed.

Lemma filterM_none_kept (keep : jsstring -> option bool) (files : list jsstring) :
  Forall (fun file => keep file = Some false) files ->
  filterM keep files = Some [].
Proof.
  induction 1 as [|f files Hf Hfiles IH]; simpl; [reflexivity|].
  rewrite Hf, IH. reflexivity.
Qed.

(** X3.  What filterFilesToTranslate returns passes the filter again
    unchanged: whatever the patterns and whatever the regular-expression
    constructor does with them, when the filter returns a list (no
    pattern reached makes the constructor throw), applying the filter to
    that list, with the same patterns, returns it again and does not
    throw. *)
Theorem filterFilesToTranslate_idempotent
    (RegExp_new : RegExp.constructor)
    (files kept : list jsstring) (includePaths excludePaths : option (list jsstring)) :
  filterFilesToTranslate RegExp_new files includePaths excludePaths = Some kept ->
  filterFilesToTranslate RegExp_new kept includePaths excludePaths = Some kept.
Proof.
  unfold filterFilesToTranslate. intros H.
  apply filterM_Some in H as [_ Hmem].
  apply filterM_all_kept, Forall_forall. intros file Hin.
  apply Hmem in Hin as [_ ?]. assumption.
Qed.

Lemma filterFilesToTranslate_idempotent_witness :
  filterFilesToTranslate RegExp.reference [str "docs/setup.md"]
    (Some [str "docs/*"; str "docs/*/*"]) (Some [str "docs/internal/*"])
  = Some [str "docs/setup.md"].
Proof.
  apply (filterFilesToTranslate_idempotent RegExp.reference
           [str "guide.md"; str "docs/setup.md"; str "docs/internal/notes.md";
            str "docs/logo.png"; str "translations/en/docs/setup.md"]).
  vm_compute. reflexivity.
Defined.

(** X4.  No path built by getTranslatedPath survives the filter: whatever
    the source path, the languages and the patterns (even patterns that
    the constructor refuses, which are not reached), the filter drops it,
    so the files written for a translation are never taken as sources. *)
Theorem translated_paths_are_filtered_out
    (RegExp_new : RegExp.constructor)
    (sources : list jsstring) (targetLang baseLanguage : jsstring)
    (includePaths excludePaths : option (list jsstring)) :
  filterFilesToTranslate RegExp_new
    (map (fun sourcePath => getTranslatedPath sourcePath targetLang baseLanguage) sources)
    includePaths excludePaths
  = Some [].
Proof.
  unfold filterFilesToTranslate. apply filterM_none_kept, Forall_forall.
  intros file Hin. apply list_elem_of_In, in_map_iff in Hin as (sourcePath & <- & _).
  unfold keepFile, getTranslatedPath.
  assert (Hprefix : forall rest, JS.startsWith (str "translations/" ++ rest)
                                   (str "translations/") = true)
    by (intros rest; apply startsWith_prefix; eexists; reflexivity).
  rewrite Hprefix. destruct (_ && _); reflexivity.
Qed.

(** ** More on the webhook handler *)

Section HandlerExtras.

Variable RegExp_new : RegExp.constructor.
Variable hmac_sha256_hex : jsstring -> jsstring -> jsstring.
Variable GITHUB_WEBHOOK_SECRET : option jsstring.
Variable JSON_parse : jsstring -> option PushEvent.
Variable findRepository : Z -> option RepositoryRow.
Variable newTaskId : list TaskRow -> jsstring.

Local Abbreviation post :=
  (POST RegExp_new hmac_sha256_hex GITHUB_WEBHOOK_SECRET JSON_parse findRepository newTaskId).
Local Abbreviation post_all :=
  (POST_all RegExp_new hmac_sha256_hex GITHUB_WEBHOOK_SECRET JSON_parse findRepository newTaskId).
Local Abbreviation detect' :=
  (detect RegExp_new hmac_sha256_hex GITHUB_WEBHOOK_SECRET JSON_parse findRepository).

(** What holds when none of the early returns is taken. *)
Lemma detect_passes (req : Request) (repo : RepositoryRow)
    (files languages : list jsstring) :
  detect' req = inr (repo, files, languages) ->
  exists signature secret data cfg,
    x_hub_signature_256 req = Some signature
    /\ getWebhookSecret GITHUB_WEBHOOK_SECRET = Some secret
    /\ verifyWebhookSignature hmac_sha256_hex (body req) signature secret = true
    /\ x_github_event req = Some (str "push")
    /\ JSON_parse (body req) = Some data
    /\ JS.replace (ref data) (str "refs/heads/") [] = default_branch (repository data)
    /\ findRepository (github_id (repository data)) = Some repo
    /\ config repo = Some cfg
    /\ autoTranslate cfg = true
    /\ filterFilesToTranslate RegExp_new (collectChangedFiles (commits data))
         (includePaths cfg) (excludePaths cfg) = Some files
    /\ files <> []
    /\ targetLanguages cfg = Some languages
    /\ languages <> [].
Proof.
  unfold detect. intros H.
  destruct (x_hub_signature_256 req) as [signature|] eqn:Hsig; [|discriminate].
  destruct (negb (JS.truthy signature)); [discriminate|].
  destruct (getWebhookSecret GITHUB_WEBHOOK_SECRET) as [secret|] eqn:Hsecret; [|discriminate].
  destruct (verifyWebhookSignature hmac_sha256_hex (body req) signature secret) eqn:Hverify;
    [|discriminate].
  simpl in H. case_bool_decide as Hevent; [|discriminate]. simpl in H.
  destruct (JSON_parse (body req)) as [data|] eqn:Hparse; [|discriminate].
  cbv zeta in H. case_bool_decide as Hbranch; [|discriminate]. simpl in H.
  destruct (match head_commit data with
            | Some head => JS.startsWith (head_message head) SELF_COMMIT_MARKER
            | None => false
            end); [discriminate|].
  destruct (findRepository (github_id (repository data))) as [repo'|] eqn:Hfind;
    [|discriminate].
  destruct (config repo') as [cfg|] eqn:Hcfg; [|discriminate].
  destruct (autoTranslate cfg) eqn:Hauto; [|discriminate]. simpl in H.
  destruct (filterFilesToTranslate _ _ _) as [[|f fs]|] eqn:Hfilter; try discriminate.
  destruct (targetLanguages cfg) as [[|l ls]|] eqn:Hlang; try discriminate.
  injection H as <- <- <-.
  exists signature, secret, data, cfg. repeat split; try assumption; discriminate.
Qed.

(** X5.  A task is created only for a push notification that carries the
    digest of its body under the configured secret, on the default branch
    of an imported repository whose automatic translation is on and that
    has target languages.  The files of the task are what
    filterFilesToTranslate returns for the files the push adds or
    modifies and the patterns of the repository: a non-empty selection of
    those files, all ending in [.md] or [.mdx] and none under
    [translations/].  One task row is appended and one job is submitted to
    the queue, both incremental and with the same identifier. *)
Theorem created_task_is_legitimate
    (w : World) (req : Request) (task : jsstring) (files : list jsstring) :
  (post w req).1 = TranslationTaskCreated task files ->
  exists secret data repo cfg languages,
    getWebhookSecret GITHUB_WEBHOOK_SECRET = Some secret
    /\ x_hub_signature_256 req
       = Some (str "sha256=" ++ hmac_sha256_hex secret (body req))
    /\ x_github_event req = Some (str "push")
    /\ JSON_parse (body req) = Some data
    /\ JS.replace (ref data) (str "refs/heads/") [] = default_branch (repository data)
    /\ findRepository (github_id (repository data)) = Some repo
    /\ config repo = Some cfg
    /\ autoTranslate cfg = true
    /\ targetLanguages cfg = Some languages
    /\ languages <> []
    /\ filterFilesToTranslate RegExp_new (collectChangedFiles (commits data))
         (includePaths cfg) (excludePaths cfg) = Some files
    /\ files <> []
    /\ files `sublist_of` collectChangedFiles (commits data)
    /\ Forall (fun file =>
                 (str ".md" `suffix_of` file \/ str ".mdx" `suffix_of` file)
                 /\ ¬ str "translations/" `prefix_of` file) files
    /\ task = newTaskId (tasks w)
    /\ tasks (post w req).2
       = tasks w ++ [{| task_id := task; task_userId := repo_userId repo;
                        task_repositoryId := repo_id repo;
                        task_targetLanguages := languages;
                        task_type := INCREMENTAL |}]
    /\ queue (post w req).2
       = translationQueue_add (queue w)
           {| taskId := task; userId := repo_userId repo;
              repositoryId := repo_id repo;
              job_targetLanguages := languages;
              job_type := INCREMENTAL;
              changedFiles := files |}.
Proof.
  unfold POST.
  destruct (deduplicate (processedDeliveries w) req) as [cache|cache]; [discriminate|].
  destruct (detect' req) as [response|[[repo files'] languages]] eqn:Hdetect; simpl.
  - intros ->. destruct (detect_answers _ _ _ _ _ _ _ Hdetect task files). reflexivity.
  - intros [= <- <-].
    destruct (detect_passes _ _ _ _ Hdetect)
      as (signature & secret & data & cfg & Hsig & Hsecret & Hverify & Hevent & Hparse
          & Hbranch & Hfind & Hcfg & Hauto & Hfilter & Hfiles & Hlang & Hlanguages).
    apply verifyWebhookSignature_signed in Hverify. subst signature.
    pose proof Hfilter as Hkept. unfold filterFilesToTranslate in Hkept.
    apply filterM_Some in Hkept as [Hsub Hmem].
    exists secret, data, repo, cfg, languages.
    split_and!; try assumption; try reflexivity.
    apply Forall_forall. intros file Hin. apply Hmem in Hin as [_ Hkeep].
    apply keepFile_true in Hkeep. exact Hkeep.
Qed.

(** X7.  A request without a delivery identifier (no header, or an empty
    one) is never answered as a duplicate and leaves the delivery cache as
    it was: it is neither swept nor extended. *)
Theorem request_without_delivery_id (w : World) (req : Request) :
  x_github_delivery req = None \/ x_github_delivery req = Some [] ->
  (post w req).1 <> DuplicateDeliveryIgnored
  /\ processedDeliveries (post w req).2 = processedDeliveries w.
Proof.
  intros Hid.
  assert (Hdedup : deduplicate (processedDeliveries w) req = inr (processedDeliveries w))
    by (unfold deduplicate; destruct Hid as [-> | ->]; reflexivity).
  split.
  - unfold POST. rewrite Hdedup.
    destruct (detect' req) as [response|[[? ?] ?]] eqn:Hdetect; simpl; [|discriminate].
    intros ->. revert Hdetect. unfold detect.
    repeat (match goal with
            | |- context [match ?x with _ => _ end] => destruct x
            end; try discriminate).
  - rewrite POST_cache, Hdedup. reflexivity.
Qed.

(** A request with another identifier, or with none, does not renew the
    entry of an identifier. *)
Lemma POST_other_entry (w : World) (req : Request) (id : jsstring) (e : Z) :
  x_github_delivery req <> Some id ->
  processedDeliveries (post w req).2 !! id = Some e ->
  processedDeliveries w !! id = Some e.
Proof.
  intros Hother. rewrite POST_cache. unfold deduplicate.
  destruct (x_github_delivery req) as [d|]; [|auto].
  destruct (JS.truthy d); [|auto].
  destruct (cleanupDeliveryCache _ _ !! d).
  - intros H. apply cleanup_lookup in H as [? _]. assumption.
  - rewrite lookup_insert_ne by congruence.
    intros H. apply cleanup_lookup in H as [? _]. assumption.
Qed.

Lemma POST_all_other_entry (reqs : list Request) (w : World) (id : jsstring) (e : Z) :
  Forall (fun r => x_github_delivery r <> Some id) reqs ->
  processedDeliveries (post_all w reqs) !! id = Some e ->
  processedDeliveries w !! id = Some e.
Proof.
  revert w. induction reqs as [|req reqs IH]; intros w Hall; [auto|].
  inversion Hall; subst. simpl. intros H.
  apply IH in H; [|assumption]. eapply POST_other_entry; eassumption.
Qed.

(** X8.  A recorded delivery expires.  When a request is the first sight
    of its identifier, a request with the same identifier that arrives
    more than 60 seconds after the first was recorded is handled like a
    first one, whatever requests with other identifiers came in between:
    it is not answered as a duplicate and the identifier is recorded
    anew, for 60 seconds from then. *)
Theorem delivery_accepted_again_after_ttl
    (w : World) (first second : Request) (between : list Request) (id : jsstring) :
  x_github_delivery first = Some id ->
  x_github_delivery second = Some id ->
  id <> [] ->
  (forall e, processedDeliveries w !! id = Some e -> now_cleanup first > e) ->
  Forall (fun r => x_github_delivery r <> Some id) between ->
  now_cleanup second > now_record first + DELIVERY_CACHE_TTL ->
  let w2 := post_all (post w first).2 between in
  (post w2 second).1 <> DuplicateDeliveryIgnored
  /\ processedDeliveries (post w2 second).2 !! id
     = Some (now_record second + DELIVERY_CACHE_TTL).
Proof.
  intros Hfirst Hsecond Hne Hfresh Hbetween Hlate w2.
  destruct (POST_first_sight RegExp_new hmac_sha256_hex GITHUB_WEBHOOK_SECRET JSON_parse
              findRepository newTaskId w first id Hfirst Hne Hfresh)
    as [_ Hrecorded].
  apply POST_first_sight; try assumption.
  intros e He. apply POST_all_other_entry in He; [|assumption].
  rewrite Hrecorded in He. injection He as <-. exact Hlate.
Qed.

End HandlerExtras.

Lemma created_task_is_legitimate_witness :
  exists data,
    Scenario.parse (str "payload M") = Some data
    /\ [str "docs/a.md"; str "README.md"] `sublist_of` collectChangedFiles (commits data).
Proof.
  destruct (created_task_is_legitimate RegExp.reference Scenario.hmac (Some Scenario.secret)
              Scenario.parse Scenario.find Scenario.newTaskId Scenario.empty
              (Scenario.request "delivery-2" true "payload M" 1000)
              (str "task-") [str "docs/a.md"; str "README.md"])
    as (secret & data & repo & cfg & languages & _ & _ & _ & Hparse & _ & _ & _ & _
        & _ & _ & _ & _ & Hsub & _).
  - vm_compute. reflexivity.
  - exists data. split; [exact Hparse|exact Hsub].
Defined.

Lemma request_without_delivery_id_witness :
  let req := {| x_github_delivery := None;
                x_hub_signature_256 :=
                  Some (str "sha256=" ++ Scenario.hmac Scenario.secret (str "payload A"));
                x_github_event := Some (str "push");
                body := str "payload A";
                now_cleanup := 1000; now_record := 1000 |} in
  (Scenario.handle Scenario.empty req).1 <> DuplicateDeliveryIgnored
  /\ processedDeliveries (Scenario.handle Scenario.empty req).2 = ∅.
Proof.
  intros req.
  apply (request_without_delivery_id RegExp.reference Scenario.hmac (Some Scenario.secret)
           Scenario.parse Scenario.find Scenario.newTaskId Scenario.empty req).
  left. reflexivity.
Defined.

Lemma delivery_accepted_again_after_ttl_witness :
  let first := Scenario.request "delivery-1" true "payload A" 1000 in
  let between := [Scenario.request "delivery-9" true "payload M" 30000] in
  let second := Scenario.request "delivery-1" true "payload A" 61001 in
  (Scenario.handle
     (Scenario.handle_all (Scenario.handle Scenario.empty first).2 between)
     second).1 <> DuplicateDeliveryIgnored.
Proof.
  intros first between second.
  destruct (delivery_accepted_again_after_ttl RegExp.reference Scenario.hmac (Some Scenario.secret)
              Scenario.parse Scenario.find Scenario.newTaskId Scenario.empty
              first second between (str "delivery-1"))
    as [Hsecond _].
  - reflexivity.
  - reflexivity.
  - discriminate.
  - intros e He. vm_compute in He. discriminate.
  - repeat constructor. vm_compute. discriminate.
  - vm_compute. reflexivity.
  - exact Hsecond.
Defined.

(** ** What matchPath matches *)

Lemma replace_double_star_Forall (P : ascii -> Prop) (pattern : jsstring) :
  P "."%char -> P "*"%char ->
  Forall P pattern -> Forall P (replace_double_star pattern).
Proof.
  intros Hdot Hstar.
  enough (H : (Forall P pattern -> Forall P (replace_double_star pattern))
              /\ forall c, Forall P (c :: pattern) ->
                    Forall P (replace_double_star (c :: pattern)))
    by apply H.
  induction pattern as [|c2 r [IH1 IH2]].
  - split; [intros _; constructor|]. intros c H. exact H.
  - split; [apply IH2|]. intros c1 H. rewrite replace_double_star_pair.
    inversion H as [|? ? H1 H2]; subst. inversion H2; subst.
    destruct (_ && _).
    + repeat constructor; try assumption. apply IH1. assumption.
    + constructor; [assumption|]. apply IH2. assumption.
Qed.

Lemma globChar_plain (c : ascii) : globChar c = true -> plainChar c = true.
Proof. unfold globChar. rewrite !andb_true_iff. tauto. Qed.

Lemma globItems_no_assertion (c : ascii) :
  globChar c = true ->
  globItems c = if RegExp.chr_is c "*" then [RegExp.Star RegExp.NotSlash]
                else [RegExp.Once (RegExp.Lit c)].
Proof.
  unfold globChar, globItems. rewrite !andb_true_iff, !negb_true_iff.
  intros [[_ ->] ->]. reflexivity.
Qed.

(** Without [^] in the pattern, where the match starts does not matter. *)
Lemma run_glob_anywhere (q : jsstring) :
  Forall (fun c => globChar c = true) q ->
  forall s a b,
    RegExp.run (flat_map globItems q ++ [RegExp.Eol]) a s
    = RegExp.run (flat_map globItems q ++ [RegExp.Eol]) b s.
Proof.
  induction 1 as [|c q Hc Hq IH]; intros s a b.
  - destruct s; reflexivity.
  - change (flat_map globItems (c :: q)) with (globItems c ++ flat_map globItems q).
    rewrite <- app_assoc, (globItems_no_assertion _ Hc).
    destruct (RegExp.chr_is c "*"); [|reflexivity].
    change ([RegExp.Star RegExp.NotSlash] ++ ?x) with (RegExp.Star RegExp.NotSlash :: x).
    revert a b. induction s as [|c' s IHs]; intros a b; rewrite !run_star.
    + rewrite (IH [] a b). reflexivity.
    + rewrite (IH (c' :: s) a b). reflexivity.
Qed.

Lemma run_star_intro (a : RegExp.atom) (r : list RegExp.item) (s1 s2 : jsstring) :
  Forall (fun c => RegExp.accepts a c = true) s1 ->
  (forall at_start, RegExp.run r at_start s2 = true) ->
  forall at_start, RegExp.run (RegExp.Star a :: r) at_start (s1 ++ s2) = true.
Proof.
  intros Hs1 Hrun. induction Hs1 as [|c s1 Hc Hs1 IH]; intros at_start; rewrite run_star.
  - simpl. rewrite Hrun. reflexivity.
  - simpl. rewrite Hc, IH. apply orb_true_r.
Qed.

Lemma accepts_NotSlash (s : jsstring) :
  Forall (fun c => RegExp.accepts RegExp.NotSlash c = true) s <-> "/"%char ∉ s.
Proof.
  rewrite Forall_forall. split.
  - intros H Hin. specialize (H _ Hin). vm_compute in H. discriminate.
  - intros H c Hc. simpl. unfold RegExp.chr_is.
    apply negb_true_iff, bool_decide_eq_false. intros [= ->]. contradiction.
Qed.

Lemma run_star_glob (q : jsstring) (s : jsstring) (at_start : bool) :
  Forall (fun c => globChar c = true) q ->
  RegExp.run (RegExp.Star RegExp.NotSlash :: flat_map globItems q ++ [RegExp.Eol])
             at_start s = true
  <-> exists segment rest,
        s = segment ++ rest /\ ("/"%char ∉ segment)
        /\ RegExp.run (flat_map globItems q ++ [RegExp.Eol]) false rest = true.
Proof.
  intros Hq. split.
  - intros H. apply run_star_inv in H as (s1 & s2 & at' & -> & Hs1 & Hrun).
    exists s1, s2. split; [reflexivity|]. split; [apply accepts_NotSlash; assumption|].
    rewrite (run_glob_anywhere q Hq s2 false at'). assumption.
  - intros (segment & rest & -> & Hsegment & Hrun).
    apply run_star_intro; [apply accepts_NotSlash; assumption|].
    intros a. rewrite (run_glob_anywhere q Hq rest a false). assumption.
Qed.

Lemma globMatches_nil_inv (path : jsstring) : globMatches [] path -> path = [].
Proof. inversion 1. reflexivity. Qed.

Lemma globMatches_char_inv (c : ascii) (pattern path : jsstring) :
  c <> "*"%char ->
  globMatches (c :: pattern) path ->
  exists rest, path = c :: rest /\ globMatches pattern rest.
Proof. intros Hc H. inversion H; subst; try congruence. eauto. Qed.

Lemma globMatches_star_inv (pattern path : jsstring) :
  head pattern <> Some "*"%char ->
  globMatches ("*"%char :: pattern) path ->
  exists segment rest,
    path = segment ++ rest /\ ("/"%char ∉ segment) /\ globMatches pattern rest.
Proof.
  intros Hhead H. inversion H; subst; try congruence; [eauto|].
  destruct Hhead. reflexivity.
Qed.

Lemma globMatches_double_star_inv (pattern path : jsstring) :
  globMatches ("*"%char :: "*"%char :: pattern) path ->
  exists segment rest,
    path = "."%char :: segment ++ rest /\ ("/"%char ∉ segment)
    /\ globMatches pattern rest.
Proof.
  intros H. inversion H; subst; try congruence; [|eauto].
  match goal with Hh : head _ <> _ |- _ => destruct Hh; reflexivity end.
Qed.

(** The compiled pattern and the relation agree. *)
Lemma run_globMatches (pattern : jsstring) :
  Forall (fun c => globChar c = true) pattern ->
  forall at_start path,
    RegExp.run (flat_map globItems (replace_double_star pattern) ++ [RegExp.Eol])
               at_start path = true
    <-> globMatches pattern path.
Proof.
  set (S := fun p : jsstring =>
              Forall (fun c => globChar c = true) p ->
              forall at_start path,
                RegExp.run (flat_map globItems (replace_double_star p) ++ [RegExp.Eol])
                           at_start path = true
                <-> globMatches p path).
  enough (H : S pattern /\ forall c, S (c :: pattern)) by apply H.
  assert (Hone : forall c r, S r -> replace_double_star (c :: r) = c :: replace_double_star r ->
                   (RegExp.chr_is c "*" = true -> head r <> Some "*"%char) -> S (c :: r)).
  { intros c r Sr Heq Hhead Hall at_start path.
    inversion Hall as [|? ? Hc Hr]; subst.
    pose proof (replace_double_star_Forall _ r eq_refl eq_refl Hr) as Hq.
    rewrite Heq.
    change (flat_map globItems (c :: replace_double_star r))
      with (globItems c ++ flat_map globItems (replace_double_star r)).
    rewrite <- app_assoc, (globItems_no_assertion _ Hc).
    destruct (RegExp.chr_is c "*") eqn:Hstar.
    - apply (chr_is_true _ "*" "*"%char eq_refl) in Hstar as ->.
      change ([RegExp.Star RegExp.NotSlash] ++ ?x) with (RegExp.Star RegExp.NotSlash :: x).
      rewrite (run_star_glob _ _ _ Hq). split.
      + intros (segment & rest & -> & Hsegment & Hrun).
        apply glob_star; [auto|assumption|]. apply (Sr Hr false rest). assumption.
      + intros H. apply globMatches_star_inv in H as (segment & rest & -> & ? & H); [|auto].
        exists segment, rest. split; [reflexivity|]. split; [assumption|].
        apply (Sr Hr false rest). assumption.
    - assert (Hc' : c <> "*"%char)
        by (intros ->; vm_compute in Hstar; discriminate).
      simpl. split.
      + destruct path as [|c' path]; [discriminate|].
        rewrite andb_true_iff, bool_decide_eq_true. intros [-> Hrun].
        apply glob_char; [assumption|]. apply (Sr Hr false path). assumption.
      + intros H. apply globMatches_char_inv in H as (rest & -> & H); [|assumption].
        rewrite bool_decide_eq_true_2 by reflexivity. simpl.
        apply (Sr Hr false rest). assumption. }
  induction pattern as [|c2 r [IH1 IH2]].
  - split.
    + intros _ at_start path. simpl. split.
      * destruct path; [constructor|discriminate].
      * intros H. apply globMatches_nil_inv in H as ->. reflexivity.
    + intros c. apply Hone; [|reflexivity|intros _; discriminate].
      intros _ at_start path. simpl. split.
      * destruct path; [constructor|discriminate].
      * intros H. apply globMatches_nil_inv in H as ->. reflexivity.
  - split; [apply IH2|]. intros c1.
    destruct (RegExp.chr_is c1 "*" && RegExp.chr_is c2 "*") eqn:Hpair.
    + apply andb_true_iff in Hpair as [H1 H2].
      apply (chr_is_true _ "*" "*"%char eq_refl) in H1, H2. subst c1 c2.
      intros Hall at_start path.
      inversion Hall as [|? ? _ Hall']; subst. inversion Hall' as [|? ? _ Hr]; subst.
      pose proof (replace_double_star_Forall _ r eq_refl eq_refl Hr) as Hq.
      change (replace_double_star ("*"%char :: "*"%char :: r))
        with ("."%char :: "*"%char :: replace_double_star r).
      change (flat_map globItems ("."%char :: "*"%char :: replace_double_star r)
              ++ [RegExp.Eol])
        with (RegExp.Once (RegExp.Lit "."%char)
                :: RegExp.Star RegExp.NotSlash
                :: flat_map globItems (replace_double_star r) ++ [RegExp.Eol]).
      split.
      * destruct path as [|c' path]; [discriminate|].
        change (RegExp.run (RegExp.Once ?a :: ?x) at_start (c' :: path))
          with (RegExp.accepts a c' && RegExp.run x false path).
        rewrite andb_true_iff. simpl RegExp.accepts. rewrite bool_decide_eq_true.
        intros [-> Hrun].
        apply (run_star_glob _ _ _ Hq) in Hrun as (segment & rest & -> & ? & Hrun).
        apply glob_double_star; [assumption|]. apply (IH1 Hr false rest). assumption.
      * intros H. apply globMatches_double_star_inv in H as (segment & rest & -> & ? & H).
        change (RegExp.run (RegExp.Once ?a :: ?x) at_start ("."%char :: ?p))
          with (RegExp.accepts a "."%char && RegExp.run x false p).
        apply andb_true_iff. split; [reflexivity|].
        apply (run_star_glob _ _ _ Hq). exists segment, rest.
        split; [reflexivity|]. split; [assumption|].
        apply (IH1 Hr false rest). assumption.
    + apply Hone; [apply IH2|rewrite replace_double_star_pair, Hpair; reflexivity|].
      intros H1. rewrite H1 in Hpair. simpl in Hpair. simpl.
      intros [= ->]. vm_compute in Hpair. discriminate.
Qed.


Lemma matchPath_run (RegExp_new : RegExp.constructor) (path pattern : jsstring) :
  RegExp.conforms RegExp_new ->
  Forall (fun c => globChar c = true) pattern ->
  matchPath RegExp_new path pattern
  = Some (RegExp.run (flat_map globItems (replace_double_star pattern) ++ [RegExp.Eol])
                     true path).
Proof.
  intros Hconforms Hglob. apply (matchPath_plain _ Hconforms).
  eapply Forall_impl; [exact Hglob|apply globChar_plain].
Qed.

Lemma globMatches_literal (pattern path : jsstring) :
  Forall (fun c => literalChar c = true) pattern ->
  globMatches pattern path <-> path = pattern.
Proof.
  intros Hlit. revert path. induction Hlit as [|c pattern Hc Hlit IH]; intros path.
  - split; [apply globMatches_nil_inv|intros ->; constructor].
  - assert (Hc' : c <> "*"%char).
    { intros ->. vm_compute in Hc. discriminate. }
    split.
    + intros H. apply globMatches_char_inv in H as (rest & -> & H); [|assumption].
      apply IH in H as ->. reflexivity.
    + intros ->. apply glob_char; [assumption|]. apply IH. reflexivity.
Qed.

(** X9.  For a pattern written without any of [\ + ? ( ) [ ] { } | ^ $],
    matchPath returns (it does not throw) and says whether the whole path
    is matched in this sense: a character matches itself, a dot
    included; a lone [*] matches any run, empty or not, of characters
    other than [/]; a pair [**] matches a dot followed by such a run.
    The regular-expression constructor is any that reads the sources of
    the fragment as the module RegExp does. *)
Theorem matchPath_globMatches (RegExp_new : RegExp.constructor) (path pattern : jsstring) :
  RegExp.conforms RegExp_new ->
  Forall (fun c => globChar c = true) pattern ->
  exists b, matchPath RegExp_new path pattern = Some b
            /\ (b = true <-> globMatches pattern path).
Proof.
  intros Hconforms Hglob. rewrite (matchPath_run _ _ _ Hconforms Hglob).
  eexists. split; [reflexivity|]. apply run_globMatches. assumption.
Qed.

Lemma matchPath_globMatches_witness :
  exists b, matchPath RegExp.reference (str "docs/setup.md") (str "docs/*.md") = Some b
            /\ (b = true <-> globMatches (str "docs/*.md") (str "docs/setup.md")).
Proof.
  apply (matchPath_globMatches RegExp.reference _ _ reference_conforms).
  unfold str. simpl. repeat (constructor; [reflexivity|]). constructor.
Defined.

(** X10.  A pattern without wildcard (none of [* \ + ? ( ) [ ] { } | ^ $])
    matches one path, itself: its dots are literal and the match is
    anchored at both ends.  The file paths that the configuration page
    saves as include paths are used as such patterns.  The
    regular-expression constructor is any that reads the sources of the
    fragment as the module RegExp does. *)
Theorem matchPath_literal (RegExp_new : RegExp.constructor) (path pattern : jsstring) :
  RegExp.conforms RegExp_new ->
  Forall (fun c => literalChar c = true) pattern ->
  matchPath RegExp_new path pattern = Some (bool_decide (path = pattern)).
Proof.
  intros Hconforms Hlit.
  assert (Hglob : Forall (fun c => globChar c = true) pattern).
  { eapply Forall_impl; [exact Hlit|]. intros c. unfold literalChar.
    rewrite andb_true_iff. tauto. }
  rewrite (matchPath_run _ _ _ Hconforms Hglob). f_equal.
  pose proof (run_globMatches pattern Hglob true path) as Hrun.
  rewrite (globMatches_literal _ _ Hlit) in Hrun.
  destruct (RegExp.run _ true path).
  - symmetry. apply bool_decide_eq_true_2, Hrun. reflexivity.
  - symmetry. apply bool_decide_eq_false_2. intros H. apply Hrun in H. discriminate.
Qed.

Lemma matchPath_literal_witness :
  matchPath RegExp.reference (str "docs/setupXmd") (str "docs/setup.md") = Some false
  /\ matchPath RegExp.reference (str "docs/setup.md") (str "docs/setup.md") = Some true.
Proof.
  assert (Hlit : Forall (fun c => literalChar c = true) (str "docs/setup.md")).
  { unfold str. simpl. repeat (constructor; [reflexivity|]). constructor. }
  split; rewrite (matchPath_literal _ _ _ reference_conforms Hlit); reflexivity.
Defined.

(** ** More on the filename transliterator *)

Lemma join_cons (sep : jsstring) (c : ascii) (h : jsstring) (r : list jsstring) :
  JS.join sep ((c :: h) :: r) = c :: JS.join sep (h :: r).
Proof. destruct r; reflexivity. Qed.

Lemma join_split (sep : ascii) (s : jsstring) :
  JS.join [sep] (JS.split sep s) = s.
Proof.
  induction s as [|c s IH]; [reflexivity|]. simpl JS.split.
  case_bool_decide as Hc.
  - subst c. destruct (JS.split sep s) as [|h r] eqn:Hsplit.
    + destruct (split_not_nil _ _ Hsplit).
    + change (JS.join [sep] ([] :: h :: r)) with (sep :: JS.join [sep] (h :: r)).
      rewrite IH. reflexivity.
  - destruct (JS.split sep s) as [|h r] eqn:Hsplit.
    + destruct (split_not_nil _ _ Hsplit).
    + rewrite join_cons, IH. reflexivity.
Qed.

Lemma join_snoc (sep : ascii) (dirs : list jsstring) (filename : jsstring) :
  JS.join [sep] (dirs ++ [filename])
  = flat_map (fun d => d ++ [sep]) dirs ++ filename.
Proof.
  induction dirs as [|d dirs IH]; [reflexivity|].
  change (JS.join [sep] ((d :: dirs) ++ [filename]))
    with (JS.join [sep] (d :: dirs ++ [filename])).
  destruct (dirs ++ [filename]) as [|x xs] eqn:Hx.
  - apply app_eq_nil in Hx as [_ Hx]. discriminate.
  - change (JS.join [sep] (d :: x :: xs)) with (d ++ [sep] ++ JS.join [sep] (x :: xs)).
    rewrite IH. simpl. rewrite <- !app_assoc. reflexivity.
Qed.

(** A string without separator that ends the path ends its last segment. *)
Lemma suffix_of_last_segment (sep : ascii) (dirs : list jsstring) (filename e : jsstring) :
  sep ∉ e ->
  e `suffix_of` JS.join [sep] (dirs ++ [filename]) ->
  e `suffix_of` filename.
Proof.
  intros He. rewrite join_snoc. intros [k Hk].
  apply app_eq_inv in Hk as [(k' & Hpre & ->)|(k' & -> & ->)].
  - destruct k' as [|a k'] using rev_ind; [exists []; reflexivity|].
    clear IHk'. exfalso. apply He.
    destruct dirs as [|d dirs] using rev_ind.
    + simpl in Hpre. symmetry in Hpre. apply app_eq_nil in Hpre as [_ Hpre].
      apply app_eq_nil in Hpre as [_ Hpre]. discriminate.
    + clear IHdirs. rewrite flat_map_app in Hpre. simpl in Hpre.
      rewrite app_nil_r, !app_assoc in Hpre.
      apply app_inj_tail in Hpre as [_ ->].
      rewrite !elem_of_app. left. right. apply list_elem_of_here.
  - exists k'. reflexivity.
Qed.

Lemma extension_app (name suffix : jsstring) :
  name <> [] -> "."%char ∉ suffix ->
  extension (name ++ "."%char :: suffix) = "."%char :: suffix.
Proof.
  intros Hname Hsuffix. unfold extension.
  rewrite lastIndexOf_app by assumption.
  destruct (Z.ltb_spec 0 (Z.of_nat (length name))) as [_|H];
    [|destruct name; [congruence|simpl in H; lia]].
  unfold JS.substringFrom. rewrite Nat2Z.id. apply drop_app_length.
Qed.

Lemma translateDirectory_ascii (part : jsstring) :
  containsNonAscii (translateDirectory part) = false.
Proof.
  unfold translateDirectory.
  destruct (containsNonAscii part) eqn:Hpart; [|assumption].
  assert (Hstrip : containsNonAscii (stripNonAscii part) = false).
  { apply containsNonAscii_false, stripNonAscii_Forall; [reflexivity|].
    apply Forall_forall. auto. }
  unfold orElse.
  destruct (mapping_get part) as [t|] eqn:Hget.
  - apply mapping_get_Some in Hget as (k & Hin).
    destruct (mapping_values k t Hin) as [_ Ht]. apply segmentChar_ascii in Ht.
    repeat (match goal with |- context [if ?b then _ else _] => destruct b end);
      try assumption; reflexivity.
  - destruct (JS.truthy (stripNonAscii part)); [assumption|reflexivity].
Qed.

Lemma translateDirectory_of_ascii (part : jsstring) :
  containsNonAscii part = false -> translateDirectory part = part.
Proof. unfold translateDirectory. intros ->. reflexivity. Qed.

(** The segments of the path translateFilename returns. *)
Lemma translateFilename_split (originalPath : jsstring) (dirs : list jsstring)
    (filename : jsstring) :
  JS.split "/" originalPath = dirs ++ [filename] ->
  JS.split "/" (translateFilename originalPath)
  = if containsNonAscii (nameWithoutExt filename)
    then (translateDirectory <$> dirs)
           ++ [translateName (nameWithoutExt filename) ++ extension filename]
    else dirs ++ [filename].
Proof.
  intros Hsplit. rewrite (translateFilename_parts _ _ _ Hsplit).
  destruct (containsNonAscii (nameWithoutExt filename)) eqn:Hname; simpl;
    [|assumption].
  pose proof (split_no_separator "/" originalPath) as Hparts.
  rewrite Hsplit in Hparts. apply Forall_app in Hparts as [Hdirs Hfile].
  rewrite Forall_singleton in Hfile.
  assert (Hchars : Forall (fun c => c <> "/"%char) filename)
    by (apply Forall_forall; intros c Hc ->; contradiction).
  assert (Hstem : "/"%char ∉ nameWithoutExt filename).
  { intros Hin. pose proof (nameWithoutExt_Forall _ _ Hchars) as H.
    rewrite Forall_forall in H. apply (H _ Hin). reflexivity. }
  destruct (translateName_segment _ Hstem) as [_ Hsegment].
  change (str "/") with ["/"%char]. apply split_join.
  - intros H. apply app_eq_nil in H as [_ H]. discriminate.
  - apply Forall_app. split.
    + apply Forall_fmap. eapply Forall_impl; [exact Hdirs|].
      intros part. apply translateDirectory_no_separator.
    + apply Forall_singleton. rewrite elem_of_app. intros [Hin|Hin].
      * revert Hin. apply segmentChar_no_separator. assumption.
      * pose proof (extension_Forall _ _ Hchars) as H.
        rewrite Forall_forall in H. apply (H _ Hin). reflexivity.
Qed.

(** X11.  translateFilename keeps the shape of the path: the result has as
    many segments as the original, and a directory segment that is ASCII
    is found unchanged at its position. *)
Theorem translateFilename_keeps_shape (originalPath : jsstring) :
  length (JS.split "/" (translateFilename originalPath))
  = length (JS.split "/" originalPath)
  /\ (forall dirs filename i d,
        JS.split "/" originalPath = dirs ++ [filename] ->
        dirs !! i = Some d ->
        containsNonAscii d = false ->
        JS.split "/" (translateFilename originalPath) !! i = Some d).
Proof.
  split.
  - destruct (split_snoc "/" originalPath) as (dirs & filename & Hsplit).
    rewrite (translateFilename_split _ _ _ Hsplit), Hsplit.
    destruct (containsNonAscii _); [|reflexivity].
    rewrite !length_app, length_fmap. reflexivity.
  - intros dirs filename i d Hsplit Hi Hd.
    rewrite (translateFilename_split _ _ _ Hsplit).
    destruct (containsNonAscii (nameWithoutExt filename)).
    + apply lookup_app_l_Some. rewrite list_lookup_fmap, Hi. simpl.
      rewrite translateDirectory_of_ascii by assumption. reflexivity.
    + apply lookup_app_l_Some. assumption.
Qed.

Lemma translateFilename_keeps_shape_witness :
  JS.split "/" (translateFilename (str "docs/文档/介绍.md")) !! 0%nat = Some (str "docs").
Proof.
  destruct (translateFilename_keeps_shape (str "docs/文档/介绍.md")) as [_ H].
  apply (H [str "docs"; str "文档"] (str "介绍.md")); vm_compute; reflexivity.
Defined.

(** X12.  When the name of the file, without its extension, contains a
    non-ASCII character, every segment of the result is ASCII, the
    extension apart: each directory has an ASCII name, and the file name
    is a non-empty ASCII name followed by the original extension. *)
Theorem translateFilename_ascii_segments
    (originalPath : jsstring) (dirs : list jsstring) (filename : jsstring) :
  JS.split "/" originalPath = dirs ++ [filename] ->
  containsNonAscii (nameWithoutExt filename) = true ->
  exists dirs' name,
    JS.split "/" (translateFilename originalPath)
    = dirs' ++ [name ++ extension filename]
    /\ length dirs' = length dirs
    /\ Forall (fun d => containsNonAscii d = false) dirs'
    /\ name <> []
    /\ containsNonAscii name = false.
Proof.
  intros Hsplit Hname.
  rewrite (translateFilename_split _ _ _ Hsplit), Hname.
  pose proof (split_no_separator "/" originalPath) as Hparts.
  rewrite Hsplit in Hparts. apply Forall_app in Hparts as [_ Hfile].
  rewrite Forall_singleton in Hfile.
  assert (Hstem : "/"%char ∉ nameWithoutExt filename).
  { intros Hin.
    assert (Hchars : Forall (fun c => c <> "/"%char) filename)
      by (apply Forall_forall; intros c Hc ->; contradiction).
    pose proof (nameWithoutExt_Forall _ _ Hchars) as H.
    rewrite Forall_forall in H. apply (H _ Hin). reflexivity. }
  destruct (translateName_segment _ Hstem) as [Htruthy Hsegment].
  exists (translateDirectory <$> dirs), (translateName (nameWithoutExt filename)).
  split_and!.
  - reflexivity.
  - apply length_fmap.
  - apply Forall_fmap, Forall_forall. intros d _. apply translateDirectory_ascii.
  - intros H. rewrite H in Htruthy. discriminate.
  - apply segmentChar_ascii. assumption.
Qed.

Lemma translateFilename_ascii_segments_witness :
  exists dirs' name,
    JS.split "/" (translateFilename (str "你好/文档/a你好b.tar.gz"))
    = dirs' ++ [name ++ extension (str "a你好b.tar.gz")]
    /\ length dirs' = 2%nat
    /\ Forall (fun d => containsNonAscii d = false) dirs'
    /\ name <> []
    /\ containsNonAscii name = false.
Proof.
  apply (translateFilename_ascii_segments _ [str "你好"; str "文档"]);
    vm_compute; reflexivity.
Defined.

(** X13.  translateFilename keeps an ASCII extension: a path that ends
    with a dot followed by ASCII characters other than [.] and [/] (such
    as [.md] or [.mdx]) is turned into a path that ends the same way, so
    a Markdown file stays one. *)
Theorem translateFilename_keeps_extension (originalPath suffix : jsstring) :
  "."%char ∉ suffix -> "/"%char ∉ suffix -> containsNonAscii suffix = false ->
  ("."%char :: suffix) `suffix_of` originalPath ->
  ("."%char :: suffix) `suffix_of` translateFilename originalPath.
Proof.
  intros Hdot Hslash Hascii Hends.
  destruct (split_snoc "/" originalPath) as (dirs & filename & Hsplit).
  rewrite (translateFilename_parts _ _ _ Hsplit).
  destruct (containsNonAscii (nameWithoutExt filename)) eqn:Hname; simpl;
    [|assumption].
  assert (He : "/"%char ∉ "."%char :: suffix)
    by (rewrite not_elem_of_cons; split; [discriminate|assumption]).
  rewrite <- (join_split "/" originalPath), Hsplit in Hends.
  apply suffix_of_last_segment in Hends as [name ->]; [|assumption].
  destruct name as [|c name].
  - exfalso.
    assert (Hidx : JS.lastIndexOf ([] ++ "."%char :: suffix) "." = 0)
      by (rewrite lastIndexOf_app by assumption; reflexivity).
    unfold nameWithoutExt in Hname. rewrite Hidx in Hname.
    change (containsNonAscii suffix = true) in Hname. congruence.
  - rewrite extension_app by (assumption || discriminate).
    change (str "/") with ["/"%char]. rewrite join_snoc.
    eexists (_ ++ _). rewrite <- app_assoc. reflexivity.
Qed.

Lemma translateFilename_keeps_extension_witness :
  str ".md" `suffix_of` translateFilename (str "文档/你好世界.md").
Proof.
  apply (translateFilename_keeps_extension _ (str "md")).
  - vm_compute. intros H. repeat (apply elem_of_cons in H as [H|H]; [discriminate|]).
    inversion H.
  - vm_compute. intros H. repeat (apply elem_of_cons in H as [H|H]; [discriminate|]).
    inversion H.
  - reflexivity.
  - exists (str "文档/你好世界"). reflexivity.
Defined.

(** The keys of the dictionary are distinct non-empty words without [.]
    and [/] that contain a non-ASCII character, and looking a key up
    gives its value. *)
Lemma mapping_keys (k v : jsstring) :
  (k, v) ∈ FILENAME_MAPPING ->
  mapping_get k = Some v /\ containsNonAscii k = true
  /\ ("."%char ∉ k) /\ ("/"%char ∉ k) /\ k <> [].
Proof.
  assert (H : forallb (fun kv : jsstring * jsstring =>
                         bool_decide (mapping_get kv.1 = Some kv.2)
                         && containsNonAscii kv.1
                         && forallb (fun c => negb (bool_decide (c = "."%char))
                                              && negb (bool_decide (c = "/"%char))) kv.1
                         && JS.truthy kv.1)
                      FILENAME_MAPPING = true) by (vm_compute; reflexivity).
  rewrite forallb_forall in H. intros Hin.
  apply list_elem_of_In, H in Hin. simpl in Hin.
  rewrite !andb_true_iff, bool_decide_eq_true in Hin.
  destruct Hin as [[[Hget Hnon] Hchars] Htruthy].
  rewrite forallb_forall in Hchars.
  split_and!; try assumption.
  - intros Hc. apply list_elem_of_In, Hchars in Hc. discriminate.
  - intros Hc. apply list_elem_of_In, Hchars in Hc. discriminate.
  - intros ->. discriminate.
Qed.

Lemma translateName_dictionary (k v : jsstring) :
  (k, v) ∈ FILENAME_MAPPING -> translateName k = v.
Proof.
  intros Hin. destruct (mapping_keys _ _ Hin) as (Hget & _).
  destruct (mapping_values _ _ Hin) as [Htruthy Hv].
  unfold translateName. rewrite Hget, Htruthy.
  rewrite Htruthy, (segmentChar_ascii _ Hv). reflexivity.
Qed.

(** A file whose name is a key of the dictionary, under ASCII
    directories. *)
Lemma translateFilename_dictionary_key
    (dirs : list jsstring) (k v suffix : jsstring) :
  (k, v) ∈ FILENAME_MAPPING ->
  Forall (fun d => ("/"%char ∉ d) /\ containsNonAscii d = false) dirs ->
  "."%char ∉ suffix -> "/"%char ∉ suffix ->
  translateFilename (JS.join (str "/") (dirs ++ [k ++ "."%char :: suffix]))
  = JS.join (str "/") (dirs ++ [v ++ "."%char :: suffix]).
Proof.
  intros Hin Hdirs Hdot Hslash.
  destruct (mapping_keys _ _ Hin) as (_ & Hnon & Hkdot & Hkslash & Hk).
  assert (Hsplit : JS.split "/" (JS.join (str "/") (dirs ++ [k ++ "."%char :: suffix]))
                   = dirs ++ [k ++ "."%char :: suffix]).
  { change (str "/") with ["/"%char]. apply split_join.
    - intros H. apply app_eq_nil in H as [_ H]. discriminate.
    - apply Forall_app. split.
      + eapply Forall_impl; [exact Hdirs|]. intros d [? _]. assumption.
      + apply Forall_singleton. rewrite elem_of_app, elem_of_cons.
        intros [?|[?|?]]; [contradiction|discriminate|contradiction]. }
  rewrite (translateFilename_parts _ _ _ Hsplit).
  rewrite nameWithoutExt_app, extension_app by assumption.
  rewrite Hnon, (translateName_dictionary _ _ Hin). simpl. do 2 f_equal.
  apply list_eq. intros i. rewrite list_lookup_fmap.
  destruct (dirs !! i) as [d|] eqn:Hd; [|reflexivity]. simpl.
  rewrite Forall_forall in Hdirs.
  destruct (Hdirs d) as [_ Hascii]; [eapply list_elem_of_lookup_2; eassumption|].
  rewrite translateDirectory_of_ascii by assumption. reflexivity.
Qed.

(** X14.  A file named by a term of the dictionary gets the English slug
    of that term: for every entry of FILENAME_MAPPING, every extension
    and every ASCII directory path, [dirs/<term>.<ext>] becomes
    [dirs/<slug>.<ext>]. *)
Theorem translateFilename_dictionary_term
    (dirs : list jsstring) (k v suffix : jsstring) :
  (k, v) ∈ FILENAME_MAPPING ->
  Forall (fun d => ("/"%char ∉ d) /\ containsNonAscii d = false) dirs ->
  "."%char ∉ suffix -> "/"%char ∉ suffix ->
  translateFilename (JS.join (str "/") (dirs ++ [k ++ "."%char :: suffix]))
  = JS.join (str "/") (dirs ++ [v ++ "."%char :: suffix]).
Proof. apply translateFilename_dictionary_key. Qed.

Lemma translateFilename_dictionary_term_witness :
  translateFilename (JS.join (str "/") ([str "docs"; str "v2"]
                                          ++ [str "快速开始" ++ "."%char :: str "mdx"]))
  = JS.join (str "/") ([str "docs"; str "v2"]
                         ++ [str "Quick-Start" ++ "."%char :: str "mdx"]).
Proof.
  apply translateFilename_dictionary_term.
  - apply list_elem_of_In. vm_compute. repeat first [left; reflexivity | right].
  - repeat constructor; vm_compute;
      try (intros H; repeat (apply elem_of_cons in H as [H|H]; [discriminate|]);
           inversion H).
  - vm_compute. intros H. repeat (apply elem_of_cons in H as [H|H]; [discriminate|]).
    inversion H.
  - vm_compute. intros H. repeat (apply elem_of_cons in H as [H|H]; [discriminate|]).
    inversion H.
Defined.

(** X15.  translateFilename is not one-to-one: two files of a directory
    whose names are different terms of the dictionary with the same slug
    (such as [介绍] and [简介], both [Introduction]) get the same path,
    whatever the extension. *)
Theorem translateFilename_collision :
  (forall dirs k1 k2 v suffix,
      (k1, v) ∈ FILENAME_MAPPING -> (k2, v) ∈ FILENAME_MAPPING ->
      Forall (fun d => ("/"%char ∉ d) /\ containsNonAscii d = false) dirs ->
      "."%char ∉ suffix -> "/"%char ∉ suffix ->
      translateFilename (JS.join (str "/") (dirs ++ [k1 ++ "."%char :: suffix]))
      = translateFilename (JS.join (str "/") (dirs ++ [k2 ++ "."%char :: suffix])))
  /\ (str "介绍", str "Introduction") ∈ FILENAME_MAPPING
  /\ (str "简介", str "Introduction") ∈ FILENAME_MAPPING
  /\ str "介绍" <> str "简介".
Proof.
  split_and!.
  - intros dirs k1 k2 v suffix H1 H2 Hdirs Hdot Hslash.
    rewrite !(translateFilename_dictionary_key dirs _ v suffix) by assumption.
    reflexivity.
  - apply list_elem_of_In. vm_compute. repeat first [left; reflexivity | right].
  - apply list_elem_of_In. vm_compute. repeat first [left; reflexivity | right].
  - vm_compute. discriminate.
Qed.

Lemma translateFilename_collision_witness :
  translateFilename (JS.join (str "/") ([] ++ [str "介绍" ++ "."%char :: str "md"]))
  = translateFilename (JS.join (str "/") ([] ++ [str "简介" ++ "."%char :: str "md"])).
Proof.
  destruct translateFilename_collision as (H & H1 & H2 & _).
  apply (H [] _ _ _ (str "md") H1 H2).
  - constructor.
  - vm_compute. intros Hin.
    repeat (apply elem_of_cons in Hin as [Hin|Hin]; [discriminate|]). inversion Hin.
  - vm_compute. intros Hin.
    repeat (apply elem_of_cons in Hin as [Hin|Hin]; [discriminate|]). inversion Hin.
Defined.

Lemma app_separator_inj (sep : ascii) (a b x y : jsstring) :
  sep ∉ a -> sep ∉ b -> a ++ sep :: x = b ++ sep :: y -> a = b /\ x = y.
Proof.
  revert b. induction a as [|c a IH]; intros [|d b] Ha Hb; simpl.
  - intros [= ->]. split; reflexivity.
  - intros [= <- _]. destruct Hb. apply list_elem_of_here.
  - intros [= -> _]. destruct Ha. apply list_elem_of_here.
  - intros [= -> H]. apply not_elem_of_cons in Ha as [_ Ha].
    apply not_elem_of_cons in Hb as [_ Hb].
    destruct (IH b Ha Hb H) as [-> ->]. split; reflexivity.
Qed.

(** X16.  The target paths of two languages never coincide: when language
    codes contain no [/], equal target paths have the same target
    language. *)
Theorem getTranslatedPath_separates_languages
    (source1 source2 lang1 lang2 base1 base2 : jsstring) :
  "/"%char ∉ lang1 -> "/"%char ∉ lang2 ->
  getTranslatedPath source1 lang1 base1 = getTranslatedPath source2 lang2 base2 ->
  lang1 = lang2.
Proof.
  unfold getTranslatedPath. intros H1 H2 Heq.
  apply app_inv_head in Heq.
  change (str "/" ++ ?x) with ("/"%char :: x) in Heq.
  apply app_separator_inj in Heq as [? _]; assumption.
Qed.

Lemma getTranslatedPath_separates_languages_witness :
  getTranslatedPath (str "docs/介绍.md") (str "en") (str "zh-CN")
  = getTranslatedPath (str "docs/Introduction.md") (str "en") (str "en")
  /\ str "en" = str "en".
Proof.
  split; [vm_compute; reflexivity|].
  apply (getTranslatedPath_separates_languages
           (str "docs/介绍.md") (str "docs/Introduction.md") _ _ (str "zh-CN") (str "en")).
  - vm_compute. intros H.
    repeat (apply elem_of_cons in H as [H|H]; [discriminate|]). inversion H.
  - vm_compute. intros H.
    repeat (apply elem_of_cons in H as [H|H]; [discriminate|]). inversion H.
  - vm_compute. reflexivity.
Defined.

(** ** The file tree *)

Section ItemInduction.

Variable P : Item -> Prop.
Hypothesis Hfile : forall name path, P (ItemFile name path).
Hypothesis Hother : forall name path, P (ItemOther name path).
Hypothesis Hfails : forall name path, P (ItemDir name path None).
Hypothesis Hdir :
  forall name path items, Forall P items -> P (ItemDir name path (Some items)).

Fixpoint Item_induction (item : Item) : P item :=
  match item with
  | ItemFile name path => Hfile name path
  | ItemOther name path => Hother name path
  | ItemDir name path None => Hfails name path
  | ItemDir name path (Some items) =>
      Hdir name path items
           ((fix all (l : list Item) : Forall P l :=
               match l with
               | [] => List.Forall_nil P
               | x :: rest => List.Forall_cons P x rest (Item_induction x) (all rest)
               end) items)
  end.

End ItemInduction.

Lemma allNodes_cons (node : FileTreeNode) (nodes : list FileTreeNode) :
  allNodes (node :: nodes) = nodesOf node ++ allNodes nodes.
Proof. reflexivity. Qed.

Lemma allNodes_app (l1 l2 : list FileTreeNode) :
  allNodes (l1 ++ l2) = allNodes l1 ++ allNodes l2.
Proof. apply flat_map_app. Qed.

Lemma nodesOf_unfold (node : FileTreeNode) :
  nodesOf node = node :: match node_children node with
                         | Some children => allNodes children
                         | None => []
                         end.
Proof. destruct node as [? ? ? [?|] ?]; reflexivity. Qed.

(** *** getFileTree of client.ts *)

Lemma ClientTs_nodes (markdownOnly : bool) (item : Item) :
  forall node n,
    ClientTs.nodeOf markdownOnly item = Some node ->
    n ∈ nodesOf node ->
    match node_type n with
    | NodeDir =>
        skipped (node_name n) = false
        /\ node_isMarkdown n = None
        /\ exists children,
             node_children n = Some children
             /\ (markdownOnly = true -> children <> [])
    | NodeFile =>
        node_children n = None
        /\ node_isMarkdown n = Some (isMarkdownName (node_name n))
        /\ (markdownOnly = true -> isMarkdownName (node_name n) = true)
    end.
Proof.
  induction item as [name path|name path|name path|name path items IH]
    using Item_induction; intros node n; simpl.
  - destruct (markdownOnly && negb (isMarkdownName name)) eqn:Hmd; [discriminate|].
    intros [= <-]. simpl. rewrite list_elem_of_singleton. intros ->. simpl.
    split_and!; try reflexivity. intros ->. simpl in Hmd.
    apply negb_false_iff in Hmd. assumption.
  - discriminate.
  - destruct (skipped name); discriminate.
  - destruct (skipped name) eqn:Hskip; [discriminate|].
    destruct (markdownOnly && _) eqn:Hempty; [discriminate|].
    intros [= <-]. simpl. rewrite elem_of_cons. intros [->|Hin].
    + simpl. split_and!; try assumption; try reflexivity.
      eexists. split; [reflexivity|]. intros ->. simpl in Hempty.
      apply bool_decide_eq_false in Hempty. intros Hnil. apply Hempty.
      rewrite Hnil. reflexivity.
    + clear Hempty Hskip. revert Hin.
      induction IH as [|item items Hitem _ IHitems]; simpl; [intros H; inversion H|].
      destruct (ClientTs.nodeOf markdownOnly item) as [child|] eqn:Hchild;
        [|exact IHitems].
      simpl. rewrite elem_of_app. intros [Hin|Hin]; [|exact (IHitems Hin)].
      exact (Hitem child n eq_refl Hin).
Qed.

(** X17.  In the tree that getFileTree of client.ts returns, at every
    depth: no directory is one of SKIP_DIRECTORIES, and every directory
    has its children listed; a file has no children and is marked
    Markdown exactly when its name ends in [.md] or [.mdx].  In
    markdown-only mode every file is a Markdown file and no directory is
    empty. *)
Theorem ClientTs_getFileTree_nodes
    (markdownOnly : bool) (items : list Item) (n : FileTreeNode) :
  n ∈ allNodes (ClientTs.getFileTree markdownOnly items) ->
  match node_type n with
  | NodeDir =>
      skipped (node_name n) = false
      /\ node_isMarkdown n = None
      /\ exists children,
           node_children n = Some children
           /\ (markdownOnly = true -> children <> [])
  | NodeFile =>
      node_children n = None
      /\ node_isMarkdown n = Some (isMarkdownName (node_name n))
      /\ (markdownOnly = true -> isMarkdownName (node_name n) = true)
  end.
Proof.
  unfold ClientTs.getFileTree.
  induction items as [|item items IH]; simpl; [intros H; inversion H|].
  destruct (ClientTs.nodeOf markdownOnly item) as [node|] eqn:Hnode; [|exact IH].
  rewrite allNodes_cons, elem_of_app. intros [Hin|Hin]; [|exact (IH Hin)].
  exact (ClientTs_nodes markdownOnly item node n Hnode Hin).
Qed.

Lemma ClientTs_getFileTree_nodes_witness :
  let n := Node (str "docs") (str "docs") NodeDir
                (Some [Node (str "setup.md") (str "docs/setup.md") NodeFile None (Some true);
                       Node (str "guide.mdx") (str "docs/guide.mdx") NodeFile None (Some true)])
                None in
  skipped (node_name n) = false
  /\ node_isMarkdown n = None
  /\ exists children, node_children n = Some children /\ (true = true -> children <> []).
Proof.
  intros n.
  assert (Hin : n ∈ allNodes (ClientTs.getFileTree true Scenario.listing)).
  { vm_compute. apply list_elem_of_further, list_elem_of_here. }
  exact (ClientTs_getFileTree_nodes true Scenario.listing n Hin).
Defined.


Lemma omap_cons_eq {A B : Type} (f : A -> option B) (x : A) (l : list A) :
  omap f (x :: l) = match f x with
                    | Some y => y :: omap f l
                    | None => omap f l
                    end.
Proof. reflexivity. Qed.

Lemma getAllMarkdownFiles_omap (f : Item -> option FileTreeNode) (items : list Item) :
  ConfigPage.getAllMarkdownFiles (omap f items)
  = flat_map (fun item => match f item with
                          | Some node => ConfigPage.markdownFilesOf node
                          | None => []
                          end) items.
Proof.
  induction items as [|item items IH]; [reflexivity|].
  rewrite omap_cons_eq.
  change (flat_map ?g (item :: items)) with (g item ++ flat_map g items).
  rewrite <- IH. destruct (f item); reflexivity.
Qed.

Lemma ClientTs_markdownFiles (item : Item) :
  match ClientTs.nodeOf true item with
  | Some node => ConfigPage.markdownFilesOf node
  | None => []
  end
  = match ClientTs.nodeOf false item with
    | Some node => ConfigPage.markdownFilesOf node
    | None => []
    end.
Proof.
  induction item as [name path|name path|name path|name path items IH]
    using Item_induction; simpl.
  - destruct (isMarkdownName name); reflexivity.
  - reflexivity.
  - destruct (skipped name); reflexivity.
  - destruct (skipped name); [reflexivity|].
    assert (Hsame : ConfigPage.getAllMarkdownFiles (omap (ClientTs.nodeOf true) items)
                    = ConfigPage.getAllMarkdownFiles (omap (ClientTs.nodeOf false) items)).
    { rewrite !getAllMarkdownFiles_omap.
      induction IH as [|item items Hitem _ IHitems]; simpl; [reflexivity|].
      rewrite Hitem, IHitems. reflexivity. }
    case_bool_decide as Hempty; simpl.
    + change (flat_map ConfigPage.markdownFilesOf ?l)
        with (ConfigPage.getAllMarkdownFiles l).
      rewrite <- Hsame. destruct (omap (ClientTs.nodeOf true) items); [reflexivity|].
      discriminate.
    + exact Hsame.
Qed.

Lemma ClientTs_markdown_nodes (item : Item) :
  forall node n,
    ClientTs.nodeOf true item = Some node ->
    n ∈ nodesOf node ->
    ConfigPage.markdownFilesOf n <> [].
Proof.
  induction item as [name path|name path|name path|name path items IH]
    using Item_induction; intros node n; simpl.
  - destruct (isMarkdownName name); [|discriminate]. simpl.
    intros [= <-]. simpl. rewrite list_elem_of_singleton. intros ->. discriminate.
  - discriminate.
  - destruct (skipped name); discriminate.
  - destruct (skipped name); [discriminate|].
    case_bool_decide as Hempty; [discriminate|]. simpl.
    intros [= <-]. simpl. rewrite elem_of_cons.
    assert (Hchildren : forall child,
               child ∈ omap (ClientTs.nodeOf true) items ->
               forall n, n ∈ nodesOf child -> ConfigPage.markdownFilesOf n <> []).
    { clear Hempty. induction IH as [|item items Hitem _ IHitems]; simpl;
        [intros child H; inversion H|].
      destruct (ClientTs.nodeOf true item) as [c|] eqn:Hc; [|exact IHitems].
      intros child Hin. apply elem_of_cons in Hin as [->|Hin];
        [intros n' Hn'; exact (Hitem c n' eq_refl Hn')|exact (IHitems child Hin)]. }
    intros [->|Hin].
    + simpl. destruct (omap (ClientTs.nodeOf true) items) as [|child children];
        [destruct Hempty; reflexivity|].
      simpl. intros Hnil. apply app_eq_nil in Hnil as [Hnil _].
      apply (Hchildren child (list_elem_of_here _ _) child); [|assumption].
      rewrite nodesOf_unfold. apply list_elem_of_here.
    + apply list_elem_of_In, in_flat_map in Hin as (child & Hchild & Hn).
      apply (Hchildren child); apply list_elem_of_In; assumption.
Qed.

(** X18.  The markdown-only mode of getFileTree loses no Markdown file
    and keeps no directory without one: the Markdown files that the
    configuration page collects from the pruned tree are those it
    collects from the full tree, in the same order, and every node of the
    pruned tree, at every depth, is a Markdown file or a directory that
    contains one. *)
Theorem ClientTs_markdownOnly (items : list Item) :
  ConfigPage.getAllMarkdownFiles (ClientTs.getFileTree true items)
  = ConfigPage.getAllMarkdownFiles (ClientTs.getFileTree false items)
  /\ (forall n, n ∈ allNodes (ClientTs.getFileTree true items) ->
                ConfigPage.markdownFilesOf n <> []).
Proof.
  unfold ClientTs.getFileTree. split.
  - rewrite !getAllMarkdownFiles_omap.
    induction items as [|item items IH]; simpl; [reflexivity|].
    rewrite ClientTs_markdownFiles, IH. reflexivity.
  - induction items as [|item items IH]; simpl; [intros n H; inversion H|].
    destruct (ClientTs.nodeOf true item) as [node|] eqn:Hnode; [|exact IH].
    intros n. rewrite allNodes_cons, elem_of_app. intros [Hin|Hin]; [|exact (IH n Hin)].
    exact (ClientTs_markdown_nodes item node n Hnode Hin).
Qed.

Lemma ClientTs_markdownOnly_witness :
  ConfigPage.getAllMarkdownFiles (ClientTs.getFileTree true Scenario.listing)
  = [str "README.md"; str "docs/setup.md"; str "docs/guide.mdx"]
  /\ ConfigPage.getAllMarkdownFiles (ClientTs.getFileTree false Scenario.listing)
     = [str "README.md"; str "docs/setup.md"; str "docs/guide.mdx"].
Proof.
  destruct (ClientTs_markdownOnly Scenario.listing) as [<- _].
  split; vm_compute; reflexivity.
Defined.

(** *** getFileTree of operations.ts *)

Section OperationsTsFacts.

Variable localeCompare : jsstring -> jsstring -> Z.

Local Abbreviation insertNode := (OperationsTs.insertNode localeCompare).
Local Abbreviation sortNodes := (OperationsTs.sortNodes localeCompare).
Local Abbreviation nodeOf := (OperationsTs.nodeOf localeCompare).

Lemma insertNode_Permutation (x : FileTreeNode) (l : list FileTreeNode) :
  insertNode x l ≡ₚ x :: l.
Proof.
  induction l as [|y l IH]; simpl; [reflexivity|].
  destruct (_ <? 0); [reflexivity|]. rewrite IH. apply Permutation_swap.
Qed.

Lemma sortNodes_from_Permutation (l acc : list FileTreeNode) :
  foldl (fun sorted x => insertNode x sorted) acc l ≡ₚ acc ++ l.
Proof.
  revert acc. induction l as [|x l IH]; intros acc; simpl.
  - rewrite app_nil_r. reflexivity.
  - rewrite IH, insertNode_Permutation. rewrite (Permutation_middle acc l x). reflexivity.
Qed.

Lemma sortNodes_Permutation (l : list FileTreeNode) : sortNodes l ≡ₚ l.
Proof. unfold OperationsTs.sortNodes. apply (sortNodes_from_Permutation l []). Qed.

Lemma insertNode_dirs_first (x : FileTreeNode) (dirs files : list FileTreeNode) :
  Forall (fun n => node_type n = NodeDir) dirs ->
  Forall (fun n => node_type n = NodeFile) files ->
  exists dirs' files',
    insertNode x (dirs ++ files) = dirs' ++ files'
    /\ Forall (fun n => node_type n = NodeDir) dirs'
    /\ Forall (fun n => node_type n = NodeFile) files'.
Proof.
  intros Hdirs Hfiles. induction Hdirs as [|d dirs Hd Hdirs IH].
  - destruct (node_type x) eqn:Hx.
    + exists [], (insertNode x files). split; [reflexivity|]. split; [constructor|].
      rewrite insertNode_Permutation. constructor; assumption.
    + exists [x], files. split; [|split; [repeat constructor; assumption|assumption]].
      simpl. destruct Hfiles as [|f files Hf Hfiles]; [reflexivity|].
      simpl. unfold OperationsTs.compareNodes. rewrite Hx, Hf. reflexivity.
  - simpl. destruct (_ <? 0) eqn:Hcmp.
    + exists (x :: d :: dirs), files. split; [reflexivity|].
      split; [|assumption]. constructor; [|constructor; assumption].
      unfold OperationsTs.compareNodes in Hcmp. rewrite Hd in Hcmp.
      destruct (node_type x); [discriminate|reflexivity].
    + destruct IH as (dirs' & files' & -> & Hdirs' & Hfiles').
      exists (d :: dirs'), files'. split; [reflexivity|].
      split; [constructor; assumption|assumption].
Qed.

Lemma sortNodes_dirs_first (l : list FileTreeNode) :
  exists dirs files,
    sortNodes l = dirs ++ files
    /\ Forall (fun n => node_type n = NodeDir) dirs
    /\ Forall (fun n => node_type n = NodeFile) files.
Proof.
  unfold OperationsTs.sortNodes.
  enough (H : forall acc,
             (exists dirs files, acc = dirs ++ files
                /\ Forall (fun n => node_type n = NodeDir) dirs
                /\ Forall (fun n => node_type n = NodeFile) files) ->
             exists dirs files,
               foldl (fun sorted x => insertNode x sorted) acc l = dirs ++ files
               /\ Forall (fun n => node_type n = NodeDir) dirs
               /\ Forall (fun n => node_type n = NodeFile) files).
  { apply H. exists [], []. repeat split; constructor. }
  induction l as [|x l IH]; intros acc Hacc; simpl; [exact Hacc|].
  apply IH. destruct Hacc as (dirs & files & -> & Hdirs & Hfiles).
  apply insertNode_dirs_first; assumption.
Qed.

(** X19.  getFileTree of operations.ts returns one node for each entry of
    the listing, whatever its kind, with the directories placed before the
    files. *)
Theorem OperationsTs_getFileTree_order (items : list Item) :
  OperationsTs.getFileTree localeCompare items ≡ₚ map nodeOf items
  /\ exists dirs files,
       OperationsTs.getFileTree localeCompare items = dirs ++ files
       /\ Forall (fun n => node_type n = NodeDir) dirs
       /\ Forall (fun n => node_type n = NodeFile) files.
Proof.
  unfold OperationsTs.getFileTree. split.
  - apply sortNodes_Permutation.
  - apply sortNodes_dirs_first.
Qed.

Lemma allNodes_elem (n : FileTreeNode) (l : list FileTreeNode) :
  n ∈ allNodes l <-> exists m, m ∈ l /\ n ∈ nodesOf m.
Proof.
  unfold allNodes. rewrite list_elem_of_In, in_flat_map.
  split; intros (m & Hm & Hn); exists m; rewrite ?list_elem_of_In in *; auto.
Qed.

Lemma OperationsTs_nodes (item : Item) (n : FileTreeNode) :
  n ∈ nodesOf (nodeOf item) ->
  match node_type n with
  | NodeDir =>
      node_isMarkdown n = None
      /\ (if skipped (node_name n) then node_children n = None
          else is_Some (node_children n))
  | NodeFile => node_children n = None
  end.
Proof.
  revert n. induction item as [name path|name path|name path|name path items IH]
    using Item_induction; intros n; simpl.
  - rewrite list_elem_of_singleton. intros ->. reflexivity.
  - rewrite list_elem_of_singleton. intros ->. reflexivity.
  - destruct (skipped name) eqn:Hskip; simpl.
    + rewrite list_elem_of_singleton. intros ->. simpl. rewrite Hskip. auto.
    + rewrite list_elem_of_singleton. intros ->. simpl. rewrite Hskip. eauto.
  - destruct (skipped name) eqn:Hskip; simpl.
    + rewrite list_elem_of_singleton. intros ->. simpl. rewrite Hskip. auto.
    + rewrite elem_of_cons. intros [->|Hin]; [simpl; rewrite Hskip; eauto|].
      change (n ∈ allNodes (sortNodes (map nodeOf items))) in Hin.
      apply allNodes_elem in Hin as (m & Hm & Hn).
      rewrite sortNodes_Permutation in Hm.
      apply list_elem_of_In, in_map_iff in Hm as (item & <- & Hitem).
      rewrite Forall_forall in IH. apply (IH item); [apply list_elem_of_In|]; assumption.
Qed.

(** X20.  In the tree that getFileTree of operations.ts returns, at every
    depth, a directory named in SKIP_DIRECTORIES is listed but not opened
    (it has no children field), every other directory has its children
    listed (none when its listing could not be fetched), and a file has
    no children. *)
Theorem OperationsTs_getFileTree_skips (items : list Item) (n : FileTreeNode) :
  n ∈ allNodes (OperationsTs.getFileTree localeCompare items) ->
  match node_type n with
  | NodeDir =>
      node_isMarkdown n = None
      /\ (if skipped (node_name n) then node_children n = None
          else is_Some (node_children n))
  | NodeFile => node_children n = None
  end.
Proof.
  unfold OperationsTs.getFileTree. intros Hin.
  apply allNodes_elem in Hin as (m & Hm & Hn).
  rewrite sortNodes_Permutation in Hm.
  apply list_elem_of_In, in_map_iff in Hm as (item & <- & _).
  apply (OperationsTs_nodes item n Hn).
Qed.


End OperationsTsFacts.

Lemma OperationsTs_getFileTree_skips_witness :
  let n := Node (str "node_modules") (str "node_modules") NodeDir None None in
  node_isMarkdown n = None
  /\ (if skipped (node_name n) then node_children n = None
      else is_Some (node_children n)).
Proof.
  intros n.
  assert (Hin : n ∈ allNodes (OperationsTs.getFileTree (fun _ _ => 0) Scenario.listing)).
  { vm_compute. repeat constructor. }
  exact (OperationsTs_getFileTree_skips (fun _ _ => 0) Scenario.listing n Hin).
Defined.

(** ** The configuration page *)

Section NodeInduction.

Variable P : FileTreeNode -> Prop.
Hypothesis Hleaf : forall name path type isMarkdown, P (Node name path type None isMarkdown).
Hypothesis Hnode :
  forall name path type children isMarkdown,
    Forall P children -> P (Node name path type (Some children) isMarkdown).

Fixpoint FileTreeNode_induction (node : FileTreeNode) : P node :=
  match node with
  | Node name path type None isMarkdown => Hleaf name path type isMarkdown
  | Node name path type (Some children) isMarkdown =>
      Hnode name path type children isMarkdown
            ((fix all (l : list FileTreeNode) : Forall P l :=
                match l with
                | [] => List.Forall_nil P
                | x :: rest =>
                    List.Forall_cons P x rest (FileTreeNode_induction x) (all rest)
                end) children)
  end.

End NodeInduction.

Lemma toggle_elem (l : list jsstring) (x y : jsstring) :
  y ∈ (if bool_decide (x ∈ l) then filter (fun z => z <> x) l else l ++ [x])
  <-> (y = x /\ x ∉ l) \/ (y <> x /\ y ∈ l).
Proof.
  case_bool_decide as Hx.
  - rewrite list_elem_of_filter. split; [auto|]. intros [[_ ?]|?]; [contradiction|assumption].
  - rewrite elem_of_app, list_elem_of_singleton. split.
    + intros [Hy| ->]; [|auto]. right. split; [|assumption]. intros ->. contradiction.
    + intros [[-> _]|[_ ?]]; auto.
Qed.

(** X21.  handleFileToggle flips the selection of the path clicked and of
    no other: afterwards the path is selected exactly when it was not
    before, and any other file is selected exactly when it was before.
    handleLanguageToggle does the same to the target languages. *)
Theorem handleFileToggle_toggles (selected : list jsstring) (clicked other : jsstring) :
  (other ∈ ConfigPage.handleFileToggle selected clicked
   <-> (other = clicked /\ clicked ∉ selected) \/ (other <> clicked /\ other ∈ selected))
  /\ (other ∈ ConfigPage.handleLanguageToggle selected clicked
      <-> (other = clicked /\ clicked ∉ selected) \/ (other <> clicked /\ other ∈ selected)).
Proof. split; apply toggle_elem. Qed.

Lemma filter_id (P : jsstring -> Prop) `{!forall x, Decision (P x)} (l : list jsstring) :
  Forall P l -> filter P l = l.
Proof.
  induction 1 as [|x l Hx Hl IH]; [reflexivity|].
  rewrite filter_cons_True by assumption. rewrite IH. reflexivity.
Qed.

(** X22.  Clicking twice on a file that is not selected gives the
    selection back as it was, order included. *)
Theorem handleFileToggle_twice (selectedFiles : list jsstring) (path : jsstring) :
  path ∉ selectedFiles ->
  ConfigPage.handleFileToggle (ConfigPage.handleFileToggle selectedFiles path) path
  = selectedFiles.
Proof.
  intros Hpath. unfold ConfigPage.handleFileToggle.
  rewrite (bool_decide_eq_false_2 _ Hpath).
  rewrite bool_decide_eq_true_2 by (apply elem_of_app; right; apply list_elem_of_here).
  rewrite filter_app, filter_cons_False, filter_nil, app_nil_r by (intros H; apply H; reflexivity).
  apply filter_id, Forall_forall. intros file Hin ->. contradiction.
Qed.

Lemma handleFileToggle_twice_witness :
  ConfigPage.handleFileToggle
    (ConfigPage.handleFileToggle [str "README.md"; str "docs/setup.md"] (str "docs/guide.mdx"))
    (str "docs/guide.mdx")
  = [str "README.md"; str "docs/setup.md"].
Proof. apply handleFileToggle_twice. apply (bool_decide_unpack _). vm_compute. exact I. Defined.

(** *** Selecting a directory *)

Lemma firstReturn_cons {A B : Type} (body : A -> option B) (after : B) (x : A) (l : list A) :
  ConfigPage.firstReturn body after (x :: l)
  = match body x with
    | Some result => result
    | None => ConfigPage.firstReturn body after l
    end.
Proof. reflexivity. Qed.

Lemma getMarkdownFilesInDir_within (dirPath : jsstring) (node : FileTreeNode) :
  forall files,
    ConfigPage.markdownFilesInDirAt dirPath node = Some files ->
    files ⊆ ConfigPage.markdownFilesOf node.
Proof.
  induction node as [name path type isMarkdown|name path type children isMarkdown IH]
    using FileTreeNode_induction; intros files.
  - destruct type; discriminate.
  - destruct type; [discriminate|].
    change (ConfigPage.markdownFilesInDirAt dirPath (Node name path NodeDir (Some children) isMarkdown))
      with (if bool_decide (path = dirPath)
            then Some (ConfigPage.getAllMarkdownFiles children)
            else
              let result :=
                ConfigPage.firstReturn (ConfigPage.markdownFilesInDirAt dirPath) [] children in
              if bool_decide (0 < length result)%nat then Some result else None).
    change (ConfigPage.markdownFilesOf (Node name path NodeDir (Some children) isMarkdown))
      with (ConfigPage.getAllMarkdownFiles children).
    case_bool_decide; [intros [= <-]; reflexivity|].
    cbv zeta. case_bool_decide; [|discriminate]. intros [= <-].
    clear -IH. induction IH as [|child children Hchild _ IHchildren].
    + intros file H. inversion H.
    + rewrite firstReturn_cons. unfold ConfigPage.getAllMarkdownFiles. simpl flat_map.
      destruct (ConfigPage.markdownFilesInDirAt dirPath child) as [result|].
      * intros file Hin. apply elem_of_app. left. exact (Hchild result eq_refl file Hin).
      * intros file Hin. apply elem_of_app. right. exact (IHchildren file Hin).
Qed.

(** X23.  Selecting a directory only ever reaches Markdown files of the
    tree shown: every path getMarkdownFilesInDir returns, for any
    directory path, is one getAllMarkdownFiles returns for the tree. *)
Theorem getMarkdownFilesInDir_subset
    (nodes : list FileTreeNode) (dirPath file : jsstring) :
  file ∈ ConfigPage.getMarkdownFilesInDir nodes dirPath ->
  file ∈ ConfigPage.getAllMarkdownFiles nodes.
Proof.
  unfold ConfigPage.getMarkdownFilesInDir, ConfigPage.getAllMarkdownFiles.
  induction nodes as [|node nodes IH]; [intros H; inversion H|].
  rewrite firstReturn_cons. simpl flat_map. rewrite elem_of_app.
  destruct (ConfigPage.markdownFilesInDirAt dirPath node) as [result|] eqn:Hnode.
  - intros Hin. left. exact (getMarkdownFilesInDir_within dirPath node result Hnode file Hin).
  - intros Hin. right. exact (IH Hin).
Qed.

Lemma getMarkdownFilesInDir_subset_witness :
  str "docs/setup.md"
  ∈ ConfigPage.getAllMarkdownFiles (ClientTs.getFileTree false Scenario.listing).
Proof.
  apply (getMarkdownFilesInDir_subset _ (str "docs")).
  vm_compute. apply list_elem_of_here.
Defined.

Lemma filter_length_all (P : jsstring -> Prop) `{!forall x, Decision (P x)} (l : list jsstring) :
  length (filter P l) = length l <-> Forall P l.
Proof.
  induction l as [|x l IH]; [split; [constructor|reflexivity]|].
  destruct (decide (P x)) as [Hx|Hx].
  - rewrite filter_cons_True by assumption. simpl. rewrite Forall_cons.
    split; [intros [= Hlen]; split; [assumption|apply IH, Hlen]|].
    intros [_ Hall]. f_equal. apply IH, Hall.
  - rewrite filter_cons_False by assumption. simpl. rewrite Forall_cons.
    pose proof (length_filter P l). split; [lia|tauto].
Qed.

Lemma filter_length_none (P : jsstring -> Prop) `{!forall x, Decision (P x)} (l : list jsstring) :
  Forall (fun x => ~ P x) l -> length (filter P l) = 0%nat.
Proof.
  induction 1 as [|x l Hx Hl IH]; [reflexivity|].
  rewrite filter_cons_False by assumption. exact IH.
Qed.

Lemma every_Forall (P : jsstring -> Prop) `{!forall x, Decision (P x)} (l : list jsstring) :
  forallb (fun x => bool_decide (P x)) l = true <-> Forall P l.
Proof.
  induction l as [|x l IH]; simpl; [split; [constructor|reflexivity]|].
  rewrite andb_true_iff, bool_decide_eq_true, IH, Forall_cons. reflexivity.
Qed.

(** X24.  Clicking on a directory that holds at least one Markdown file
    leaves it either fully selected or not selected at all, never in
    part: a directory whose files were all selected shows [none]
    afterwards, any other shows [all]. *)
Theorem handleDirSelect_state
    (fileTree : list FileTreeNode) (selectedFiles : list jsstring) (dirPath : jsstring) :
  ConfigPage.getMarkdownFilesInDir fileTree dirPath <> [] ->
  ConfigPage.getDirSelectState fileTree
    (ConfigPage.handleDirSelect fileTree selectedFiles dirPath) dirPath
  = match ConfigPage.getDirSelectState fileTree selectedFiles dirPath with
    | ConfigPage.SelectAll => ConfigPage.SelectNone
    | _ => ConfigPage.SelectAll
    end.
Proof.
  intros Hfiles. unfold ConfigPage.getDirSelectState, ConfigPage.handleDirSelect.
  set (filesInDir := ConfigPage.getMarkdownFilesInDir fileTree dirPath) in *.
  assert (Hlen : length filesInDir <> 0%nat) by (destruct filesInDir; [congruence|discriminate]).
  cbv zeta. rewrite (bool_decide_eq_false_2 _ Hlen).
  destruct (forallb _ filesInDir) eqn:Hall.
  - apply every_Forall in Hall.
    rewrite (proj2 (filter_length_all (fun file => file ∈ selectedFiles) filesInDir) Hall).
    rewrite (bool_decide_eq_false_2 _ Hlen),
      (bool_decide_eq_true_2 (length filesInDir = length filesInDir) eq_refl).
    rewrite filter_length_none; [reflexivity|].
    apply Forall_forall. intros file Hin Hsel.
    apply list_elem_of_filter in Hsel as [Hout _]. contradiction.
  - assert (Hnot : ~ Forall (fun file => file ∈ selectedFiles) filesInDir).
    { intros Hsel.
      pose proof (proj2 (every_Forall (fun file => file ∈ selectedFiles) filesInDir) Hsel)
        as Htrue.
      discriminate (eq_trans (eq_sym Htrue) Hall). }
    assert (Hafter : Forall (fun file => file ∈ foldl set_add [] (selectedFiles ++ filesInDir))
                       filesInDir).
    { apply Forall_forall. intros file Hin.
      apply (foldl_set_add_spec (selectedFiles ++ filesInDir) [] NoDup_nil_2).
      right. apply elem_of_app. auto. }
    rewrite (proj2 (filter_length_all _ filesInDir) Hafter).
    rewrite (bool_decide_eq_false_2 _ Hlen),
      (bool_decide_eq_true_2 (length filesInDir = length filesInDir) eq_refl).
    case_bool_decide; [reflexivity|].
    case_bool_decide as Hcount; [|reflexivity].
    apply filter_length_all in Hcount. contradiction.
Qed.

Lemma handleDirSelect_state_witness :
  let fileTree := ClientTs.getFileTree true Scenario.listing in
  ConfigPage.getDirSelectState fileTree
    (ConfigPage.handleDirSelect fileTree [str "README.md"; str "docs/setup.md"] (str "docs"))
    (str "docs")
  = match ConfigPage.getDirSelectState fileTree [str "README.md"; str "docs/setup.md"]
            (str "docs") with
    | ConfigPage.SelectAll => ConfigPage.SelectNone
    | _ => ConfigPage.SelectAll
    end.
Proof.
  intros fileTree. apply handleDirSelect_state. vm_compute. discriminate.
Defined.

(** X25.  Clicking on a directory changes the selection of its own
    Markdown files only, and never introduces a duplicate: a path that
    getMarkdownFilesInDir does not return for the directory is selected
    afterwards exactly when it was before, and a selection without
    duplicates stays without duplicates. *)
Theorem handleDirSelect_elsewhere
    (fileTree : list FileTreeNode) (selectedFiles : list jsstring) (dirPath file : jsstring) :
  file ∉ ConfigPage.getMarkdownFilesInDir fileTree dirPath ->
  (file ∈ ConfigPage.handleDirSelect fileTree selectedFiles dirPath <-> file ∈ selectedFiles)
  /\ (NoDup selectedFiles ->
      NoDup (ConfigPage.handleDirSelect fileTree selectedFiles dirPath)).
Proof.
  intros Hfile. unfold ConfigPage.handleDirSelect.
  set (filesInDir := ConfigPage.getMarkdownFilesInDir fileTree dirPath) in *.
  cbv zeta. case_bool_decide; [tauto|].
  destruct (forallb _ filesInDir).
  - split.
    + rewrite list_elem_of_filter. tauto.
    + apply NoDup_filter.
  - destruct (foldl_set_add_spec (selectedFiles ++ filesInDir) [] NoDup_nil_2)
      as [Hnodup Hmem].
    split; [|intros _; exact Hnodup].
    rewrite Hmem, elem_of_app. split.
    + intros [Hin|[?|?]]; [inversion Hin|assumption|contradiction].
    + auto.
Qed.

Lemma handleDirSelect_elsewhere_witness :
  let fileTree := ClientTs.getFileTree true Scenario.listing in
  (str "README.md"
   ∈ ConfigPage.handleDirSelect fileTree [str "README.md"; str "docs/setup.md"] (str "docs")
   <-> str "README.md" ∈ [str "README.md"; str "docs/setup.md"])
  /\ (NoDup [str "README.md"; str "docs/setup.md"] ->
      NoDup (ConfigPage.handleDirSelect fileTree
               [str "README.md"; str "docs/setup.md"] (str "docs"))).
Proof.
  intros fileTree. apply handleDirSelect_elsewhere.
  apply (bool_decide_unpack _). vm_compute. exact I.
Defined.

(** ** From the configuration page to the webhook *)

Lemma somePattern_literal (RegExp_new : RegExp.constructor)
    (file : jsstring) (patterns : list jsstring) :
  RegExp.conforms RegExp_new ->
  Forall (Forall (fun c => literalChar c = true)) patterns ->
  somePattern RegExp_new file patterns = Some (bool_decide (file ∈ patterns)).
Proof.
  intros Hconforms. induction 1 as [|pattern patterns Hlit Hpatterns IH]; simpl.
  - reflexivity.
  - assert (Hglob : Forall (fun c => globChar c = true) pattern).
    { eapply Forall_impl; [exact Hlit|]. intros c. unfold literalChar.
      rewrite andb_true_iff. tauto. }
    rewrite (matchPath_run _ _ _ Hconforms Hglob). simpl.
    pose proof (run_globMatches pattern Hglob true file) as Hrun.
    rewrite (globMatches_literal _ _ Hlit) in Hrun.
    destruct (RegExp.run _ true file).
    + f_equal. symmetry. apply bool_decide_eq_true_2.
      rewrite (proj1 Hrun eq_refl). left.
    + rewrite IH. f_equal. apply bool_decide_ext. rewrite elem_of_cons.
      split; [auto|]. intros [Heq|?]; [|assumption].
      apply Hrun in Heq. discriminate.
Qed.

(** X26.  The configuration page saves the selected file paths as the
    include list.  When that list is not empty and its paths contain none
    of [* \ + ? ( ) [ ] { } | ^ $], and there is no exclude list, the
    webhook translates exactly the changed files that are selected, are
    Markdown and are not under [translations/], in the order of the
    push.  The regular-expression constructor is any that reads the
    sources of the fragment as the module RegExp does. *)
Theorem selected_files_as_include_paths
    (RegExp_new : RegExp.constructor) (files selectedFiles : list jsstring) :
  RegExp.conforms RegExp_new ->
  selectedFiles <> [] ->
  Forall (Forall (fun c => literalChar c = true)) selectedFiles ->
  filterFilesToTranslate RegExp_new files (Some selectedFiles) None
  = Some (filter (fun file =>
                    (str ".md" `suffix_of` file \/ str ".mdx" `suffix_of` file)
                    /\ ¬ str "translations/" `prefix_of` file
                    /\ file ∈ selectedFiles) files).
Proof.
  intros Hconforms Hsome Hlit. unfold filterFilesToTranslate.
  apply filterM_filter. intros file. unfold keepFile.
  destruct selectedFiles as [|first rest]; [congruence|].
  rewrite (somePattern_literal _ file _ Hconforms Hlit). simpl.
  destruct (JS.endsWith file (str ".md")) eqn:Hmd;
    destruct (JS.endsWith file (str ".mdx")) eqn:Hmdx;
    destruct (JS.startsWith file (str "translations/")) eqn:Htr; simpl;
    rewrite <- ?not_true_iff_false in *;
    rewrite ?endsWith_suffix, ?startsWith_prefix in *;
    f_equal; symmetry;
    first [ apply bool_decide_ext; tauto
          | apply bool_decide_eq_false_2; tauto ].
Qed.

Lemma selected_files_as_include_paths_witness :
  filterFilesToTranslate RegExp.reference
    [str "docs/logo.png"; str "docs/setup.md"; str "README.md"; str "docs/setupXmd"]
    (Some [str "README.md"; str "docs/setup.md"]) None
  = Some [str "docs/setup.md"; str "README.md"].
Proof.
  rewrite (selected_files_as_include_paths _ _ _ reference_conforms).
  - vm_compute. reflexivity.
  - discriminate.
  - unfold str. simpl. repeat constructor.
Defined.

(** ** The configuration route *)

Section ConfigRouteFacts.

Variable NEXTAUTH_URL : option jsstring.
Variable GITHUB_WEBHOOK_SECRET : option jsstring.
Variable repositories : jsstring -> option ConfigRoute.Repository.
Variable decrypt : jsstring -> option jsstring.

Local Abbreviation put :=
  (ConfigRoute.PUT NEXTAUTH_URL GITHUB_WEBHOOK_SECRET repositories decrypt).
Local Abbreviation put_all :=
  (ConfigRoute.PUT_all NEXTAUTH_URL GITHUB_WEBHOOK_SECRET repositories decrypt).
Local Abbreviation switch :=
  (ConfigRoute.switchWebhook NEXTAUTH_URL GITHUB_WEBHOOK_SECRET decrypt).

Lemma switchWebhook_octokit
    (req : ConfigRoute.Request) (repository : ConfigRoute.Repository)
    (config : option ConfigRoute.RepoConfig) (autoTranslate : bool)
    (webhookId : option (option Z)) (calls : list ConfigRoute.GitHubCall) :
  switch req repository config autoTranslate = (inr webhookId, calls) ->
  exists octokit,
    ConfigRoute.getOctokit decrypt req (ConfigRoute.user repository) = inr octokit.
Proof.
  unfold ConfigRoute.switchWebhook.
  destruct (ConfigRoute.getOctokit decrypt req _) as [response|octokit]; [discriminate|].
  eauto.
Qed.

Lemma switchWebhook_unchanged
    (req : ConfigRoute.Request) (repository : ConfigRoute.Repository)
    (config : option ConfigRoute.RepoConfig) (autoTranslate : bool)
    (octokit : ConfigRoute.Octokit) :
  ConfigRoute.getOctokit decrypt req (ConfigRoute.user repository) = inr octokit ->
  autoTranslate = ConfigRoute.currentAutoTranslate config ->
  switch req repository config autoTranslate
  = (inr (option_map ConfigRoute.webhookId config), []).
Proof.
  intros Hoctokit ->. unfold ConfigRoute.switchWebhook. rewrite Hoctokit. cbv zeta.
  destruct (ConfigRoute.currentAutoTranslate config); reflexivity.
Qed.

Lemma switchWebhook_calls
    (req : ConfigRoute.Request) (repository : ConfigRoute.Repository)
    (config : option ConfigRoute.RepoConfig) (autoTranslate : bool)
    (result : ConfigRoute.Response + option (option Z))
    (calls : list ConfigRoute.GitHubCall) :
  switch req repository config autoTranslate = (result, calls) ->
  calls = []
  \/ exists call,
       calls = [call]
       /\ autoTranslate = negb (ConfigRoute.currentAutoTranslate config).
Proof.
  unfold ConfigRoute.switchWebhook. cbv zeta.
  destruct (ConfigRoute.getOctokit decrypt req _) as [response|octokit];
    [intros [= _ <-]; auto|].
  destruct autoTranslate, (ConfigRoute.currentAutoTranslate config); simpl;
    repeat case_match; intros [= _ <-]; eauto.
Qed.

Lemma switchWebhook_webhookId
    (req : ConfigRoute.Request) (repository : ConfigRoute.Repository)
    (config : option ConfigRoute.RepoConfig)
    (webhookId : option (option Z)) (calls : list ConfigRoute.GitHubCall) :
  switch req repository config true = (inr webhookId, calls) ->
  if ConfigRoute.currentAutoTranslate config
  then webhookId = option_map ConfigRoute.webhookId config
  else exists hook,
         ConfigRoute.createWebhook_answer req = Resolved hook
         /\ webhookId = Some (Some hook).
Proof.
  unfold ConfigRoute.switchWebhook. cbv zeta.
  destruct (ConfigRoute.getOctokit decrypt req _) as [response|octokit]; [discriminate|].
  destruct (ConfigRoute.currentAutoTranslate config); simpl.
  - intros [= <- _]. reflexivity.
  - destruct (getWebhookSecret _); [|discriminate].
    destruct (ConfigRoute.createWebhook_answer req); [|case_bool_decide; discriminate].
    intros [= <- _]. eauto.
Qed.

(** What a request that is answered with success has gone through. *)
Lemma PUT_success (w w' : ConfigRoute.World) (req : ConfigRoute.Request)
    (saved : ConfigRoute.RepoConfig) :
  put w req = (ConfigRoute.Success saved, w') ->
  exists sessionUserId repository body webhookId calls,
    ConfigRoute.truthyString (ConfigRoute.session_user_id req) = Some sessionUserId
    /\ ConfigRoute.findRepository repositories (ConfigRoute.id req) sessionUserId
       = Some repository
    /\ ConfigRoute.json req = Some body
    /\ match ConfigRoute.body_autoTranslate body with
       | Some autoTranslate =>
           switch req repository (ConfigRoute.configs w !! ConfigRoute.id req) autoTranslate
           = (inr webhookId, calls)
       | None =>
           webhookId = option_map ConfigRoute.webhookId
                         (ConfigRoute.configs w !! ConfigRoute.id req)
           /\ calls = []
       end
    /\ saved = ConfigRoute.upsert (ConfigRoute.configs w !! ConfigRoute.id req) body webhookId
    /\ w' = {| ConfigRoute.configs := <[ConfigRoute.id req := saved]> (ConfigRoute.configs w);
               ConfigRoute.github := ConfigRoute.github w ++ calls |}.
Proof.
  unfold ConfigRoute.PUT.
  destruct (ConfigRoute.truthyString _) as [sessionUserId|] eqn:Hsession; [|discriminate].
  destruct (ConfigRoute.findRepository _ _ _) as [repository|] eqn:Hfind; [|discriminate].
  destruct (ConfigRoute.json req) as [body|] eqn:Hjson; [|discriminate]. cbv zeta.
  destruct (ConfigRoute.body_autoTranslate body) as [autoTranslate|] eqn:Hbody.
  - destruct (switch req repository _ autoTranslate) as [[response|webhookId] calls] eqn:Hswitch.
    + intros [= -> _]. exfalso.
      unfold ConfigRoute.switchWebhook, ConfigRoute.getOctokit, ConfigRoute.userOctokit
        in Hswitch.
      cbv zeta in Hswitch. repeat case_match; congruence.
    + intros [= <- <-]. exists sessionUserId, repository, body, webhookId, calls.
      rewrite Hbody. split_and!; try reflexivity; assumption.
  - intros [= <- <-]. eexists sessionUserId, repository, body, _, [].
    rewrite Hbody. split_and!; try reflexivity; assumption.
Qed.

(** An answer other than success leaves the table as it is. *)
Lemma PUT_error (w w' : ConfigRoute.World) (req : ConfigRoute.Request)
    (response : ConfigRoute.Response) :
  put w req = (response, w') ->
  (forall saved, response <> ConfigRoute.Success saved) ->
  ConfigRoute.configs w' = ConfigRoute.configs w.
Proof.
  unfold ConfigRoute.PUT. cbv zeta. intros Hput Herror. revert Hput.
  repeat case_match; intros [= <- <-]; try reflexivity.
  all: exfalso; eapply Herror; reflexivity.
Qed.

Lemma PUT_keeps_webhook_recorded (w : ConfigRoute.World) (req : ConfigRoute.Request) :
  map_Forall (fun _ => webhookRecorded) (ConfigRoute.configs w) ->
  ConfigRoute.createWebhook_answer req <> Resolved 0 ->
  map_Forall (fun _ => webhookRecorded) (ConfigRoute.configs (put w req).2).
Proof.
  intros Hw Hhook.
  destruct (put w req) as [response w'] eqn:Hput.
  assert (Hcases : (exists saved, response = ConfigRoute.Success saved)
                   \/ forall saved, response <> ConfigRoute.Success saved)
    by (destruct response; eauto; right; discriminate).
  destruct Hcases as [[saved ->]|Herror].
  - apply PUT_success in Hput
      as (_ & repository & body & webhookId & calls & _ & _ & _ & Hswitch & -> & ->).
    simpl. apply map_Forall_insert_2; [|assumption].
    set (config := ConfigRoute.configs w !! ConfigRoute.id req) in *.
    assert (Hconfig : forall current, config = Some current -> webhookRecorded current)
      by (intros current H; exact (Hw _ _ H)).
    clearbody config. unfold webhookRecorded in *.
    destruct (ConfigRoute.body_autoTranslate body) as [[|]|] eqn:Hbody.
    + apply switchWebhook_webhookId in Hswitch.
      destruct config as [current|]; simpl in *; rewrite Hbody; simpl; intros _.
      * destruct (ConfigRoute.autoTranslate current) eqn:Hcurrent.
        -- subst webhookId. simpl. auto.
        -- destruct Hswitch as (hook & _ & ->). simpl. eauto.
      * destruct Hswitch as (hook & Hanswer & ->). simpl.
        unfold ConfigRoute.truthyNumber. case_bool_decide; [congruence|eauto].
    + destruct config; simpl; rewrite Hbody; discriminate.
    + destruct Hswitch as [-> _].
      destruct config as [current|]; simpl; rewrite Hbody; simpl; [auto|discriminate].
  - simpl. rewrite (PUT_error _ _ _ _ Hput Herror). assumption.
Qed.

(** X27.  A configuration saved with automatic translation switched on
    always records its webhook: starting from a table where that holds
    (an empty table, for one), it holds after any sequence of requests,
    whatever their answers, as long as GitHub never numbers a webhook
    0. *)
Theorem PUT_all_keeps_webhook_recorded
    (w : ConfigRoute.World) (reqs : list ConfigRoute.Request) :
  map_Forall (fun _ => webhookRecorded) (ConfigRoute.configs w) ->
  Forall (fun req => ConfigRoute.createWebhook_answer req <> Resolved 0) reqs ->
  map_Forall (fun _ => webhookRecorded) (ConfigRoute.configs (put_all w reqs)).
Proof.
  intros Hw Hreqs. revert w Hw.
  induction Hreqs as [|req reqs Hreq _ IH]; intros w Hw; [exact Hw|].
  apply IH. apply PUT_keeps_webhook_recorded; assumption.
Qed.

Lemma upsert_again (config : option ConfigRoute.RepoConfig)
    (body : ConfigRoute.UpdateRepoConfigRequest) (webhookId : option (option Z)) :
  is_Some config \/ ConfigRoute.body_aiModel body <> Some [] ->
  let saved := ConfigRoute.upsert config body webhookId in
  ConfigRoute.upsert (Some saved) body (Some (ConfigRoute.webhookId saved)) = saved.
Proof.
  intros Hmodel. destruct body as [bl tl ip ep am at']. destruct config as [current|]; simpl.
  - destruct (ConfigRoute.truthyString bl), tl, ip, ep, am, at'; reflexivity.
  - destruct Hmodel as [[? [=]]|Hmodel]. simpl in Hmodel.
    destruct (ConfigRoute.truthyString bl), tl, ip, ep, am as [[|c model]|], at';
      try reflexivity; congruence.
Qed.

(** X28.  Saving is idempotent.  When a request is answered with success
    and is sent again with GitHub answering alike, it is answered with
    the same configuration, writes the same row and makes no call to
    GitHub.  This needs the repository to have been configured before
    the first request, or the model name of the body not to be the empty
    string, which a new row stores as null and an existing row as the
    empty string. *)
Theorem PUT_twice
    (w w' : ConfigRoute.World) (req : ConfigRoute.Request) (saved : ConfigRoute.RepoConfig) :
  put w req = (ConfigRoute.Success saved, w') ->
  is_Some (ConfigRoute.configs w !! ConfigRoute.id req)
  \/ (forall body, ConfigRoute.json req = Some body ->
                   ConfigRoute.body_aiModel body <> Some []) ->
  put w' req = (ConfigRoute.Success saved, w').
Proof.
  intros Hput Hmodel.
  apply PUT_success in Hput
    as (sessionUserId & repository & body & webhookId & calls
        & Hsession & Hfind & Hjson & Hswitch & Hsaved & ->).
  unfold ConfigRoute.PUT. cbv zeta. simpl ConfigRoute.configs. simpl ConfigRoute.github.
  rewrite Hsession, Hfind, Hjson, lookup_insert_eq.
  set (config := ConfigRoute.configs w !! ConfigRoute.id req) in *. clearbody config.
  assert (Hupsert : ConfigRoute.upsert (Some saved) body (Some (ConfigRoute.webhookId saved))
                    = saved).
  { rewrite Hsaved. apply upsert_again. destruct Hmodel as [?|Hmodel]; [auto|].
    right. exact (Hmodel body Hjson). }
  destruct (ConfigRoute.body_autoTranslate body) as [autoTranslate|] eqn:Hbody.
  - apply switchWebhook_octokit in Hswitch as [octokit Hoctokit].
    rewrite (switchWebhook_unchanged req repository (Some saved) autoTranslate octokit Hoctokit).
    + change (option_map ConfigRoute.webhookId (Some saved))
        with (Some (ConfigRoute.webhookId saved)).
      cbv beta iota zeta. rewrite Hupsert, app_nil_r, insert_insert_eq. reflexivity.
    + rewrite Hsaved. destruct config; simpl; rewrite Hbody; reflexivity.
  - change (option_map ConfigRoute.webhookId (Some saved))
      with (Some (ConfigRoute.webhookId saved)).
    cbv beta iota zeta. rewrite Hupsert, app_nil_r, insert_insert_eq. reflexivity.
Qed.

(** X29.  A request makes at most one call to GitHub, and only to flip
    the switch: when the calls recorded change, exactly one was added and
    the body asks for the opposite of the value of [autoTranslate] in the
    table (off for a repository without configuration).  Saving with the
    switch left as it is, or without the field, never reaches GitHub. *)
Theorem PUT_calls_GitHub_to_flip_only (w : ConfigRoute.World) (req : ConfigRoute.Request) :
  ConfigRoute.github (put w req).2 = ConfigRoute.github w
  \/ exists call body,
       ConfigRoute.github (put w req).2 = ConfigRoute.github w ++ [call]
       /\ ConfigRoute.json req = Some body
       /\ ConfigRoute.body_autoTranslate body
          = Some (negb (ConfigRoute.currentAutoTranslate
                          (ConfigRoute.configs w !! ConfigRoute.id req))).
Proof.
  unfold ConfigRoute.PUT. cbv zeta.
  destruct (ConfigRoute.truthyString _) as [sessionUserId|]; [|auto].
  destruct (ConfigRoute.findRepository _ _ _) as [repository|]; [|auto].
  destruct (ConfigRoute.json req) as [body|]; [|auto].
  destruct (ConfigRoute.body_autoTranslate body) as [autoTranslate|] eqn:Hbody.
  - destruct (switch req repository _ autoTranslate) as [result calls] eqn:Hswitch.
    apply switchWebhook_calls in Hswitch as [->|(call & -> & ->)].
    + left. destruct result; simpl; apply app_nil_r.
    + right. exists call, body. destruct result; simpl; auto.
  - left. simpl. apply app_nil_r.
Qed.

End ConfigRouteFacts.

Lemma PUT_all_keeps_webhook_recorded_witness :
  map_Forall (fun _ => webhookRecorded)
    (ConfigRoute.configs
       (ConfigRoute.PUT_all None (Some Scenario.secret) Scenario.repositories Some
          Scenario.unconfigured
          [Scenario.save true; Scenario.save false; Scenario.save true])).
Proof.
  apply PUT_all_keeps_webhook_recorded.
  - apply map_Forall_empty.
  - repeat constructor; discriminate.
Defined.

Lemma PUT_twice_witness :
  exists saved w',
    Scenario.put Scenario.unconfigured (Scenario.save true) = (ConfigRoute.Success saved, w')
    /\ Scenario.put w' (Scenario.save true) = (ConfigRoute.Success saved, w').
Proof.
  eexists _, _. split; [vm_compute; reflexivity|].
  apply (PUT_twice None (Some Scenario.secret) Scenario.repositories Some
           Scenario.unconfigured); [vm_compute; reflexivity|].
  right. intros body [= <-]. discriminate.
Defined.
